(** * The mind-map canvas: graph model and interaction controller

    A shallow embedding of the two [MindMapCanvas] components of the
    repository (the two-click "Connect" variant and the drag-to-connect
    variant), of the part of the rendering library they drive and of the
    way their parents mount them.

    Conventions of the embedding.
    - A React state variable is a field of the record [Canvas].  A
      function that the component defines in its body ([createEdge],
      [addNode], [saveEdit], ...) is a function of the render it belongs
      to: it reads the state variables of that render and its setters
      leave the next state behind.  The buttons of the toolbar call the
      functions of the latest render.
    - The handlers given to the cytoscape instance are created inside
      [useEffect] and stay subscribed until the effect runs again: they
      read the state variables, and call the functions, of the render in
      which the effect ran.  A mounted component ([Mounted]) therefore
      carries two renders, the latest one and the subscribed one, and a
      handler is a function of both.
    - The effect runs again after a render in which one of its
      dependencies has a new value; its cleanup destroys the instance and
      a new instance is created with the root alone.  The parent decides
      whether the prop [onNodeSelect] is a new function ([Host]).
    - The cytoscape instance is mutable and shared; the state variable [cy]
      of the latest render refers to the live instance, the one of the
      subscribed render to the instance that render referred to.
    - External readings ([Date.now()], [Math.random()], pointer
      coordinates) are arguments of the handler that takes them.
    - State updates made by one handler are rendered together, after the
      handler has returned. *)

From Stdlib Require Import ZArith String Ascii PrimFloat.
From stdpp Require Import base decidable option list strings pretty.

(** Handlers are written as pipelines of setters, in program order. *)
Notation "s |> f" := (f s) (at level 45, left associativity, only parsing).

(** ** Strings and numbers of the host language *)

Module Js.

(** [WhiteSpace] and [LineTerminator] of ECMAScript among the code units
    below 256, which is what a [string] of this development carries:
    TAB, LF, VT, FF, CR, SP and NBSP. *)
Definition isWhiteSpace (c : ascii) : bool :=
  let n := N_of_ascii c in
  ((9 <=? n)%N && (n <=? 13)%N) || (n =? 32)%N || (n =? 160)%N.

Fixpoint trimStart (s : string) : string :=
  match s with
  | EmptyString => EmptyString
  | String c s' => if isWhiteSpace c then trimStart s' else s
  end.

Fixpoint trimEnd (s : string) : string :=
  match s with
  | EmptyString => EmptyString
  | String c s' =>
      match trimEnd s' with
      | EmptyString => if isWhiteSpace c then EmptyString else String c EmptyString
      | t => String c t
      end
  end.

(** [String.prototype.trim]. *)
Definition trim (s : string) : string := trimEnd (trimStart s).

(** [ToBoolean] on a string: only the empty string is falsy. *)
Definition truthy (s : string) : bool := negb (bool_decide (s = "")).

(** [String(n)] for an integral Number in the safe range, which is what
    [Date.now()] returns: the decimal numeral, with a sign when negative. *)
Definition toString (n : Z) : string := pretty n.

End Js.

(** ** Data model *)

Inductive NodeType := root | primary | secondary | accent.

Module Position.
Record t := mk { x : float; y : float }.
End Position.

Module Node.
Record data := mk { id : string; label : string; type : NodeType }.
End Node.

Module Edge.
Record data := mk { id : string; source : string; target : string }.
End Edge.

Inductive Element :=
  | NodeEl (d : Node.data) (position : Position.t)
  | EdgeEl (d : Edge.data).

(** ** The rendering library's element store *)

Module Cy.

(** Modelled from the spec: the graph-rendering library (cytoscape) is an
    external collaborator and no file of it is under src/.  Its instance
    is the collection of elements in insertion order; section 3 of the
    spec gives what the store guarantees (an id is unique within a graph
    instance, the source and target of an edge reference existing nodes)
    and section 4.1 what removal does (the node goes, and with it every
    edge that references it). *)
Definition Core := list Element.

Definition elementId (e : Element) : string :=
  match e with
  | NodeEl d _ => Node.id d
  | EdgeEl d => Edge.id d
  end.

(** [cy.nodes()] and [cy.edges()], as the data objects of the elements. *)
Definition nodes (g : Core) : list Node.data :=
  omap (λ e, match e with NodeEl d _ => Some d | EdgeEl _ => None end) g.

Definition edges (g : Core) : list Edge.data :=
  omap (λ e, match e with NodeEl _ _ => None | EdgeEl d => Some d end) g.

Definition hasElementWithId (g : Core) (i : string) : bool :=
  bool_decide (i ∈ elementId <$> g).

Definition hasNode (g : Core) (i : string) : bool :=
  bool_decide (i ∈ Node.id <$> nodes g).

(** Modelled from the spec: [cy.add(ele)].  An element whose id is already
    in use is not created, nor is an edge whose source or target is not a
    node of the instance; nothing is raised to the caller. *)
Definition add (e : Element) (g : Core) : Core :=
  if hasElementWithId g (elementId e) then g
  else match e with
       | NodeEl _ _ => g ++ [e]
       | EdgeEl d =>
           if hasNode g (Edge.source d) && hasNode g (Edge.target d)
           then g ++ [e] else g
       end.

(** The selector [[source="a"][target="b"], [source="b"][target="a"]]. *)
Definition joins (a b : string) (d : Edge.data) : bool :=
  (bool_decide (Edge.source d = a) && bool_decide (Edge.target d = b))
  || (bool_decide (Edge.source d = b) && bool_decide (Edge.target d = a)).

(** [cy.edges(selector)] for the selector above. *)
Definition edgesJoining (a b : string) (g : Core) : list Edge.data :=
  filter (λ d, joins a b d) (edges g).

(** Whether element [e] stays when the elements with id [i] are removed;
    [cascade] tells whether [i] names a node of the instance. *)
Definition survives (cascade : bool) (i : string) (e : Element) : bool :=
  match e with
  | NodeEl d _ => negb (bool_decide (Node.id d = i))
  | EdgeEl d =>
      negb (bool_decide (Edge.id d = i))
      && negb (cascade && (bool_decide (Edge.source d = i)
                           || bool_decide (Edge.target d = i)))
  end.

(** Modelled from the spec: [cy.remove("#i")], the removal behind
    [removeNode] of section 4.1; the library's code is not under src/.  The
    elements whose id is [i] are removed and, when [i] names a node, so is
    every edge whose source or target is [i]. *)
Definition remove (i : string) (g : Core) : Core :=
  filter (λ e, survives (hasNode g i) i e) g.

(** [cy.$("#i").data("label", v)] on the nodes the selector matches. *)
Definition setLabel (i v : string) (g : Core) : Core :=
  (λ e, match e with
        | NodeEl d p =>
            if bool_decide (Node.id d = i)
            then NodeEl (Node.mk (Node.id d) v (Node.type d)) p else e
        | EdgeEl _ => e
        end) <$> g.

(** [cy.layout({ name: "preset" }).run()]: every node stays where its
    position says. *)
Definition layoutPreset (g : Core) : Core := g.

(** [cy.layout({ name: "dagre", ... }).run()]: the layout engine assigns
    positions, here the function [place] of the node id; the data of the
    elements is not touched. *)
Definition layoutDagre (place : string → Position.t) (g : Core) : Core :=
  (λ e, match e with
        | NodeEl d _ => NodeEl d (place (Node.id d))
        | EdgeEl _ => e
        end) <$> g.

End Cy.

(** ** Component state shared by the two variants *)

(** The state variables the two components have in common; [mode] is the
    connection state of the variant. *)
Record Canvas (M : Type) := mkCanvas {
  cy : option Cy.Core;
  selectedNode : option Node.data;
  isEditing : bool;
  editText : string;
  (** the optional prop: [None] when the host passes no callback, otherwise
      the arguments of its invocations so far, oldest first *)
  onNodeSelect : option (list (option Node.data));
  mode : M
}.

Arguments mkCanvas {M}.
Arguments cy {M}.
Arguments selectedNode {M}.
Arguments isEditing {M}.
Arguments editText {M}.
Arguments onNodeSelect {M}.
Arguments mode {M}.

(** [`edge-${sourceId}-${targetId}`] and [`node-${Date.now()}`]. *)
Definition edgeId (sourceId targetId : string) : string :=
  "edge-" +:+ sourceId +:+ "-" +:+ targetId.

Definition nodeIdAt (now : Z) : string := "node-" +:+ Js.toString now.

(** The [elements] option of the constructor call. *)
Definition initialElements : Cy.Core :=
  [NodeEl (Node.mk "root" "Main Idea" root) (Position.mk 400 300)].

Section Shared.
Context {M : Type}.
(** [isConnecting] in the two-click variant, [isDragging] in the other. *)
Variable connecting : M → bool.

Definition setCy (v : option Cy.Core) (s : Canvas M) : Canvas M :=
  mkCanvas v (selectedNode s) (isEditing s) (editText s) (onNodeSelect s) (mode s).

Definition setSelectedNode (v : option Node.data) (s : Canvas M) : Canvas M :=
  mkCanvas (cy s) v (isEditing s) (editText s) (onNodeSelect s) (mode s).

Definition setIsEditing (v : bool) (s : Canvas M) : Canvas M :=
  mkCanvas (cy s) (selectedNode s) v (editText s) (onNodeSelect s) (mode s).

Definition setEditText (v : string) (s : Canvas M) : Canvas M :=
  mkCanvas (cy s) (selectedNode s) (isEditing s) v (onNodeSelect s) (mode s).

Definition setMode (v : M) (s : Canvas M) : Canvas M :=
  mkCanvas (cy s) (selectedNode s) (isEditing s) (editText s) (onNodeSelect s) v.

(** [onNodeSelect?.(v)]. *)
Definition notify (v : option Node.data) (s : Canvas M) : Canvas M :=
  mkCanvas (cy s) (selectedNode s) (isEditing s) (editText s)
           ((λ calls, calls ++ [v]) <$> onNodeSelect s) (mode s).

(** The first render: no instance yet, nothing selected; [callback] tells
    whether the parent passes [onNodeSelect]. *)
Definition unmounted (callback : bool) (m : M) : Canvas M :=
  mkCanvas None None false "" (if callback then Some [] else None) m.

Definition createEdge (sourceId targetId : string) (s : Canvas M) : Canvas M :=
  match cy s with
  | None => s
  | Some g =>
      let existingEdge := Cy.edgesJoining sourceId targetId g in
      if bool_decide (0 < length existingEdge) then s
      else
        s |> setCy (Some (Cy.add (EdgeEl (Edge.mk (edgeId sourceId targetId)
                                                  sourceId targetId)) g))
  end.

Definition addNode (type : NodeType) (now : Z) (random1 random2 : float)
    (s : Canvas M) : Canvas M :=
  match cy s with
  | None => s
  | Some g =>
      let nodeId := nodeIdAt now in
      let position :=
        match selectedNode s with
        | Some _ => Position.mk (random1 * 200 + 300) (random2 * 200 + 200)
        | None => Position.mk (random1 * 600 + 200) (random2 * 400 + 150)
        end%float in
      let s1 :=
        s |> setCy (Some (Cy.add (NodeEl (Node.mk nodeId "New Idea" type) position) g)) in
      let s2 :=
        match selectedNode s with
        | Some selected =>
            if negb (connecting (mode s))
            then s1 |> createEdge (Node.id selected) nodeId
            else s1
        | None => s1
        end in
      s2 |> setCy (Cy.layoutPreset <$> cy s2)
  end.

Definition deleteSelected (s : Canvas M) : Canvas M :=
  match cy s, selectedNode s with
  | Some g, Some selected =>
      s |> setCy (Some (Cy.remove (Node.id selected) g))
        |> setSelectedNode None
        |> notify None
  | _, _ => s
  end.

Definition startEditing (s : Canvas M) : Canvas M :=
  match selectedNode s with
  | None => s
  | Some selected => s |> setEditText (Node.label selected) |> setIsEditing true
  end.

Definition saveEdit (s : Canvas M) : Canvas M :=
  match cy s, selectedNode s with
  | Some g, Some selected =>
      if Js.truthy (Js.trim (editText s)) then
        s |> setCy (Some (Cy.setLabel (Node.id selected) (Js.trim (editText s)) g))
          |> setIsEditing false
          |> setEditText ""
          |> setSelectedNode
               (Some (Node.mk (Node.id selected) (Js.trim (editText s))
                              (Node.type selected)))
      else s
  | _, _ => s
  end.

Definition runLayout (place : string → Position.t) (s : Canvas M) : Canvas M :=
  match cy s with
  | None => s
  | Some g => s |> setCy (Some (Cy.layoutDagre place g))
  end.

(** [onKeyDown] of the edit input. *)
Definition editKeyDown (key : string) (s : Canvas M) : Canvas M :=
  let s1 := if bool_decide (key = "Enter") then saveEdit s else s in
  if bool_decide (key = "Escape") then s1 |> setIsEditing false else s1.

(** Observations used in the statements. *)
Definition graph (s : Canvas M) : Cy.Core := default [] (cy s).
Definition nodeCount (s : Canvas M) : nat := length (Cy.nodes (graph s)).
Definition edgeCount (s : Canvas M) : nat := length (Cy.edges (graph s)).

End Shared.

(** ** Event targets *)

(** [evt.target]: the core itself (a tap or release on the empty canvas) or
    an element of the instance. *)
Inductive Target :=
  | OnCore
  | OnNode (d : Node.data)
  | OnEdge (d : Edge.data).

(** Where the pointer is when the user acts, by element id, and the target
    the instance resolves it to: [node.data()] is the data the element has
    at that moment. *)
Inductive Pointer :=
  | AtBackground
  | AtElement (i : string).

Definition resolve (p : Pointer) (g : Cy.Core) : option Target :=
  match p with
  | AtBackground => Some OnCore
  | AtElement i =>
      (λ e, match e with NodeEl d _ => OnNode d | EdgeEl d => OnEdge d end)
        <$> head (filter (λ e, bool_decide (Cy.elementId e = i)) g)
  end.

(** ** The parent of the canvas *)

Module Host.

(** What the parent does with the prop [onNodeSelect].
    - [NoCallback]: the prop is not passed, as in [ProjectDashboard.tsx].
    - [SameCallback]: the parent passes one and the same function in every
      render.
    - [IndexPage]: [Index.tsx].  Every render of the page creates the
      function [handleNodeSelect] anew; the function stores its argument
      in the state variable [selectedNode] of the page. *)
Inductive t := NoCallback | SameCallback | IndexPage.

Definition hasCallback (h : t) : bool :=
  match h with NoCallback => false | _ => true end.

(** Whether a render of the parent passes a new function. *)
Definition newCallback (h : t) : bool :=
  match h with IndexPage => true | _ => false end.

(** A value of the state variable [selectedNode] of [Index.tsx]: [null],
    or the data object of an element.  The object is identified by the
    number of the instance the element belongs to and by the id of the
    element; it is carried with the data read from it. *)
Definition Selected := option (nat * Node.data).

(** [Object.is] on two such values. *)
Definition sameValue (a b : Selected) : bool :=
  match a, b with
  | None, None => true
  | Some (i, d), Some (j, e) =>
      bool_decide (i = j) && bool_decide (Node.id d = Node.id e)
  | _, _ => false
  end.

(** A call of the prop with [nodeData], read from the instance number
    [instance], when the page holds [selectedNode]: what the page holds
    afterwards, and whether it renders again.  React skips the render when
    a state variable is set to the value it has. *)
Definition handleNodeSelect (instance : nat) (nodeData : option Node.data)
    (h : t) (selectedNode : Selected) : Selected * bool :=
  match h with
  | IndexPage =>
      ((λ d, (instance, d)) <$> nodeData,
       negb (sameValue selectedNode ((λ d, (instance, d)) <$> nodeData)))
  | _ => (selectedNode, false)
  end.

End Host.

(** ** The mounted component *)

(** [latest]: the state variables and the prop of the latest render; its
    [cy] is the live instance.  [subscribed]: the render in which the
    effect last ran, whose values the handlers of the live instance close
    over; its [cy] is what that render had in the state variable: [null]
    in the first render, afterwards the instance that the cleanup has
    destroyed.  [parent]: who mounts the component.  [page]: the state
    variable [selectedNode] of [Index.tsx], [null] at first.  [built]: the
    number of instances created so far. *)
Record Mounted (M : Type) := mkMounted {
  latest : Canvas M;
  subscribed : Canvas M;
  parent : Host.t;
  page : Host.Selected;
  built : nat
}.

Arguments mkMounted {M}.
Arguments latest {M}.
Arguments subscribed {M}.
Arguments parent {M}.
Arguments page {M}.
Arguments built {M}.

Section Effect.
Context {M : Type}.

(** The body of [useEffect] and the cleanup of its previous run: the
    instance is destroyed, a new one is created with the [elements] of the
    constructor call, the handlers of the render [latest c] are subscribed
    on it, and [setCy] stores it. *)
Definition effect (c : Mounted M) : Mounted M :=
  mkMounted (latest c |> setCy (Some initialElements)) (latest c) (parent c)
            (page c) (S (built c)).

(** The component after its first render and the first run of the effect. *)
Definition mounted (h : Host.t) (m : M) : Mounted M :=
  effect (mkMounted (unmounted (Host.hasCallback h) m)
                    (unmounted (Host.hasCallback h) m) h None 0).

(** The calls of [onNodeSelect] made between two states, oldest first. *)
Definition calls (before after : Canvas M) : list (option Node.data) :=
  match onNodeSelect before, onNodeSelect after with
  | Some made, Some made' => drop (length made) made'
  | _, _ => []
  end.

(** The parent is told the values [vs], read from the instance number
    [instance]. *)
Definition tell (instance : nat) (h : Host.t) (selectedNode : Host.Selected)
    (vs : list (option Node.data)) : Host.Selected * bool :=
  foldl (λ acc v,
           let '(selected, renders) := Host.handleNodeSelect instance v h acc.1 in
           (selected, acc.2 || renders))
        (selectedNode, false) vs.

(** What follows an event.  The handler has left the subscribed render as
    [r] and the state as [s].  The parent has been told the selections
    reported meanwhile; it renders again when that changed its state, or
    for a reason of its own ([parentRenders]).  React renders the
    component; when the prop is a new function, or another dependency of
    the effect has a new value ([dependencyChanged]), the effect runs
    again. *)
Definition commit (parentRenders dependencyChanged : bool) (c : Mounted M)
    (r s : Canvas M) : Mounted M :=
  let '(selected, told) := tell (built c) (parent c) (page c) (calls (latest c) s) in
  let c' := mkMounted s r (parent c) selected (built c) in
  if ((told || parentRenders) && Host.newCallback (parent c)) || dependencyChanged
  then effect c' else c'.

End Effect.

(** ** Variant A: two-click connection mode *)

Module TwoClick.

Record Mode := mkMode { isConnecting : bool; firstNode : option Node.data }.

Definition State := Canvas Mode.

Definition setIsConnecting (v : bool) (s : State) : State :=
  s |> setMode (mkMode v (firstNode (mode s))).

Definition setFirstNode (v : option Node.data) (s : State) : State :=
  s |> setMode (mkMode (isConnecting (mode s)) v).

(** The component as its parent [h] has mounted it. *)
Definition initial (h : Host.t) : Mounted Mode := mounted h (mkMode false None).

(** [cytoscapeInstance.on('tap', 'node', ...)].  The handler belongs to the
    subscribed render [r]: [isConnecting], [firstNode] and [createEdge] are
    those of [r], and [createEdge] acts on the instance [r] refers to.  The
    setters act on the state [s].  The result is [r] and [s] afterwards. *)
Definition tapNode (nodeData : Node.data) (r s : State) : State * State :=
  if isConnecting (mode r) then
    match firstNode (mode r) with
    | None =>
        (r, s |> setFirstNode (Some nodeData)
              |> setSelectedNode (Some nodeData)
              |> notify (Some nodeData))
    | Some first =>
        if bool_decide (Node.id first ≠ Node.id nodeData) then
          (r |> createEdge (Node.id first) (Node.id nodeData),
           s |> setIsConnecting false
             |> setFirstNode None
             |> setSelectedNode (Some nodeData)
             |> notify (Some nodeData))
        else (r, s)
    end
  else
    (r, s |> setSelectedNode (Some nodeData) |> notify (Some nodeData)).

(** [cytoscapeInstance.on('tap', ...)], which every tap reaches; it belongs
    to the subscribed render [r] as well. *)
Definition tap (target : Target) (r s : State) : State * State :=
  match target with
  | OnCore =>
      (r, (if isConnecting (mode r)
           then s |> setIsConnecting false |> setFirstNode None
           else s)
            |> setSelectedNode None
            |> notify None)
  | _ => (r, s)
  end.

Definition startConnecting (s : State) : State :=
  s |> setIsConnecting true
    |> setFirstNode None
    |> setSelectedNode None
    |> notify None.

Definition cancelConnecting (s : State) : State :=
  s |> setIsConnecting false |> setFirstNode None.

(** What can happen to the mounted component: what the user does, and a
    render of the parent for a reason of its own (in [Index.tsx], the
    button that shows or hides the chat). *)
Inductive Event :=
  | Tap (p : Pointer)
  | ClickAddNode (type : NodeType) (now : Z) (random1 random2 : float)
  | ClickConnect
  | ClickCancelConnect
  | ClickLayout (place : string → Position.t)
  | ClickEdit
  | ClickDelete
  | EditChange (text : string)
  | EditKeyDown (key : string)
  | ClickEditCancel
  | ClickSave
  | ParentRenders.

(** The handler that an event reaches, on the subscribed render [r] and
    the state [s].  The pointer is resolved in the live instance, which
    emits the event to the handlers subscribed on it.  The controls of the
    toolbar and of the editor call the functions of the latest render,
    which see [s]; a control that is not rendered, or is disabled, in [s]
    does nothing. *)
Definition handle (ev : Event) (r s : State) : State * State :=
  match ev with
  | Tap p =>
      match resolve p (graph s) with
      | Some (OnNode d) => let '(r1, s1) := tapNode d r s in tap (OnNode d) r1 s1
      | Some t => tap t r s
      | None => (r, s)
      end
  | ClickAddNode type now random1 random2 =>
      (r, s |> addNode isConnecting type now random1 random2)
  | ClickConnect => (r, if isConnecting (mode s) then s else startConnecting s)
  | ClickCancelConnect =>
      (r, if isConnecting (mode s) then cancelConnecting s else s)
  | ClickLayout place => (r, runLayout place s)
  | ClickEdit => (r, if selectedNode s is Some _ then startEditing s else s)
  | ClickDelete => (r, if selectedNode s is Some _ then deleteSelected s else s)
  | EditChange text => (r, if isEditing s then s |> setEditText text else s)
  | EditKeyDown key => (r, if isEditing s then editKeyDown key s else s)
  | ClickEditCancel => (r, if isEditing s then s |> setIsEditing false else s)
  | ClickSave => (r, if isEditing s then saveEdit s else s)
  | ParentRenders => (r, s)
  end.

Definition isParentRenders (ev : Event) : bool :=
  match ev with ParentRenders => true | _ => false end.

(** The dependencies of the effect are [[onNodeSelect]]. *)
Definition dispatch (c : Mounted Mode) (ev : Event) : Mounted Mode :=
  let '(r, s) := handle ev (subscribed c) (latest c) in
  commit (isParentRenders ev) false c r s.

Definition run (evs : list Event) (c : Mounted Mode) : Mounted Mode :=
  foldl dispatch c evs.

End TwoClick.

(** ** Variant B: drag to connect *)

Module DragStart.
Record t := mk { x : float; y : float; nodeId : string }.
End DragStart.

Module DragConnect.

Record Mode := mkMode {
  isDragging : bool;
  dragStart : option DragStart.t;
  dragEnd : option Position.t
}.

Definition State := Canvas Mode.

Definition setIsDragging (v : bool) (s : State) : State :=
  s |> setMode (mkMode v (dragStart (mode s)) (dragEnd (mode s))).

Definition setDragStart (v : option DragStart.t) (s : State) : State :=
  s |> setMode (mkMode (isDragging (mode s)) v (dragEnd (mode s))).

Definition setDragEnd (v : option Position.t) (s : State) : State :=
  s |> setMode (mkMode (isDragging (mode s)) (dragStart (mode s)) v).

(** The component as its parent [h] has mounted it. *)
Definition initial (h : Host.t) : Mounted Mode :=
  mounted h (mkMode false None None).

Definition resetDragState (s : State) : State :=
  s |> setIsDragging false |> setDragStart None |> setDragEnd None.

(** The handlers belong to the subscribed render [r]: what they read
    ([isDragging], [dragStart]) and the functions they call ([createEdge],
    [resetDragState]) are those of [r]; the setters act on the state [s]. *)

(** [cytoscapeInstance.on('tap', 'node', ...)]. *)
Definition tapNode (nodeData : Node.data) (r s : State) : State * State :=
  if negb (isDragging (mode r))
  then (r, s |> setSelectedNode (Some nodeData) |> notify (Some nodeData))
  else (r, s).

(** [cytoscapeInstance.on('tap', ...)]. *)
Definition tap (target : Target) (r s : State) : State * State :=
  match target with
  | OnCore =>
      if negb (isDragging (mode r))
      then (r, s |> setSelectedNode None |> notify None)
      else (r, s)
  | _ => (r, s)
  end.

(** [cytoscapeInstance.on('mousedown', 'node', ...)]; [position] is
    [node.renderedPosition()]. *)
Definition mousedownNode (nodeData : Node.data) (position : Position.t)
    (r s : State) : State * State :=
  (r, s |> setIsDragging true
        |> setDragStart (Some (DragStart.mk (Position.x position)
                                            (Position.y position)
                                            (Node.id nodeData)))
        |> setDragEnd (Some (Position.mk (Position.x position)
                                         (Position.y position)))).

(** [cytoscapeInstance.on('mousemove', ...)]; [containerRect] is the left
    and top of [cyRef.current?.getBoundingClientRect()]. *)
Definition mousemove (clientX clientY : float) (containerRect : option (float * float))
    (r s : State) : State * State :=
  match isDragging (mode r), dragStart (mode r), containerRect with
  | true, Some _, Some (rectLeft, rectTop) =>
      (r, s |> setDragEnd (Some (Position.mk (clientX - rectLeft)
                                             (clientY - rectTop))))
  | _, _, _ => (r, s)
  end.

(** [cytoscapeInstance.on('mouseup', 'node', ...)]. *)
Definition mouseupNode (targetData : Node.data) (r s : State) : State * State :=
  match isDragging (mode r), dragStart (mode r) with
  | true, Some start =>
      (if bool_decide (DragStart.nodeId start ≠ Node.id targetData)
       then r |> createEdge (DragStart.nodeId start) (Node.id targetData)
       else r,
       s |> resetDragState)
  | _, _ => (r, s)
  end.

(** [cytoscapeInstance.on('mouseup', ...)]. *)
Definition mouseup (target : Target) (r s : State) : State * State :=
  match target with
  | OnCore => if isDragging (mode r) then (r, resetDragState s) else (r, s)
  | _ => (r, s)
  end.

Inductive Event :=
  | Tap (p : Pointer)
  | MouseDown (p : Pointer) (position : Position.t)
  | MouseMove (clientX clientY : float) (containerRect : option (float * float))
  | MouseUp (p : Pointer)
  | ClickAddNode (type : NodeType) (now : Z) (random1 random2 : float)
  | ClickLayout (place : string → Position.t)
  | ClickEdit
  | ClickDelete
  | EditChange (text : string)
  | EditKeyDown (key : string)
  | ClickEditCancel
  | ClickSave
  | ParentRenders.

Definition handle (ev : Event) (r s : State) : State * State :=
  match ev with
  | Tap p =>
      match resolve p (graph s) with
      | Some (OnNode d) => let '(r1, s1) := tapNode d r s in tap (OnNode d) r1 s1
      | Some t => tap t r s
      | None => (r, s)
      end
  | MouseDown p position =>
      match resolve p (graph s) with
      | Some (OnNode d) => mousedownNode d position r s
      | _ => (r, s)
      end
  | MouseMove clientX clientY containerRect =>
      mousemove clientX clientY containerRect r s
  | MouseUp p =>
      match resolve p (graph s) with
      | Some (OnNode d) =>
          let '(r1, s1) := mouseupNode d r s in mouseup (OnNode d) r1 s1
      | Some t => mouseup t r s
      | None => (r, s)
      end
  | ClickAddNode type now random1 random2 =>
      (r, s |> addNode isDragging type now random1 random2)
  | ClickLayout place => (r, runLayout place s)
  | ClickEdit =>
      (r, if selectedNode s is Some _
          then if isDragging (mode s) then s else startEditing s
          else s)
  | ClickDelete =>
      (r, if selectedNode s is Some _
          then if isDragging (mode s) then s else deleteSelected s
          else s)
  | EditChange text => (r, if isEditing s then s |> setEditText text else s)
  | EditKeyDown key => (r, if isEditing s then editKeyDown key s else s)
  | ClickEditCancel => (r, if isEditing s then s |> setIsEditing false else s)
  | ClickSave => (r, if isEditing s then saveEdit s else s)
  | ParentRenders => (r, s)
  end.

Definition isParentRenders (ev : Event) : bool :=
  match ev with ParentRenders => true | _ => false end.

(** Whether the event has run the mousedown handler, which makes a new
    object for [dragStart]. *)
Definition pressed (ev : Event) (s : State) : bool :=
  match ev with
  | MouseDown p _ =>
      match resolve p (graph s) with Some (OnNode _) => true | _ => false end
  | _ => false
  end.

(** The dependencies of the effect are [[onNodeSelect, isDragging,
    dragStart]].  [isDragging] is compared as a boolean; [dragStart] is
    [null] or an object, and is the same object as before unless the
    mousedown handler has made a new one. *)
Definition dependencyChanged (ev : Event) (before after : State) : bool :=
  negb (bool_decide (isDragging (mode before) = isDragging (mode after)))
  || match dragStart (mode before), dragStart (mode after) with
     | None, None => false
     | Some _, Some _ => pressed ev before
     | _, _ => true
     end.

Definition dispatch (c : Mounted Mode) (ev : Event) : Mounted Mode :=
  let '(r, s) := handle ev (subscribed c) (latest c) in
  commit (isParentRenders ev) (dependencyChanged ev (latest c) s) c r s.

Definition run (evs : list Event) (c : Mounted Mode) : Mounted Mode :=
  foldl dispatch c evs.

End DragConnect.

(** ** Well-formed graphs *)

(** The shape of the ids the components give to nodes: ["root"], or
    ["node-"] followed by a decimal numeral. *)
Definition isDigit (c : ascii) : bool :=
  let n := N_of_ascii c in (48 <=? n)%N && (n <=? 57)%N.

Fixpoint allDigits (s : string) : bool :=
  match s with
  | EmptyString => true
  | String c s' => isDigit c && allDigits s'
  end.

Definition isNumeral (s : string) : bool :=
  match s with
  | EmptyString => false
  | String c s' =>
      if bool_decide (c = "-"%char)
      then negb (bool_decide (s' = "")) && allDigits s'
      else allDigits s
  end.

(** [stripPrefix p s] is the rest of [s] after its prefix [p]. *)
Fixpoint stripPrefix (p s : string) : option string :=
  match p, s with
  | EmptyString, _ => Some s
  | String a p', String b s' =>
      if bool_decide (a = b) then stripPrefix p' s' else None
  | String _ _, EmptyString => None
  end.

Definition isNodeId (i : string) : bool :=
  bool_decide (i = "root")
  || match stripPrefix "node-" i with
     | Some numeral => isNumeral numeral
     | None => false
     end.

(** What holds of the instance in every state the components reach: ids are
    unique among the elements, node ids have the shape above, an edge has
    the id derived from its ends, its ends are nodes of the instance, and
    no other edge joins the same two nodes. *)
Definition edgeOk (g : Cy.Core) (d : Edge.data) : bool :=
  bool_decide (Edge.id d = edgeId (Edge.source d) (Edge.target d))
  && Cy.hasNode g (Edge.source d)
  && Cy.hasNode g (Edge.target d)
  && bool_decide (length (Cy.edgesJoining (Edge.source d) (Edge.target d) g) ≤ 1).

Definition wellFormed (g : Cy.Core) : bool :=
  bool_decide (NoDup (Cy.elementId <$> g))
  && forallb isNodeId (Node.id <$> Cy.nodes g)
  && forallb (edgeOk g) (Cy.edges g).

(** A state whose instance exists and is well formed, and whose selected
    node, when there is one, is a node of the instance. *)
Definition stateOk {M : Type} (s : Canvas M) : bool :=
  match cy s with
  | None => false
  | Some g =>
      wellFormed g
      && match selectedNode s with
         | Some d => Cy.hasNode g (Node.id d)
         | None => true
         end
  end.

(** ** Labels and the selection snapshot *)

Global Instance NodeType_eq_dec : EqDecision NodeType.
Proof. solve_decision. Defined.

Global Instance Node_data_eq_dec : EqDecision Node.data.
Proof. solve_decision. Defined.

Global Instance Host_eq_dec : EqDecision Host.t.
Proof. solve_decision. Defined.

(** A label as the components write them: not empty, and with no white
    space at either end. *)
Definition labelOk (l : string) : bool :=
  Js.truthy l && bool_decide (Js.trim l = l).

Definition labelsOk (g : Cy.Core) : bool :=
  forallb labelOk (Node.label <$> Cy.nodes g).

(** The selection is the data that a node of the instance has now. *)
Definition selectionCurrent {M : Type} (s : Canvas M) : bool :=
  match selectedNode s with
  | Some d => bool_decide (d ∈ Cy.nodes (graph s))
  | None => true
  end.

(** ** What holds of a mounted component *)

(** The ids that [addNode] generates. *)
Definition isGeneratedId (i : string) : bool :=
  match stripPrefix "node-" i with
  | Some numeral => isNumeral numeral
  | None => false
  end.

(** Every edge ends in a node that [addNode] generated. *)
Definition edgesToGenerated (g : Cy.Core) : bool :=
  forallb (λ d, isGeneratedId (Edge.target d)) (Cy.edges g).

(** The live instance exists, is well formed, has trimmed labels and only
    edges that [addNode] made. *)
Definition liveOk {M : Type} (s : Canvas M) : bool :=
  match cy s with
  | Some g => wellFormed g && labelsOk g && edgesToGenerated g
  | None => false
  end.

(** Under [Index.tsx]: the calls are recorded, the page holds a data
    object of an instance that is gone, and it names the node that the
    canvas has selected, or none when the canvas has none. *)
Definition pageOk {M : Type} (c : Mounted M) : Prop :=
  parent c = Host.IndexPage →
  is_Some (onNodeSelect (latest c))
  ∧ (∀ i d, page c = Some (i, d) → i < built c)
  ∧ Node.id <$> (snd <$> page c) = Node.id <$> selectedNode (latest c).

(** The two-click variant.  When a first node is held the subscribed
    handlers see the connection state of the latest render.  Under
    [Index.tsx] the instance has no edge while a connection is in progress
    and the page holds a node.  Under a parent that passes no function, or
    always the same one, the effect has run once: the handlers see the
    connection state of the first render, no first node is ever held, and
    the selection is current. *)
Definition twoClickOk (c : Mounted TwoClick.Mode) : Prop :=
  liveOk (latest c) = true
  ∧ pageOk c
  ∧ (TwoClick.firstNode (mode (latest c)) ≠ None →
     mode (subscribed c) = mode (latest c))
  ∧ match parent c with
    | Host.IndexPage =>
        TwoClick.isConnecting (mode (latest c)) = true → page c ≠ None →
        Cy.edges (graph (latest c)) = []
    | _ =>
        mode (subscribed c) = TwoClick.mkMode false None
        ∧ TwoClick.firstNode (mode (latest c)) = None
        ∧ built c = 1
        ∧ selectionCurrent (latest c) = true
    end.

(** The drag variant.  [isDragging] and [dragStart] are dependencies of
    the effect, so the subscribed handlers see their latest values; the
    drag state is all clear or all set; and while a drag is in progress
    the instance, created anew by the press, has no edge. *)
Definition dragOk (c : Mounted DragConnect.Mode) : Prop :=
  liveOk (latest c) = true
  ∧ pageOk c
  ∧ DragConnect.isDragging (mode (subscribed c))
    = DragConnect.isDragging (mode (latest c))
  ∧ DragConnect.dragStart (mode (subscribed c))
    = DragConnect.dragStart (mode (latest c))
  ∧ (mode (latest c) = DragConnect.mkMode false None None
     ∨ ∃ start position,
         mode (latest c) = DragConnect.mkMode true (Some start) (Some position))
  ∧ (DragConnect.isDragging (mode (latest c)) = true →
     Cy.edges (graph (latest c)) = []).

(** Between [s] and [s'] no call of [onNodeSelect] was made and the
    selection has kept its node. *)
Definition quiet {M : Type} (s s' : Canvas M) : Prop :=
  onNodeSelect s' = onNodeSelect s
  ∧ Node.id <$> selectedNode s' = Node.id <$> selectedNode s.

(** Between [s] and [s'] [onNodeSelect] was called once, with [v], and [v]
    is the selection. *)
Definition reported {M : Type} (v : option Node.data) (s s' : Canvas M) : Prop :=
  onNodeSelect s' = (λ made, made ++ [v]) <$> onNodeSelect s
  ∧ selectedNode s' = v.

(** What an event of the two-click variant does to the subscribed render
    [r] and the state [s]: the connection state that the handlers see is
    kept; the instance stays in order and the selection current; a first
    node is set only by a handler that sees a connection in progress with
    no first node, and then reported; and either no call is made, and no
    edge appears while a connection is in progress, or one call is made,
    with the new selection. *)
Definition twoClickStep (r s r' s' : TwoClick.State) : Prop :=
  mode r' = mode r
  ∧ liveOk s' = true
  ∧ (selectionCurrent s = true → selectionCurrent s' = true)
  ∧ (mode s' = mode s ∨ TwoClick.firstNode (mode s') = None
     ∨ (TwoClick.isConnecting (mode r) = true
        ∧ TwoClick.firstNode (mode r) = None
        ∧ ∃ d, reported (Some d) s s'))
  ∧ ((quiet s s'
      ∧ (TwoClick.isConnecting (mode s') = true →
         TwoClick.isConnecting (mode s) = true
         ∧ Cy.edges (graph s') = Cy.edges (graph s)))
     ∨ ∃ v, reported v s s').

(** The drag state is all clear or all set. *)
Definition dragShape (m : DragConnect.Mode) : Prop :=
  m = DragConnect.mkMode false None None
  ∨ ∃ start position, m = DragConnect.mkMode true (Some start) (Some position).

(** What an event of the drag variant does to the subscribed render [r]
    and the state [s]: the drag state that the handlers see is kept; the
    instance stays in order; the drag state stays all clear or all set,
    and is what it was unless a dependency of the effect has changed; no
    edge appears during a drag; and at most one call is made, with the new
    selection. *)
Definition dragStep (ev : DragConnect.Event) (r s r' s' : DragConnect.State) : Prop :=
  (DragConnect.isDragging (mode r') = DragConnect.isDragging (mode r)
   ∧ DragConnect.dragStart (mode r') = DragConnect.dragStart (mode r))
  ∧ liveOk s' = true
  ∧ (dragShape (mode s) →
     DragConnect.isDragging (mode r) = DragConnect.isDragging (mode s) →
     DragConnect.dragStart (mode r) = DragConnect.dragStart (mode s) →
     dragShape (mode s')
     ∧ (DragConnect.dependencyChanged ev s s' = false →
        DragConnect.isDragging (mode s') = DragConnect.isDragging (mode s)
        ∧ DragConnect.dragStart (mode s') = DragConnect.dragStart (mode s)))
  ∧ (DragConnect.isDragging (mode s) = true →
     DragConnect.isDragging (mode s') = true →
     Cy.edges (graph s') = Cy.edges (graph s))
  ∧ (quiet s s' ∨ ∃ v, reported v s s').

(** * The chat panel

    The component [ChatInterface]: the conversation, the documents put in
    its context and the simulated reply.  The same conventions as for the
    canvas; in addition the callback that [handleSendMessage] hands to
    [setTimeout] is kept, with the values it closes over, in the field
    [timers] until the timeout fires.  The state setters that the source
    calls with an updater function ([prev => ...]) are applied here to the
    current value, which is what React passes to the updater. *)

Module Document.
Record t := mk {
  id : string;
  name : string;
  type : string;
  size : Z;
  content : string;
  uploadDate : Z;
  folder : string
}.
End Document.

Module Message.
Inductive Sender := user | ai.
Record t := mk {
  id : string;
  type : Sender;
  content : string;
  timestamp : Z
}.
End Message.

Module Chat.

(** The double quote of the template literals, U+0022. *)
Definition quote : string := String "034"%char EmptyString.

(** [Array.prototype.join] on an array of strings. *)
Fixpoint join (sep : string) (l : list string) : string :=
  match l with
  | [] => EmptyString
  | x :: l' =>
      match l' with
      | [] => x
      | _ :: _ => x +:+ sep +:+ join sep l'
      end
  end.

(** [Math.floor(Math.random() * 5)], the index into an array of five
    templates. *)
Inductive Pick := Pick0 | Pick1 | Pick2 | Pick3 | Pick4.

Definition index (p : Pick) : nat :=
  match p with
  | Pick0 => 0 | Pick1 => 1 | Pick2 => 2 | Pick3 => 3 | Pick4 => 4
  end.

Definition noDocuments : string :=
  "I can only respond based on uploaded documents, but no documents are currently selected. Please upload and select documents to continue, or switch to parametric knowledge mode.".

Definition documentResponses (userInput : string) : list string :=
  [ "Based on the uploaded documents regarding " +:+ quote +:+ userInput +:+ quote
      +:+ ", I found relevant information that suggests organizing this into: key themes from the documents, supporting evidence, and practical applications.";
    "According to the documents you've provided about " +:+ quote +:+ userInput +:+ quote
      +:+ ", here are the main points to consider for your mind map: document insights, cross-references, and implementation notes.";
    "From the uploaded materials on " +:+ quote +:+ userInput +:+ quote
      +:+ ", I can help you structure this by: document-based categories, source citations, and evidence-backed connections.";
    "The documents contain valuable information about " +:+ quote +:+ userInput +:+ quote
      +:+ ". Consider mapping: documented facts, referenced sources, and verified relationships.";
    "Based solely on your uploaded documents regarding " +:+ quote +:+ userInput +:+ quote
      +:+ ", here's what the materials suggest: primary concepts, supporting details, and documented outcomes." ].

Definition responses (userInput : string) : list string :=
  [ "That's an interesting idea! Based on " +:+ quote +:+ userInput +:+ quote
      +:+ ", I suggest creating sub-nodes for: key concepts, related topics, and actionable items.";
    "Great question! For mind mapping " +:+ quote +:+ userInput +:+ quote
      +:+ ", consider organizing it into main branches: causes, effects, solutions, and examples.";
    "I can help you expand on " +:+ quote +:+ userInput +:+ quote
      +:+ ". Try adding child nodes for different perspectives, pros/cons, or step-by-step processes.";
    "Excellent insight about " +:+ quote +:+ userInput +:+ quote
      +:+ "! This could connect well with other nodes in your map. Consider color-coding related concepts.";
    "Building on " +:+ quote +:+ userInput +:+ quote
      +:+ ", you might want to explore: background context, current status, future implications, and key stakeholders." ].

(** The array [contextInfo] that [generateAIResponse] fills first. *)
Definition contextInfo (node : option Node.data)
    (documents : option (list Document.t)) : list string :=
  match documents with
  | Some ds =>
      if bool_decide (0 < length ds)
      then ["I have access to " +:+ Js.toString (Z.of_nat (length ds))
              +:+ " document(s): " +:+ join ", " (Document.name <$> ds)]
      else []
  | None => []
  end ++
  match node with
  | Some n => ["Current node: " +:+ quote +:+ Node.label n +:+ quote]
  | None => []
  end.

(** The last step of both modes: the context, when there is one, goes in
    front of the chosen template. *)
Definition withContext (info : list string) (response : string) : string :=
  if bool_decide (0 < length info)
  then join ". " info +:+ ". " +:+ response
  else response.

Definition generateAIResponse (pick : Pick) (userInput : string)
    (node : option Node.data) (documents : option (list Document.t))
    (documentsOnly : bool) : string :=
  let info := contextInfo node documents in
  if documentsOnly then
    if match documents with
       | Some ds => bool_decide (length ds = 0)
       | None => true
       end
    then noDocuments
    else withContext info (nth (index pick) (documentResponses userInput) EmptyString)
  else withContext info (nth (index pick) (responses userInput) EmptyString).

(** What the callback given to [setTimeout] closes over: the state
    variables and the prop of the render in which the message was sent. *)
Record Timer := mkTimer {
  userInput : string;
  node : option Node.data;
  documents : list Document.t;
  documentsOnly : bool
}.

(** The prop [selectedNode] and the state variables of the component;
    [timers] are the timeouts set and not yet fired.  The prop
    [onNodeUpdate] is never used by the component. *)
Record State := mkState {
  selectedNode : option Node.data;
  messages : list Message.t;
  inputMessage : string;
  selectedLLM : string;
  isLoading : bool;
  showDocumentUpload : bool;
  showDocumentViewer : bool;
  selectedDocuments : list Document.t;
  useDocumentsOnly : bool;
  timers : list Timer
}.

Definition setSelectedNode (v : option Node.data) (s : State) : State :=
  mkState v (messages s) (inputMessage s) (selectedLLM s) (isLoading s)
    (showDocumentUpload s) (showDocumentViewer s) (selectedDocuments s)
    (useDocumentsOnly s) (timers s).

Definition setMessages (f : list Message.t → list Message.t) (s : State) : State :=
  mkState (selectedNode s) (f (messages s)) (inputMessage s) (selectedLLM s)
    (isLoading s) (showDocumentUpload s) (showDocumentViewer s)
    (selectedDocuments s) (useDocumentsOnly s) (timers s).

Definition setInputMessage (v : string) (s : State) : State :=
  mkState (selectedNode s) (messages s) v (selectedLLM s) (isLoading s)
    (showDocumentUpload s) (showDocumentViewer s) (selectedDocuments s)
    (useDocumentsOnly s) (timers s).

Definition setSelectedLLM (v : string) (s : State) : State :=
  mkState (selectedNode s) (messages s) (inputMessage s) v (isLoading s)
    (showDocumentUpload s) (showDocumentViewer s) (selectedDocuments s)
    (useDocumentsOnly s) (timers s).

Definition setIsLoading (v : bool) (s : State) : State :=
  mkState (selectedNode s) (messages s) (inputMessage s) (selectedLLM s) v
    (showDocumentUpload s) (showDocumentViewer s) (selectedDocuments s)
    (useDocumentsOnly s) (timers s).

Definition setShowDocumentUpload (v : bool) (s : State) : State :=
  mkState (selectedNode s) (messages s) (inputMessage s) (selectedLLM s)
    (isLoading s) v (showDocumentViewer s) (selectedDocuments s)
    (useDocumentsOnly s) (timers s).

Definition setShowDocumentViewer (v : bool) (s : State) : State :=
  mkState (selectedNode s) (messages s) (inputMessage s) (selectedLLM s)
    (isLoading s) (showDocumentUpload s) v (selectedDocuments s)
    (useDocumentsOnly s) (timers s).

Definition setSelectedDocuments (f : list Document.t → list Document.t)
    (s : State) : State :=
  mkState (selectedNode s) (messages s) (inputMessage s) (selectedLLM s)
    (isLoading s) (showDocumentUpload s) (showDocumentViewer s)
    (f (selectedDocuments s)) (useDocumentsOnly s) (timers s).

Definition setUseDocumentsOnly (v : bool) (s : State) : State :=
  mkState (selectedNode s) (messages s) (inputMessage s) (selectedLLM s)
    (isLoading s) (showDocumentUpload s) (showDocumentViewer s)
    (selectedDocuments s) v (timers s).

Definition setTimers (f : list Timer → list Timer) (s : State) : State :=
  mkState (selectedNode s) (messages s) (inputMessage s) (selectedLLM s)
    (isLoading s) (showDocumentUpload s) (showDocumentViewer s)
    (selectedDocuments s) (useDocumentsOnly s) (f (timers s)).

(** [setTimeout(callback, delay)]: the callback waits with the others. *)
Definition setTimeout (t : Timer) (s : State) : State :=
  setTimers (λ pending, pending ++ [t]) s.

(** The first render: the greeting, stamped with the time of the mount. *)
Definition greeting : string :=
  "Hello! I'm your AI assistant for mind mapping. I can help you brainstorm ideas, organize thoughts, and enhance your visual thinking process. You can also upload documents for me to reference. What would you like to explore today?".

Definition initial (stamp : Z) : State :=
  mkState None [Message.mk "1" Message.ai greeting stamp] "" "gpt-4" false
    false false [] false [].

(** [now] is the reading of [Date.now()], [stamp] that of [new Date()]. *)
Definition handleSendMessage (now stamp : Z) (s : State) : State :=
  if negb (Js.truthy (Js.trim (inputMessage s))) then s
  else
    let userMessage :=
      Message.mk (Js.toString now) Message.user (inputMessage s) stamp in
    s |> setMessages (λ prev, prev ++ [userMessage])
      |> setInputMessage ""
      |> setIsLoading true
      |> setTimeout (mkTimer (inputMessage s) (selectedNode s)
                       (selectedDocuments s) (useDocumentsOnly s)).

(** The body of the callback of [handleSendMessage], run when its timeout
    fires. *)
Definition respond (t : Timer) (pick : Pick) (now stamp : Z) (s : State) : State :=
  let aiResponse :=
    Message.mk (Js.toString (now + 1)) Message.ai
      (generateAIResponse pick (userInput t) (node t) (Some (documents t))
         (documentsOnly t))
      stamp in
  s |> setMessages (λ prev, prev ++ [aiResponse])
    |> setIsLoading false.

(** The [i]-th pending timeout fires: it leaves the pending ones and its
    callback runs.  The delays are random, so any pending one may be the
    first to fire. *)
Definition timeout (i : nat) (pick : Pick) (now stamp : Z) (s : State) : State :=
  match timers s !! i with
  | Some t => s |> setTimers (delete i) |> respond t pick now stamp
  | None => s
  end.

Definition handleDocumentUploaded (document : Document.t) (s : State) : State :=
  setSelectedDocuments (λ prev, prev ++ [document]) s.

Definition handleDocumentSelect (document : Document.t) (s : State) : State :=
  match List.find (λ d, bool_decide (Document.id d = Document.id document))
          (selectedDocuments s) with
  | None => setSelectedDocuments (λ prev, prev ++ [document]) s
  | Some _ => s
  end.

Definition removeDocument (documentId : string) (s : State) : State :=
  setSelectedDocuments (filter (λ d, Document.id d ≠ documentId)) s.

(** What the user, the two dialogs, the host page and the clock can do to
    the panel.  The text box is disabled while [isLoading]; so is the send
    button, which also needs a text that is not blank.  A badge exists for
    each selected document and the viewer only while it is shown.  The
    upload dialog reports its documents from an asynchronous loop, which
    may still run after the dialog is closed. *)
Inductive Event :=
  | Typing (v : string)
  | PressEnter (now stamp : Z)
  | ClickSend (now stamp : Z)
  | TimeoutFires (i : nat) (pick : Pick) (now stamp : Z)
  | ChooseLLM (v : string)
  | SwitchDocumentsOnly (v : bool)
  | ClickDocuments
  | ClickUpload
  | CloseUpload
  | CloseViewer
  | ViewerUploadClick
  | DocumentUploaded (d : Document.t)
  | ViewerSelects (d : Document.t)
  | ClickBadge (i : nat)
  | HostSelectsNode (n : option Node.data).

Definition dispatch (s : State) (e : Event) : State :=
  match e with
  | Typing v => if isLoading s then s else setInputMessage v s
  | PressEnter now stamp =>
      if isLoading s then s else handleSendMessage now stamp s
  | ClickSend now stamp =>
      if negb (Js.truthy (Js.trim (inputMessage s))) || isLoading s then s
      else handleSendMessage now stamp s
  | TimeoutFires i pick now stamp => timeout i pick now stamp s
  | ChooseLLM v => setSelectedLLM v s
  | SwitchDocumentsOnly v => setUseDocumentsOnly v s
  | ClickDocuments => setShowDocumentViewer true s
  | ClickUpload => setShowDocumentUpload true s
  | CloseUpload =>
      if showDocumentUpload s then setShowDocumentUpload false s else s
  | CloseViewer =>
      if showDocumentViewer s then setShowDocumentViewer false s else s
  | ViewerUploadClick =>
      if showDocumentViewer s
      then s |> setShowDocumentViewer false |> setShowDocumentUpload true
      else s
  | DocumentUploaded d => handleDocumentUploaded d s
  | ViewerSelects d =>
      if showDocumentViewer s then handleDocumentSelect d s else s
  | ClickBadge i =>
      match selectedDocuments s !! i with
      | Some d => removeDocument (Document.id d) s
      | None => s
      end
  | HostSelectsNode n => setSelectedNode n s
  end.

Definition run (es : list Event) (s : State) : State := foldl dispatch s es.

Definition isTimeoutFires (e : Event) : bool :=
  match e with TimeoutFires _ _ _ _ => true | _ => false end.

Definition other (t : Message.Sender) : Message.Sender :=
  match t with Message.user => Message.ai | Message.ai => Message.user end.

(** The messages are by [next], then by the other party, and so on. *)
Fixpoint alternates (next : Message.Sender) (l : list Message.t) : bool :=
  match l with
  | [] => true
  | m :: l' =>
      match Message.type m, next with
      | Message.user, Message.user | Message.ai, Message.ai =>
          alternates (other next) l'
      | _, _ => false
      end
  end.

Global Instance Sender_eq_dec : EqDecision Message.Sender.
Proof. solve_decision. Defined.

(** The conversation proceeds by turns: it opens with the assistant; while
    no reply is awaited it ends with the assistant and no timeout is
    pending; while one is awaited, exactly one timeout is pending, it
    holds the text of the last message, which is the user's, and the text
    box is empty. *)
Definition turnsOk (s : State) : bool :=
  alternates Message.ai (messages s) &&
  match timers s with
  | [] =>
      negb (isLoading s) &&
      bool_decide (Message.type <$> last (messages s) = Some Message.ai)
  | [t] =>
      isLoading s &&
      bool_decide (Message.type <$> last (messages s) = Some Message.user) &&
      bool_decide (Message.content <$> last (messages s) = Some (userInput t)) &&
      bool_decide (inputMessage s = "")
  | _ => false
  end.

(** No message of the user is blank. *)
Definition userMessagesOk (l : list Message.t) : bool :=
  forallb (λ m, match Message.type m with
                | Message.user => Js.truthy (Js.trim (Message.content m))
                | Message.ai => true
                end) l.

End Chat.

(** ** The parent and the canvas *)

(** The node that [Index.tsx] shows as selected. *)
Definition pageSelectedNode {M : Type} (c : Mounted M) : option Node.data :=
  snd <$> page c.

(** * Properties *)

(** ** Setters and observations *)

Section SetterFacts.
Context {M : Type}.
Implicit Types s : Canvas M.

Lemma canvas_eta s :
  mkCanvas (cy s) (selectedNode s) (isEditing s) (editText s)
           (onNodeSelect s) (mode s) = s.
Proof. by destruct s. Qed.

Lemma setCy_same s : setCy (cy s) s = s.
Proof. apply canvas_eta. Qed.

Lemma graph_setCy g s : graph (setCy (Some g) s) = g.
Proof. done. Qed.

Lemma graph_Some s g : cy s = Some g → graph s = g.
Proof. unfold graph. by intros ->. Qed.
End SetterFacts.

Lemma foldl_cons {A B : Type} (f : A → B → A) (a : A) (x : B) (l : list B) :
  foldl f a (x :: l) = foldl f (f a x) l.
Proof. reflexivity. Qed.

(** ** Identifiers *)

Lemma string_app_nil s : "" +:+ s = s.
Proof. reflexivity. Qed.

Lemma string_app_cons c s t : String c s +:+ t = String c (s +:+ t).
Proof. reflexivity. Qed.

(** [String.append] does not unfold under [simpl]; this pushes it inwards. *)
Ltac push_app :=
  repeat (rewrite string_app_cons in * || rewrite string_app_nil in * ).

Lemma stripPrefix_Some p s r : stripPrefix p s = Some r ↔ s = p +:+ r.
Proof.
  revert s. induction p as [|a p IH]; intros s; simpl; push_app.
  - split; [by intros [= ->]|by intros ->].
  - destruct s as [|b s]; [done|]. case_bool_decide as Hab.
    + subst b. rewrite IH. split; [by intros ->|by intros [= ->]].
    + split; [done|]. intros [= -> _]. done.
Qed.

Lemma isNodeId_inv i :
  isNodeId i = true →
  i = "root" ∨ ∃ numeral, i = "node-" +:+ numeral ∧ isNumeral numeral = true.
Proof.
  unfold isNodeId. intros [Hroot|Hnode]%orb_true_iff.
  - left. by apply bool_decide_eq_true in Hroot.
  - right. destruct (stripPrefix "node-" i) as [numeral|] eqn:Hstrip; [|done].
    exists numeral. by apply stripPrefix_Some in Hstrip.
Qed.

Lemma isDigit_not_dash c : isDigit c = true → c ≠ "-"%char.
Proof. by intros H ->. Qed.

Lemma allDigits_split d1 d2 t b :
  allDigits d1 = true → allDigits d2 = true →
  d1 +:+ "-" +:+ t = d2 +:+ "-" +:+ b → d1 = d2 ∧ t = b.
Proof.
  revert d2. induction d1 as [|c1 d1 IH]; intros [|c2 d2]; simpl; push_app.
  - by intros _ _ [= ->].
  - intros _ [Hc _]%andb_true_iff [= <- _]. by apply isDigit_not_dash in Hc.
  - intros [Hc _]%andb_true_iff _ [= -> _]. by apply isDigit_not_dash in Hc.
  - intros [_ H1]%andb_true_iff [_ H2]%andb_true_iff [= -> Heq].
    destruct (IH d2 H1 H2 Heq) as [-> ->]. done.
Qed.

Lemma isNumeral_inv n :
  isNumeral n = true →
  (∃ d, n = "-" +:+ d ∧ allDigits d = true)
  ∨ (∃ c d, n = String c d ∧ isDigit c = true ∧ allDigits d = true).
Proof.
  destruct n as [|c d]; simpl; [done|]. case_bool_decide as Hc.
  - subst c. intros [_ Hd]%andb_true_iff. left. by exists d.
  - intros [Hc' Hd]%andb_true_iff. right. by exists c, d.
Qed.

Lemma isNumeral_split n1 n2 t b :
  isNumeral n1 = true → isNumeral n2 = true →
  n1 +:+ "-" +:+ t = n2 +:+ "-" +:+ b → n1 = n2 ∧ t = b.
Proof.
  intros [(d1 & -> & H1)|(c1 & d1 & -> & Hc1 & H1)]%isNumeral_inv
         [(d2 & -> & H2)|(c2 & d2 & -> & Hc2 & H2)]%isNumeral_inv; push_app.
  - intros [= Heq]. by destruct (allDigits_split _ _ _ _ H1 H2 Heq) as [-> ->].
  - intros [= <- _]. by apply isDigit_not_dash in Hc2.
  - intros [= -> _]. by apply isDigit_not_dash in Hc1.
  - intros [= -> Heq]. by destruct (allDigits_split _ _ _ _ H1 H2 Heq) as [-> ->].
Qed.

(** The id of an edge determines its two ends, when the source has the
    shape of a node id. *)
Lemma edgeId_inj s t a b :
  isNodeId s = true → isNodeId a = true →
  edgeId s t = edgeId a b → s = a ∧ t = b.
Proof.
  unfold edgeId.
  intros [->|(ns & -> & Hns)]%isNodeId_inv [->|(na & -> & Hna)]%isNodeId_inv;
    push_app; intros [= Heq]; try done.
  by destruct (isNumeral_split _ _ _ _ Hns Hna Heq) as [-> ->].
Qed.

Lemma isNodeId_edgeId a b : isNodeId (edgeId a b) = false.
Proof. done. Qed.

Lemma pretty_N_char_isDigit x : isDigit (pretty_N_char x) = true.
Proof. unfold pretty_N_char. by repeat case_match. Qed.

Lemma pretty_N_go_allDigits x s :
  allDigits s = true → allDigits (pretty_N_go x s) = true.
Proof.
  revert s. induction (N.lt_wf_0 x) as [x _ IH]; intros s Hs.
  destruct (decide (x = 0%N)) as [->|Hx]; [by rewrite pretty_N_go_0|].
  rewrite pretty_N_go_step by lia. apply IH; [apply N.div_lt; lia|].
  simpl. by rewrite pretty_N_char_isDigit.
Qed.

Lemma pretty_N_go_nonempty x s : s ≠ "" → pretty_N_go x s ≠ "".
Proof.
  revert s. induction (N.lt_wf_0 x) as [x _ IH]; intros s Hs.
  destruct (decide (x = 0%N)) as [->|Hx]; [by rewrite pretty_N_go_0|].
  rewrite pretty_N_go_step by lia. apply IH; [apply N.div_lt; lia|done].
Qed.

Lemma pretty_positive_digits (p : positive) :
  pretty p ≠ "" ∧ allDigits (pretty p) = true.
Proof.
  unfold pretty, pretty_positive, pretty, pretty_N.
  case_decide; [done|]. split.
  - rewrite pretty_N_go_step by lia. by apply pretty_N_go_nonempty.
  - by apply pretty_N_go_allDigits.
Qed.

Lemma allDigits_isNumeral s : s ≠ "" → allDigits s = true → isNumeral s = true.
Proof.
  destruct s as [|c s]; [done|]. intros _ Hs. simpl.
  case_bool_decide as Hc; [|done].
  subst c. done.
Qed.

Lemma toString_isNumeral (n : Z) : isNumeral (Js.toString n) = true.
Proof.
  unfold Js.toString, pretty, pretty_Z. destruct n as [|p|p].
  - done.
  - destruct (pretty_positive_digits p). by apply allDigits_isNumeral.
  - destruct (pretty_positive_digits p) as [Hne Hd]. push_app. simpl.
    rewrite Hd. by destruct (pretty p).
Qed.

(** Every id [addNode] generates has the shape of a node id, and two clock
    readings give the same id only when they are equal. *)
Lemma isNodeId_nodeIdAt now : isNodeId (nodeIdAt now) = true.
Proof.
  unfold isNodeId, nodeIdAt. push_app. simpl.
  by rewrite toString_isNumeral.
Qed.

Lemma nodeIdAt_inj now1 now2 : nodeIdAt now1 = nodeIdAt now2 → now1 = now2.
Proof.
  unfold nodeIdAt, Js.toString. push_app. intros [= H]. by apply (inj pretty).
Qed.

(** ** The element store *)

Section StoreFacts.
Implicit Types (g : Cy.Core) (e : Element) (i a b : string).

Lemma hasElementWithId_true g i :
  Cy.hasElementWithId g i = true ↔ i ∈ Cy.elementId <$> g.
Proof. apply bool_decide_eq_true. Qed.

Lemma hasElementWithId_false g i :
  Cy.hasElementWithId g i = false ↔ i ∉ Cy.elementId <$> g.
Proof. apply bool_decide_eq_false. Qed.

Lemma hasNode_true g i : Cy.hasNode g i = true ↔ i ∈ Node.id <$> Cy.nodes g.
Proof. apply bool_decide_eq_true. Qed.

Lemma hasNode_false g i : Cy.hasNode g i = false ↔ i ∉ Node.id <$> Cy.nodes g.
Proof. apply bool_decide_eq_false. Qed.

Lemma elem_of_nodes g d : d ∈ Cy.nodes g ↔ ∃ p, NodeEl d p ∈ g.
Proof.
  unfold Cy.nodes. rewrite list_elem_of_omap. split.
  - intros ([d' p|d'] & Hin & Heq); [|done]. injection Heq as ->. by exists p.
  - intros [p Hin]. by exists (NodeEl d p).
Qed.

Lemma elem_of_edges g d : d ∈ Cy.edges g ↔ EdgeEl d ∈ g.
Proof.
  unfold Cy.edges. rewrite list_elem_of_omap. split.
  - intros ([d' p|d'] & Hin & Heq); [done|]. by injection Heq as ->.
  - intros Hin. by exists (EdgeEl d).
Qed.

Lemma nodes_snoc_node g d p : Cy.nodes (g ++ [NodeEl d p]) = Cy.nodes g ++ [d].
Proof. unfold Cy.nodes. by rewrite omap_app. Qed.

Lemma nodes_snoc_edge g d : Cy.nodes (g ++ [EdgeEl d]) = Cy.nodes g.
Proof. unfold Cy.nodes. rewrite omap_app. simpl. by rewrite app_nil_r. Qed.

Lemma edges_snoc_node g d p : Cy.edges (g ++ [NodeEl d p]) = Cy.edges g.
Proof. unfold Cy.edges. rewrite omap_app. simpl. by rewrite app_nil_r. Qed.

Lemma edges_snoc_edge g d : Cy.edges (g ++ [EdgeEl d]) = Cy.edges g ++ [d].
Proof. unfold Cy.edges. by rewrite omap_app. Qed.

Lemma node_id_elementId g i :
  i ∈ Node.id <$> Cy.nodes g → i ∈ Cy.elementId <$> g.
Proof.
  intros (d & -> & [p Hin]%elem_of_nodes)%list_elem_of_fmap.
  apply list_elem_of_fmap. by exists (NodeEl d p).
Qed.

Lemma hasNode_mono g e i : Cy.hasNode g i = true → Cy.hasNode (g ++ [e]) i = true.
Proof.
  rewrite !hasNode_true. intros Hin. destruct e as [d p|d].
  - rewrite nodes_snoc_node, fmap_app. apply elem_of_app. by left.
  - by rewrite nodes_snoc_edge.
Qed.

(** [cy.add] either leaves the instance as it is or appends the element. *)
Lemma add_cases e g : Cy.add e g = g ∨ Cy.add e g = g ++ [e].
Proof.
  unfold Cy.add. destruct (Cy.hasElementWithId g _); [by left|].
  destruct e as [d p|d]; [by right|].
  destruct (_ && _); [by right|by left].
Qed.

Lemma add_node_fresh d p g :
  Node.id d ∉ Cy.elementId <$> g → Cy.add (NodeEl d p) g = g ++ [NodeEl d p].
Proof.
  intros Hfresh%hasElementWithId_false. unfold Cy.add. simpl. by rewrite Hfresh.
Qed.

Lemma add_used e g : Cy.elementId e ∈ Cy.elementId <$> g → Cy.add e g = g.
Proof. intros Hin%hasElementWithId_true. unfold Cy.add. by rewrite Hin. Qed.

Lemma add_edge_fresh d g :
  Edge.id d ∉ Cy.elementId <$> g →
  Cy.hasNode g (Edge.source d) = true → Cy.hasNode g (Edge.target d) = true →
  Cy.add (EdgeEl d) g = g ++ [EdgeEl d].
Proof.
  intros Hfresh%hasElementWithId_false Hs Ht. unfold Cy.add. simpl.
  by rewrite Hfresh, Hs, Ht.
Qed.

(** What an accepted element had to satisfy. *)
Lemma add_grows e g :
  Cy.add e g = g ++ [e] →
  (Cy.elementId e ∉ Cy.elementId <$> g)
  ∧ match e with
    | NodeEl _ _ => True
    | EdgeEl d =>
        Cy.hasNode g (Edge.source d) = true ∧ Cy.hasNode g (Edge.target d) = true
    end.
Proof.
  assert (g ≠ g ++ [e]) as Hne.
  { intros Heq%(f_equal length). rewrite length_app in Heq. simpl in Heq. lia. }
  unfold Cy.add. destruct (Cy.hasElementWithId g _) eqn:Hid; [done|].
  apply hasElementWithId_false in Hid. destruct e as [d p|d]; [done|].
  destruct (Cy.hasNode g (Edge.source d)), (Cy.hasNode g (Edge.target d)); done.
Qed.

Lemma add_idem e g : Cy.add e (Cy.add e g) = Cy.add e g.
Proof.
  destruct (add_cases e g) as [Heq|Heq]; rewrite Heq; [done|].
  apply add_used. rewrite fmap_app. apply elem_of_app. right. by left.
Qed.

Lemma nodes_add_edge d g : Cy.nodes (Cy.add (EdgeEl d) g) = Cy.nodes g.
Proof.
  destruct (add_cases (EdgeEl d) g) as [->| ->]; [done|apply nodes_snoc_edge].
Qed.

Lemma elementId_add_mono e g i :
  i ∈ Cy.elementId <$> g → i ∈ Cy.elementId <$> Cy.add e g.
Proof.
  destruct (add_cases e g) as [->| ->]; [done|].
  rewrite fmap_app, elem_of_app. by left.
Qed.

Lemma elementId_add_node d p g :
  Node.id d ∈ Cy.elementId <$> Cy.add (NodeEl d p) g.
Proof.
  destruct (decide (Node.id d ∈ Cy.elementId <$> g)) as [Hin|Hfresh].
  - by rewrite add_used.
  - rewrite add_node_fresh by done. rewrite fmap_app, elem_of_app. right. by left.
Qed.

Lemma edgesJoining_snoc_edge a b d g :
  Cy.edgesJoining a b (g ++ [EdgeEl d])
  = Cy.edgesJoining a b g ++ (if Cy.joins a b d then [d] else []).
Proof.
  unfold Cy.edgesJoining. rewrite edges_snoc_edge, filter_app. f_equal.
  rewrite filter_cons, filter_nil. by destruct (Cy.joins a b d).
Qed.

Lemma edgesJoining_snoc_node a b d p g :
  Cy.edgesJoining a b (g ++ [NodeEl d p]) = Cy.edgesJoining a b g.
Proof. unfold Cy.edgesJoining. by rewrite edges_snoc_node. Qed.

Lemma joins_sym a b d : Cy.joins a b d = Cy.joins b a d.
Proof. unfold Cy.joins. by rewrite orb_comm. Qed.

Lemma edgesJoining_sym a b g : Cy.edgesJoining a b g = Cy.edgesJoining b a g.
Proof.
  unfold Cy.edgesJoining. apply list_filter_iff. intros d. by rewrite joins_sym.
Qed.

Lemma joins_true a b d :
  Cy.joins a b d = true ↔
  (Edge.source d = a ∧ Edge.target d = b) ∨ (Edge.source d = b ∧ Edge.target d = a).
Proof.
  unfold Cy.joins.
  rewrite orb_true_iff, !andb_true_iff, !bool_decide_eq_true. done.
Qed.

Lemma joins_ends a b d g :
  Cy.joins a b d = true →
  Cy.edgesJoining a b g = Cy.edgesJoining (Edge.source d) (Edge.target d) g.
Proof.
  intros [[<- <-]|[<- <-]]%joins_true; [done|apply edgesJoining_sym].
Qed.

End StoreFacts.

Lemma NoDup_fmap_eq {A B : Type} (f : A → B) (l : list A) (x y : A) :
  NoDup (f <$> l) → x ∈ l → y ∈ l → f x = f y → x = y.
Proof.
  induction l as [|a l IH]; [by intros _ ?%elem_of_nil|].
  rewrite fmap_cons, NoDup_cons. intros [Ha Hl].
  intros [->|Hx]%elem_of_cons [->|Hy]%elem_of_cons Hf; [done| | |by apply IH].
  - exfalso. apply Ha. rewrite Hf. by apply list_elem_of_fmap_2.
  - exfalso. apply Ha. rewrite <-Hf. by apply list_elem_of_fmap_2.
Qed.

(** ** Well-formed graphs *)

Section WellFormedFacts.
Implicit Types (g : Cy.Core) (e : Element) (i a b : string).

Lemma edgeOk_true g d :
  edgeOk g d = true ↔
  Edge.id d = edgeId (Edge.source d) (Edge.target d)
  ∧ Cy.hasNode g (Edge.source d) = true
  ∧ Cy.hasNode g (Edge.target d) = true
  ∧ length (Cy.edgesJoining (Edge.source d) (Edge.target d) g) ≤ 1.
Proof.
  unfold edgeOk. rewrite !andb_true_iff, !bool_decide_eq_true. tauto.
Qed.

Lemma wellFormed_true g :
  wellFormed g = true ↔
  NoDup (Cy.elementId <$> g)
  ∧ (∀ i, i ∈ Node.id <$> Cy.nodes g → isNodeId i = true)
  ∧ (∀ d, d ∈ Cy.edges g → edgeOk g d = true).
Proof.
  unfold wellFormed.
  rewrite !andb_true_iff, bool_decide_eq_true, !forallb_forall.
  setoid_rewrite <-list_elem_of_In. tauto.
Qed.

Lemma wellFormed_initial : wellFormed initialElements = true.
Proof. reflexivity. Qed.

(** In a well-formed graph at most one edge joins two given nodes, in
    whichever direction. *)
Lemma wellFormed_simple g a b :
  wellFormed g = true → length (Cy.edgesJoining a b g) ≤ 1.
Proof.
  intros (_ & _ & Hedges)%wellFormed_true.
  destruct (Cy.edgesJoining a b g) as [|d l] eqn:Hab; [simpl; lia|].
  assert (d ∈ Cy.edgesJoining a b g) as Hd by (rewrite Hab; left).
  apply list_elem_of_filter in Hd as [Hj Hin].
  apply Is_true_true in Hj.
  rewrite (joins_ends _ _ _ _ Hj) in Hab.
  apply Hedges, edgeOk_true in Hin as (_ & _ & _ & Hle). by rewrite Hab in Hle.
Qed.

Lemma wellFormed_edge g d :
  wellFormed g = true → d ∈ Cy.edges g →
  Edge.id d = edgeId (Edge.source d) (Edge.target d)
  ∧ isNodeId (Edge.source d) = true ∧ isNodeId (Edge.target d) = true
  ∧ Cy.hasNode g (Edge.source d) = true ∧ Cy.hasNode g (Edge.target d) = true.
Proof.
  intros (_ & Hnodes & Hedges)%wellFormed_true Hin.
  apply Hedges, edgeOk_true in Hin as (Hid & Hs & Ht & _).
  repeat split; try done; by apply Hnodes, hasNode_true.
Qed.

(** The id [createEdge] derives for a pair is not in use unless an edge
    already joins the pair. *)
Lemma edgeId_fresh g a b :
  wellFormed g = true → isNodeId a = true →
  Cy.edgesJoining a b g = [] → edgeId a b ∉ Cy.elementId <$> g.
Proof.
  intros Hwf Ha Hnone (e & Heq & Hin)%list_elem_of_fmap.
  destruct e as [d p|d]; simpl in Heq.
  - apply wellFormed_true in Hwf as (_ & Hnodes & _).
    assert (isNodeId (Node.id d) = true) as Hd.
    { apply Hnodes, list_elem_of_fmap. exists d. split; [done|].
      apply elem_of_nodes. by exists p. }
    by rewrite <-Heq, isNodeId_edgeId in Hd.
  - apply elem_of_edges in Hin.
    destruct (wellFormed_edge _ _ Hwf Hin) as (Hid & Hs & _).
    rewrite Hid in Heq. apply edgeId_inj in Heq as [-> ->]; [|done..].
    assert (d ∈ Cy.edgesJoining (Edge.source d) (Edge.target d) g) as Hd.
    { apply list_elem_of_filter. split; [|done].
      apply Is_true_true, joins_true. by left. }
    rewrite Hnone in Hd. by apply elem_of_nil in Hd.
Qed.

Lemma wellFormed_snoc_node g d p :
  wellFormed g = true → isNodeId (Node.id d) = true →
  Node.id d ∉ Cy.elementId <$> g →
  wellFormed (g ++ [NodeEl d p]) = true.
Proof.
  intros (Hnd & Hnodes & Hedges)%wellFormed_true Hd Hfresh.
  apply wellFormed_true. split; [|split].
  - rewrite fmap_app. apply NoDup_app. split; [done|]. split.
    + intros x Hx ->%list_elem_of_singleton. done.
    + apply NoDup_singleton.
  - intros i. rewrite nodes_snoc_node, fmap_app, elem_of_app.
    intros [Hi| ->%list_elem_of_singleton]; [by apply Hnodes|done].
  - intros d'. rewrite edges_snoc_node. intros Hin.
    apply Hedges, edgeOk_true in Hin as (Hid & Hs & Ht & Hle).
    apply edgeOk_true. rewrite edgesJoining_snoc_node.
    repeat split; [done|by apply hasNode_mono..|done].
Qed.

Lemma wellFormed_snoc_edge g a b :
  wellFormed g = true →
  edgeId a b ∉ Cy.elementId <$> g →
  Cy.hasNode g a = true → Cy.hasNode g b = true →
  Cy.edgesJoining a b g = [] →
  wellFormed (g ++ [EdgeEl (Edge.mk (edgeId a b) a b)]) = true.
Proof.
  intros (Hnd & Hnodes & Hedges)%wellFormed_true Hfresh Ha Hb Hnone.
  apply wellFormed_true. split; [|split].
  - rewrite fmap_app. apply NoDup_app. split; [done|]. split.
    + intros x Hx ->%list_elem_of_singleton. done.
    + apply NoDup_singleton.
  - intros i. rewrite nodes_snoc_edge. apply Hnodes.
  - intros d'. rewrite edges_snoc_edge, elem_of_app.
    intros [Hin| ->%list_elem_of_singleton]; apply edgeOk_true.
    + pose proof Hin as (Hid & Hs & Ht & Hle)%Hedges%edgeOk_true.
      rewrite edgesJoining_snoc_edge.
      destruct (Cy.joins _ _ (Edge.mk _ a b)) eqn:Hj.
      * exfalso. apply joins_true in Hj. simpl in Hj.
        assert (d' ∈ Cy.edgesJoining a b g) as Hd'.
        { apply list_elem_of_filter. split; [|done].
          apply Is_true_true, joins_true.
          destruct Hj as [[-> ->]|[-> ->]]; [by left|by right]. }
        rewrite Hnone in Hd'. by apply elem_of_nil in Hd'.
      * rewrite app_nil_r. repeat split; [done|by apply hasNode_mono..|done].
    + simpl. rewrite edgesJoining_snoc_edge, Hnone.
      repeat split; [by apply hasNode_mono..|].
      destruct (Cy.joins _ _ _); simpl; lia.
Qed.

(** [cy.add] keeps the graph well formed, for a node whose id has the
    shape of a node id ... *)
Lemma wellFormed_add_node g d p :
  wellFormed g = true → isNodeId (Node.id d) = true →
  wellFormed (Cy.add (NodeEl d p) g) = true.
Proof.
  intros Hwf Hd. destruct (add_cases (NodeEl d p) g) as [->|Hadd]; [done|].
  rewrite Hadd. apply add_grows in Hadd as [Hfresh _].
  by apply wellFormed_snoc_node.
Qed.

(** ... and for the edge [createEdge] builds, when no edge joins the pair
    yet. *)
Lemma wellFormed_add_edge g a b :
  wellFormed g = true → Cy.edgesJoining a b g = [] →
  wellFormed (Cy.add (EdgeEl (Edge.mk (edgeId a b) a b)) g) = true.
Proof.
  intros Hwf Hnone.
  destruct (add_cases (EdgeEl (Edge.mk (edgeId a b) a b)) g) as [->|Hadd]; [done|].
  rewrite Hadd. apply add_grows in Hadd as [Hfresh [Ha Hb]].
  by apply wellFormed_snoc_edge.
Qed.

End WellFormedFacts.

(** ** Removal, relabelling and layout keep the graph well formed *)

Section StoreOperations.
Implicit Types (g : Cy.Core) (e : Element) (i a b : string).

Lemma omap_sublist {A B} (f : A → option B) (l1 l2 : list A) :
  l1 `sublist_of` l2 → omap f l1 `sublist_of` omap f l2.
Proof.
  induction 1 as [|x l1 l2 _ IH|x l1 l2 _ IH]; simpl.
  - constructor.
  - destruct (f x); [by constructor|done].
  - destruct (f x); [by constructor|done].
Qed.

Lemma filter_sublist {A} (P : A → Prop) `{!∀ x, Decision (P x)} (l1 l2 : list A) :
  l1 `sublist_of` l2 → filter P l1 `sublist_of` filter P l2.
Proof.
  induction 1 as [|x l1 l2 _ IH|x l1 l2 _ IH]; rewrite ?filter_cons.
  - constructor.
  - case_decide; [by constructor|done].
  - case_decide; [by constructor|done].
Qed.

Lemma remove_sublist i g : Cy.remove i g `sublist_of` g.
Proof. apply sublist_filter. Qed.

Lemma elem_of_remove e i g :
  e ∈ Cy.remove i g ↔ Cy.survives (Cy.hasNode g i) i e = true ∧ e ∈ g.
Proof. unfold Cy.remove. by rewrite list_elem_of_filter, Is_true_true. Qed.

Lemma edgesJoining_remove_le a b i g :
  length (Cy.edgesJoining a b (Cy.remove i g)) ≤ length (Cy.edgesJoining a b g).
Proof.
  apply sublist_length, filter_sublist, omap_sublist, remove_sublist.
Qed.

(** A node other than the removed one stays. *)
Lemma hasNode_remove i j g :
  Cy.hasNode g j = true → j ≠ i → Cy.hasNode (Cy.remove i g) j = true.
Proof.
  rewrite !hasNode_true.
  intros (d & -> & [p Hin]%elem_of_nodes)%list_elem_of_fmap Hne.
  apply list_elem_of_fmap. exists d. split; [done|].
  apply elem_of_nodes. exists p. apply elem_of_remove. split; [|done].
  simpl. by rewrite bool_decide_false.
Qed.

(** A surviving edge has neither end at the removed node, when it is one. *)
Lemma survives_edge_ends i g d :
  Cy.survives (Cy.hasNode g i) i (EdgeEl d) = true →
  Cy.hasNode g i = true → Edge.source d ≠ i ∧ Edge.target d ≠ i.
Proof.
  intros Hkeep Hi. rewrite Hi in Hkeep. simpl in Hkeep.
  apply andb_true_iff in Hkeep as [_ Hends].
  apply negb_true_iff, orb_false_iff in Hends as [Hs Ht].
  by apply bool_decide_eq_false in Hs, Ht.
Qed.

Lemma wellFormed_remove i g :
  wellFormed g = true → wellFormed (Cy.remove i g) = true.
Proof.
  intros Hwf. pose proof Hwf as (Hnd & Hnodes & Hedges)%wellFormed_true.
  apply wellFormed_true. split; [|split].
  - eapply sublist_NoDup; [exact Hnd|]. apply fmap_sublist, remove_sublist.
  - intros j (d & -> & [p [_ Hin]%elem_of_remove]%elem_of_nodes)%list_elem_of_fmap.
    apply Hnodes, list_elem_of_fmap. exists d. split; [done|].
    apply elem_of_nodes. by exists p.
  - intros d [Hkeep Hin]%elem_of_edges%elem_of_remove.
    apply elem_of_edges in Hin.
    pose proof Hin as (Hid & Hs & Ht & Hle)%Hedges%edgeOk_true.
    assert (Edge.source d ≠ i ∧ Edge.target d ≠ i) as [Hsi Hti].
    { destruct (decide (Cy.hasNode g i = true)) as [Hi|Hi].
      - by apply (survives_edge_ends _ g).
      - split; intros <-; congruence. }
    apply edgeOk_true. repeat split; [done|by apply hasNode_remove..|].
    etrans; [apply edgesJoining_remove_le|done].
Qed.

(** [setLabel] and [layoutDagre] touch neither an id nor an edge. *)
Lemma elementId_setLabel i v g :
  Cy.elementId <$> Cy.setLabel i v g = Cy.elementId <$> g.
Proof.
  unfold Cy.setLabel. rewrite <-list_fmap_compose. apply list_fmap_ext.
  intros _ [d p|d] _; simpl; [|done]. by case_bool_decide.
Qed.

Lemma node_ids_setLabel i v g :
  Node.id <$> Cy.nodes (Cy.setLabel i v g) = Node.id <$> Cy.nodes g.
Proof.
  induction g as [|[d p|d] g IH]; [done| |exact IH].
  unfold Cy.setLabel, Cy.nodes in *. simpl.
  case_bool_decide; simpl; f_equal; exact IH.
Qed.

Lemma edges_setLabel i v g : Cy.edges (Cy.setLabel i v g) = Cy.edges g.
Proof.
  induction g as [|[d p|d] g IH]; [done| |].
  - unfold Cy.setLabel, Cy.edges in *. simpl. case_bool_decide; exact IH.
  - unfold Cy.setLabel, Cy.edges in *. simpl. f_equal. exact IH.
Qed.

Lemma elementId_layoutDagre place g :
  Cy.elementId <$> Cy.layoutDagre place g = Cy.elementId <$> g.
Proof.
  unfold Cy.layoutDagre. rewrite <-list_fmap_compose. apply list_fmap_ext.
  by intros _ [d p|d] _.
Qed.

Lemma nodes_layoutDagre place g : Cy.nodes (Cy.layoutDagre place g) = Cy.nodes g.
Proof.
  induction g as [|[d p|d] g IH]; [done| |exact IH].
  unfold Cy.layoutDagre, Cy.nodes in *. simpl. f_equal. exact IH.
Qed.

Lemma edges_layoutDagre place g : Cy.edges (Cy.layoutDagre place g) = Cy.edges g.
Proof.
  induction g as [|[d p|d] g IH]; [done|exact IH|].
  unfold Cy.layoutDagre, Cy.edges in *. simpl. f_equal. exact IH.
Qed.

(** Well-formedness depends on the ids of the elements, the ids of the
    nodes and the edges only. *)
Lemma wellFormed_ext g g' :
  Cy.elementId <$> g = Cy.elementId <$> g' →
  Node.id <$> Cy.nodes g = Node.id <$> Cy.nodes g' →
  Cy.edges g = Cy.edges g' →
  wellFormed g = true → wellFormed g' = true.
Proof.
  intros Hids Hnodes Hedges (Hnd & Hn & He)%wellFormed_true.
  apply wellFormed_true. rewrite <-Hids, <-Hnodes, <-Hedges.
  split; [done|]. split; [done|]. intros d Hd. specialize (He d Hd).
  unfold edgeOk, Cy.hasNode, Cy.edgesJoining in *.
  by rewrite <-Hnodes, <-Hedges.
Qed.

Lemma wellFormed_setLabel i v g :
  wellFormed g = true → wellFormed (Cy.setLabel i v g) = true.
Proof.
  apply wellFormed_ext;
    symmetry; auto using elementId_setLabel, node_ids_setLabel, edges_setLabel.
Qed.

Lemma wellFormed_layoutDagre place g :
  wellFormed g = true → wellFormed (Cy.layoutDagre place g) = true.
Proof.
  apply wellFormed_ext; symmetry;
    auto using elementId_layoutDagre, edges_layoutDagre.
  by rewrite nodes_layoutDagre.
Qed.

Lemma hasNode_setLabel i v g j :
  Cy.hasNode (Cy.setLabel i v g) j = Cy.hasNode g j.
Proof. unfold Cy.hasNode. by rewrite node_ids_setLabel. Qed.

Lemma hasNode_layoutDagre place g j :
  Cy.hasNode (Cy.layoutDagre place g) j = Cy.hasNode g j.
Proof. unfold Cy.hasNode. by rewrite nodes_layoutDagre. Qed.

End StoreOperations.

(** ** createEdge *)

Section CreateEdge.
Context {M : Type}.
Implicit Types (s : Canvas M) (g : Cy.Core) (a b : string).

Lemma createEdge_unmounted a b s : cy s = None → createEdge a b s = s.
Proof. unfold createEdge. by intros ->. Qed.

Lemma createEdge_existing a b s g :
  cy s = Some g → Cy.edgesJoining a b g ≠ [] → createEdge a b s = s.
Proof.
  unfold createEdge. intros -> Hex.
  destruct (Cy.edgesJoining a b g); [done|].
  rewrite bool_decide_true; [done|simpl; lia].
Qed.

Lemma createEdge_new a b s g :
  cy s = Some g → Cy.edgesJoining a b g = [] →
  createEdge a b s
  = setCy (Some (Cy.add (EdgeEl (Edge.mk (edgeId a b) a b)) g)) s.
Proof. unfold createEdge. by intros -> ->. Qed.

(** [createEdge] writes to the instance only. *)
Lemma createEdge_frame a b s :
  selectedNode (createEdge a b s) = selectedNode s
  ∧ isEditing (createEdge a b s) = isEditing s
  ∧ editText (createEdge a b s) = editText s
  ∧ onNodeSelect (createEdge a b s) = onNodeSelect s
  ∧ mode (createEdge a b s) = mode s.
Proof.
  unfold createEdge. destruct (cy s); [|done]. by case_bool_decide.
Qed.

Lemma createEdge_mounted a b s g :
  cy s = Some g →
  createEdge a b s = setCy (Some (graph (createEdge a b s))) s.
Proof.
  intros Hcy. destruct (decide (Cy.edgesJoining a b g = [])) as [Hnone|Hex].
  - by rewrite (createEdge_new _ _ _ _ Hcy Hnone).
  - rewrite (createEdge_existing _ _ _ _ Hcy Hex). unfold graph. rewrite Hcy.
    simpl. by rewrite <-Hcy, setCy_same.
Qed.

Lemma createEdge_nodes a b s :
  Cy.nodes (graph (createEdge a b s)) = Cy.nodes (graph s).
Proof.
  destruct (cy s) as [g|] eqn:Hcy; [|by rewrite createEdge_unmounted].
  destruct (decide (Cy.edgesJoining a b g = [])) as [Hnone|Hex].
  - rewrite (createEdge_new _ _ _ _ Hcy Hnone), graph_setCy, (graph_Some _ _ Hcy).
    apply nodes_add_edge.
  - by rewrite (createEdge_existing _ _ _ _ Hcy Hex).
Qed.

Lemma createEdge_wellFormed a b s :
  wellFormed (graph s) = true → wellFormed (graph (createEdge a b s)) = true.
Proof.
  destruct (cy s) as [g|] eqn:Hcy; [|by rewrite createEdge_unmounted].
  rewrite (graph_Some _ _ Hcy). intros Hwf.
  destruct (decide (Cy.edgesJoining a b g = [])) as [Hnone|Hex].
  - rewrite (createEdge_new _ _ _ _ Hcy Hnone), graph_setCy.
    by apply wellFormed_add_edge.
  - by rewrite (createEdge_existing _ _ _ _ Hcy Hex), (graph_Some _ _ Hcy).
Qed.

(** When no edge joins two nodes of a well-formed graph, [createEdge]
    appends the edge between them. *)
Lemma createEdge_appends a b s g :
  cy s = Some g → wellFormed g = true →
  Cy.hasNode g a = true → Cy.hasNode g b = true →
  Cy.edgesJoining a b g = [] →
  graph (createEdge a b s) = g ++ [EdgeEl (Edge.mk (edgeId a b) a b)].
Proof.
  intros Hcy Hwf Ha Hb Hnone.
  rewrite (createEdge_new _ _ _ _ Hcy Hnone), graph_setCy.
  apply add_edge_fresh; [|done..]. simpl. apply edgeId_fresh; [done| |done].
  apply wellFormed_true in Hwf as (_ & Hnodes & _).
  by apply Hnodes, hasNode_true.
Qed.

(** After [createEdge] on two nodes of a well-formed graph exactly one
    edge joins them. *)
Lemma createEdge_joined a b s g :
  cy s = Some g → wellFormed g = true →
  Cy.hasNode g a = true → Cy.hasNode g b = true →
  length (Cy.edgesJoining a b (graph (createEdge a b s))) = 1.
Proof.
  intros Hcy Hwf Ha Hb.
  destruct (decide (Cy.edgesJoining a b g = [])) as [Hnone|Hex].
  - rewrite (createEdge_appends _ _ _ _ Hcy Hwf Ha Hb Hnone).
    rewrite edgesJoining_snoc_edge, Hnone.
    assert (Cy.joins a b (Edge.mk (edgeId a b) a b) = true) as ->; [|done].
    apply joins_true. by left.
  - rewrite (createEdge_existing _ _ _ _ Hcy Hex), (graph_Some _ _ Hcy).
    pose proof (wellFormed_simple g a b Hwf).
    destruct (Cy.edgesJoining a b g) as [|d [|d' l]]; simpl in *; [done|done|lia].
Qed.

Lemma createEdge_joined_noop a b s :
  Cy.edgesJoining a b (graph s) ≠ [] → createEdge a b s = s.
Proof.
  destruct (cy s) as [g|] eqn:Hcy; [|by rewrite createEdge_unmounted].
  rewrite (graph_Some _ _ Hcy). by apply createEdge_existing.
Qed.

End CreateEdge.

(** The calls of a sequence of [createEdge], each with its two arguments. *)
Lemma createEdge_calls_wellFormed {M : Type} (calls : list (string * string))
    (s : Canvas M) :
  wellFormed (graph s) = true →
  wellFormed (graph (foldl (λ s c, createEdge c.1 c.2 s) s calls)) = true.
Proof.
  revert s. induction calls as [|[a b] calls IH]; intros s Hwf; [done|].
  simpl. by apply IH, createEdge_wellFormed.
Qed.

(** C1. In a well-formed graph, as every graph the components reach is,
    [createEdge] on two nodes A and B of the graph leaves exactly one edge
    joining them; a second call with the same pair, in the same or in the
    opposite order, changes nothing; and after any sequence of [createEdge]
    calls, whatever their arguments, at most one edge joins any pair of
    nodes in either direction. *)
Theorem createEdge_one_edge_per_pair {M : Type} (s : Canvas M) (g : Cy.Core)
    (A B : string) (calls : list (string * string)) :
  cy s = Some g → wellFormed g = true →
  Cy.hasNode g A = true → Cy.hasNode g B = true → A ≠ B →
  let s1 := createEdge A B s in
  length (Cy.edgesJoining A B (graph s1)) = 1
  ∧ createEdge A B s1 = s1
  ∧ createEdge B A s1 = s1
  ∧ length (Cy.edgesJoining A B (graph (createEdge B A s1))) = 1
  ∧ ∀ a b,
      length (Cy.edgesJoining a b
                (graph (foldl (λ s c, createEdge c.1 c.2 s) s calls))) ≤ 1.
Proof.
  intros Hcy Hwf HA HB _ s1.
  assert (length (Cy.edgesJoining A B (graph s1)) = 1) as Hone
    by by apply (createEdge_joined _ _ _ g).
  assert (createEdge A B s1 = s1) as Hsame.
  { apply createEdge_joined_noop. intros Hnil. by rewrite Hnil in Hone. }
  assert (createEdge B A s1 = s1) as Hflip.
  { apply createEdge_joined_noop. rewrite edgesJoining_sym.
    intros Hnil. by rewrite Hnil in Hone. }
  repeat split; [done..|by rewrite Hflip|].
  intros a b. apply wellFormed_simple, createEdge_calls_wellFormed.
  by rewrite (graph_Some _ _ Hcy).
Qed.

Lemma createEdge_one_edge_per_pair_witness :
  let s := addNode TwoClick.isConnecting primary 1700000000000 0.5 0.5
             (latest (TwoClick.initial Host.NoCallback)) in
  let s1 := createEdge "root" "node-1700000000000" s in
  edgeCount s = 0
  ∧ edgeCount s1 = 1
  ∧ createEdge "node-1700000000000" "root" s1 = s1.
Proof.
  intros s s1. split; [reflexivity|]. split; [reflexivity|].
  eapply (createEdge_one_edge_per_pair s _ "root" "node-1700000000000" []);
    [reflexivity|reflexivity|reflexivity|reflexivity|done].
Defined.

(** ** addNode *)

Section AddNode.
Context {M : Type}.
Variable connecting : M → bool.
Implicit Types (s : Canvas M) (g : Cy.Core) (a b : string).

Lemma createEdge_idem a b s : createEdge a b (createEdge a b s) = createEdge a b s.
Proof.
  destruct (cy s) as [g|] eqn:Hcy; [|by rewrite !(createEdge_unmounted a b s Hcy)].
  destruct (decide (Cy.edgesJoining a b g = [])) as [Hnone|Hex].
  - rewrite (createEdge_new _ _ _ _ Hcy Hnone).
    destruct (add_cases (EdgeEl (Edge.mk (edgeId a b) a b)) g) as [Heq|Heq];
      rewrite Heq.
    + rewrite <-Hcy, setCy_same.
      rewrite (createEdge_new _ _ _ _ Hcy Hnone), Heq. by rewrite <-Hcy, setCy_same.
    + apply (createEdge_existing _ _ _ (g ++ [EdgeEl (Edge.mk (edgeId a b) a b)]));
        [done|].
      rewrite edgesJoining_snoc_edge.
      assert (Cy.joins a b (Edge.mk (edgeId a b) a b) = true) as ->.
      { apply joins_true. by left. }
      by destruct (Cy.edgesJoining a b g).
  - by rewrite !(createEdge_existing _ _ _ _ Hcy Hex).
Qed.

Lemma createEdge_elementId a b s i :
  i ∈ Cy.elementId <$> graph s → i ∈ Cy.elementId <$> graph (createEdge a b s).
Proof.
  destruct (cy s) as [g|] eqn:Hcy; [|by rewrite createEdge_unmounted].
  rewrite (graph_Some _ _ Hcy).
  destruct (decide (Cy.edgesJoining a b g = [])) as [Hnone|Hex].
  - rewrite (createEdge_new _ _ _ _ Hcy Hnone), graph_setCy.
    apply elementId_add_mono.
  - by rewrite (createEdge_existing _ _ _ _ Hcy Hex), (graph_Some _ _ Hcy).
Qed.

Lemma layoutPreset_same s : setCy (Cy.layoutPreset <$> cy s) s = s.
Proof. destruct s as [[g|] ? ? ? ? ?]; done. Qed.

(** [addNode] in three steps: the node is added, the edge to the selected
    node is created when the guard lets it, the preset layout runs. *)
Lemma addNode_unmounted type now random1 random2 s :
  cy s = None → addNode connecting type now random1 random2 s = s.
Proof. unfold addNode. by intros ->. Qed.

Lemma addNode_steps type now random1 random2 s g :
  cy s = Some g →
  ∃ position,
    let s1 := setCy (Some (Cy.add (NodeEl (Node.mk (nodeIdAt now) "New Idea" type)
                                          position) g)) s in
    addNode connecting type now random1 random2 s
    = match selectedNode s with
      | Some selected =>
          if negb (connecting (mode s))
          then createEdge (Node.id selected) (nodeIdAt now) s1
          else s1
      | None => s1
      end.
Proof.
  intros Hcy. unfold addNode. rewrite Hcy. eexists. cbv zeta.
  by rewrite layoutPreset_same.
Qed.

Lemma addNode_frame type now random1 random2 s :
  selectedNode (addNode connecting type now random1 random2 s) = selectedNode s
  ∧ isEditing (addNode connecting type now random1 random2 s) = isEditing s
  ∧ editText (addNode connecting type now random1 random2 s) = editText s
  ∧ onNodeSelect (addNode connecting type now random1 random2 s) = onNodeSelect s
  ∧ mode (addNode connecting type now random1 random2 s) = mode s.
Proof.
  destruct (cy s) as [g|] eqn:Hcy; [|by rewrite addNode_unmounted].
  destruct (addNode_steps type now random1 random2 s g Hcy) as [position ->].
  cbv zeta.
  destruct (selectedNode s) as [selected|] eqn:Hsel; [|simpl; by rewrite Hsel].
  destruct (negb _); [|simpl; by rewrite Hsel].
  destruct (createEdge_frame (Node.id selected) (nodeIdAt now)
              (setCy (Some (Cy.add (NodeEl (Node.mk (nodeIdAt now) "New Idea" type)
                                           position) g)) s))
    as (-> & -> & -> & -> & ->).
  simpl. by rewrite Hsel.
Qed.

Lemma addNode_mounted type now random1 random2 s g :
  cy s = Some g →
  cy (addNode connecting type now random1 random2 s)
  = Some (graph (addNode connecting type now random1 random2 s)).
Proof.
  intros Hcy.
  destruct (addNode_steps type now random1 random2 s g Hcy) as [position ->].
  cbv zeta. destruct (selectedNode s) as [selected|]; [|done].
  destruct (negb _); [|done].
  by erewrite createEdge_mounted.
Qed.

(** The id [addNode] generates is the id of an element afterwards, whether
    the node was added or the id was in use. *)
Lemma addNode_elementId type now random1 random2 s g :
  cy s = Some g →
  nodeIdAt now
  ∈ Cy.elementId <$> graph (addNode connecting type now random1 random2 s).
Proof.
  intros Hcy.
  destruct (addNode_steps type now random1 random2 s g Hcy) as [position ->].
  cbv zeta.
  assert (nodeIdAt now ∈ Cy.elementId <$>
            Cy.add (NodeEl (Node.mk (nodeIdAt now) "New Idea" type) position) g)
    as Hin by apply (elementId_add_node (Node.mk _ _ _)).
  destruct (selectedNode s) as [selected|]; [|done].
  destruct (negb _); [|done]. by apply createEdge_elementId.
Qed.

Lemma addNode_wellFormed type now random1 random2 s :
  wellFormed (graph s) = true →
  wellFormed (graph (addNode connecting type now random1 random2 s)) = true.
Proof.
  destruct (cy s) as [g|] eqn:Hcy; [|by rewrite addNode_unmounted].
  rewrite (graph_Some _ _ Hcy). intros Hwf.
  destruct (addNode_steps type now random1 random2 s g Hcy) as [position ->].
  cbv zeta.
  assert (wellFormed (Cy.add (NodeEl (Node.mk (nodeIdAt now) "New Idea" type)
                                     position) g) = true) as Hwf1.
  { apply wellFormed_add_node; [done|]. apply isNodeId_nodeIdAt. }
  destruct (selectedNode s) as [selected|]; [|done].
  destruct (negb _); [|done]. by apply createEdge_wellFormed.
Qed.

End AddNode.

(** ** Trimming twice *)

Lemma trimEnd_idem s : Js.trimEnd (Js.trimEnd s) = Js.trimEnd s.
Proof.
  induction s as [|c s IH]; [done|]. simpl.
  destruct (Js.trimEnd s) as [|c' t] eqn:Ht.
  - destruct (Js.isWhiteSpace c) eqn:Hc; [done|]. simpl. by rewrite Hc.
  - change (Js.trimEnd (String c (String c' t)))
      with (match Js.trimEnd (String c' t) with
            | EmptyString =>
                if Js.isWhiteSpace c then EmptyString else String c EmptyString
            | u => String c u
            end).
    by rewrite IH.
Qed.

Lemma trimStart_head s :
  Js.trimStart s = ""
  ∨ ∃ c t, Js.trimStart s = String c t ∧ Js.isWhiteSpace c = false.
Proof.
  induction s as [|c s IH]; [by left|]. simpl.
  destruct (Js.isWhiteSpace c) eqn:Hc; [done|]. right. by exists c, s.
Qed.

Lemma trimStart_trimEnd_head c t :
  Js.isWhiteSpace c = false →
  Js.trimStart (Js.trimEnd (String c t)) = Js.trimEnd (String c t).
Proof.
  intros Hc. simpl. destruct (Js.trimEnd t); rewrite ?Hc; simpl; by rewrite Hc.
Qed.

Lemma trim_idem s : Js.trim (Js.trim s) = Js.trim s.
Proof.
  unfold Js.trim. destruct (trimStart_head s) as [->|(c & t & -> & Hc)]; [done|].
  by rewrite trimStart_trimEnd_head, trimEnd_idem.
Qed.

(** What [saveEdit] writes is a label in the sense of [labelOk]. *)
Lemma labelOk_trim text : Js.truthy (Js.trim text) = true → labelOk (Js.trim text) = true.
Proof.
  intros Htruthy. unfold labelOk. rewrite Htruthy. simpl.
  apply bool_decide_eq_true, trim_idem.
Qed.

(** ** The nodes after each operation of the store *)

Lemma nodes_add_cases e g :
  Cy.nodes (Cy.add e g) = Cy.nodes g
  ∨ ∃ d p, e = NodeEl d p ∧ Cy.nodes (Cy.add e g) = Cy.nodes g ++ [d].
Proof.
  destruct (add_cases e g) as [->| ->]; [by left|].
  destruct e as [d p|d].
  - right. exists d, p. by rewrite nodes_snoc_node.
  - left. by rewrite nodes_snoc_edge.
Qed.

Lemma nodes_remove i g :
  Cy.nodes (Cy.remove i g)
  = filter (λ d, negb (bool_decide (Node.id d = i))) (Cy.nodes g).
Proof.
  unfold Cy.remove, Cy.Core. generalize (Cy.hasNode g i). intros cascade.
  induction g as [|[d p|d] g IH]; [done| |].
  - change (Cy.nodes (NodeEl d p :: g)) with (d :: Cy.nodes g).
    destruct (decide (Node.id d = i)) as [Heq|Hne].
    + rewrite !filter_cons_False; [exact IH|..];
        simpl; rewrite bool_decide_true by done; simpl; tauto.
    + rewrite !filter_cons_True; [|simpl; rewrite bool_decide_false by done; simpl; tauto..].
      change (Cy.nodes (NodeEl d p :: ?l)) with (d :: Cy.nodes l). by rewrite IH.
  - change (Cy.nodes (EdgeEl d :: g)) with (Cy.nodes g).
    rewrite filter_cons. case_decide; exact IH.
Qed.

Lemma nodes_setLabel i v g :
  Cy.nodes (Cy.setLabel i v g)
  = (λ d, if bool_decide (Node.id d = i)
          then Node.mk (Node.id d) v (Node.type d) else d) <$> Cy.nodes g.
Proof.
  induction g as [|[d p|d] g IH]; [done| |exact IH].
  unfold Cy.setLabel, Cy.nodes in *. simpl.
  case_bool_decide; simpl; f_equal; exact IH.
Qed.

(** ** Selection snapshot and labels, operation by operation *)

Section DataInvariant.
Context {M : Type}.
Variable connecting : M → bool.
Implicit Types (s : Canvas M) (g : Cy.Core).

Lemma selectionCurrent_true s :
  selectionCurrent s = true ↔
  ∀ d, selectedNode s = Some d → d ∈ Cy.nodes (graph s).
Proof.
  unfold selectionCurrent. destruct (selectedNode s) as [d|].
  - rewrite bool_decide_eq_true. split; [by intros ? ? [= <-]|auto].
  - split; [done|auto].
Qed.

Lemma labelsOk_true g :
  labelsOk g = true ↔ ∀ d, d ∈ Cy.nodes g → labelOk (Node.label d) = true.
Proof.
  unfold labelsOk. rewrite forallb_forall. split.
  - intros H d Hd. apply H, list_elem_of_In. by apply list_elem_of_fmap_2.
  - intros H l (d & -> & Hd)%list_elem_of_In%list_elem_of_fmap. by apply H.
Qed.

(** The nodes after [createEdge] and [addNode]. *)
Lemma addNode_nodes type now random1 random2 s :
  Cy.nodes (graph (addNode connecting type now random1 random2 s))
  = Cy.nodes (graph s)
  ∨ Cy.nodes (graph (addNode connecting type now random1 random2 s))
    = Cy.nodes (graph s) ++ [Node.mk (nodeIdAt now) "New Idea" type].
Proof.
  destruct (cy s) as [g|] eqn:Hcy; [|left; by rewrite addNode_unmounted].
  rewrite (graph_Some _ _ Hcy).
  destruct (addNode_steps connecting type now random1 random2 s g Hcy)
    as [position ->]. cbv zeta.
  assert (Cy.nodes (graph (setCy (Some (Cy.add
            (NodeEl (Node.mk (nodeIdAt now) "New Idea" type) position) g)) s))
          = Cy.nodes g
          ∨ Cy.nodes (graph (setCy (Some (Cy.add
              (NodeEl (Node.mk (nodeIdAt now) "New Idea" type) position) g)) s))
            = Cy.nodes g ++ [Node.mk (nodeIdAt now) "New Idea" type]) as Hadd.
  { rewrite graph_setCy.
    destruct (nodes_add_cases
                (NodeEl (Node.mk (nodeIdAt now) "New Idea" type) position) g)
      as [->|(d & p & [= <- _] & ->)]; [by left|by right]. }
  destruct (selectedNode s) as [selected|]; [|done].
  destruct (negb _); [|done]. by rewrite createEdge_nodes.
Qed.

Lemma dataOk_frame s s' :
  cy s' = cy s → selectedNode s' = selectedNode s →
  selectionCurrent s = true → selectionCurrent s' = true.
Proof. unfold selectionCurrent, graph. by intros -> ->. Qed.

Lemma selectionCurrent_createEdge a b s :
  selectionCurrent s = true → selectionCurrent (createEdge a b s) = true.
Proof.
  rewrite !selectionCurrent_true. intros H d.
  destruct (createEdge_frame a b s) as (-> & _). rewrite createEdge_nodes. apply H.
Qed.

Lemma selectionCurrent_addNode type now random1 random2 s :
  selectionCurrent s = true →
  selectionCurrent (addNode connecting type now random1 random2 s) = true.
Proof.
  rewrite !selectionCurrent_true. intros H d.
  destruct (addNode_frame connecting type now random1 random2 s) as (-> & _).
  intros Hd%H.
  destruct (addNode_nodes type now random1 random2 s) as [->| ->]; [done|].
  apply elem_of_app. by left.
Qed.

Lemma labelsOk_addNode type now random1 random2 s :
  labelsOk (graph s) = true →
  labelsOk (graph (addNode connecting type now random1 random2 s)) = true.
Proof.
  rewrite !labelsOk_true. intros H d.
  destruct (addNode_nodes type now random1 random2 s) as [->| ->]; [apply H|].
  intros [Hd| ->%list_elem_of_singleton]%elem_of_app; [by apply H|done].
Qed.

Lemma selectionCurrent_deleteSelected s :
  selectionCurrent s = true → selectionCurrent (deleteSelected s) = true.
Proof. unfold deleteSelected. by destruct (cy s), (selectedNode s). Qed.

Lemma labelsOk_deleteSelected s :
  labelsOk (graph s) = true → labelsOk (graph (deleteSelected s)) = true.
Proof.
  unfold deleteSelected. destruct (cy s) as [g|] eqn:Hcy; [|done].
  destruct (selectedNode s) as [selected|]; [|done].
  rewrite (graph_Some _ _ Hcy), !labelsOk_true. intros H d.
  change (d ∈ Cy.nodes (Cy.remove (Node.id selected) g) → labelOk (Node.label d) = true).
  rewrite nodes_remove. intros [_ Hd]%list_elem_of_filter. by apply H.
Qed.

Lemma selectionCurrent_saveEdit s :
  selectionCurrent s = true → selectionCurrent (saveEdit s) = true.
Proof.
  intros Hsel. unfold saveEdit. destruct (cy s) as [g|] eqn:Hcy; [|done].
  destruct (selectedNode s) as [selected|] eqn:Hselected; [|done].
  destruct (Js.truthy _); [|done].
  apply selectionCurrent_true. intros d Hd. simpl in Hd. injection Hd as <-.
  change (Node.mk (Node.id selected) (Js.trim (editText s)) (Node.type selected)
          ∈ Cy.nodes (Cy.setLabel (Node.id selected) (Js.trim (editText s)) g)).
  rewrite nodes_setLabel. apply list_elem_of_fmap. exists selected. split.
  - by rewrite bool_decide_true.
  - rewrite <-(graph_Some _ _ Hcy). by apply (proj1 (selectionCurrent_true s) Hsel).
Qed.

Lemma labelsOk_saveEdit s :
  labelsOk (graph s) = true → labelsOk (graph (saveEdit s)) = true.
Proof.
  unfold saveEdit. destruct (cy s) as [g|] eqn:Hcy; [|done].
  destruct (selectedNode s) as [selected|]; [|done].
  destruct (Js.truthy _) eqn:Htruthy; [|done].
  rewrite (graph_Some _ _ Hcy), !labelsOk_true. intros H d.
  change (d ∈ Cy.nodes (Cy.setLabel (Node.id selected) (Js.trim (editText s)) g)
          → labelOk (Node.label d) = true).
  rewrite nodes_setLabel. intros (d' & -> & Hd')%list_elem_of_fmap.
  case_bool_decide; [by apply labelOk_trim|by apply H].
Qed.

Lemma selectionCurrent_editKeyDown key s :
  selectionCurrent s = true → selectionCurrent (editKeyDown key s) = true.
Proof.
  intros Hsel. unfold editKeyDown. cbv zeta.
  set (s1 := if bool_decide (key = "Enter") then saveEdit s else s).
  assert (selectionCurrent s1 = true) as H1.
  { unfold s1. case_bool_decide; [by apply selectionCurrent_saveEdit|done]. }
  clearbody s1. by case_bool_decide.
Qed.

Lemma labelsOk_editKeyDown key s :
  labelsOk (graph s) = true → labelsOk (graph (editKeyDown key s)) = true.
Proof.
  intros Hl. unfold editKeyDown. cbv zeta.
  set (s1 := if bool_decide (key = "Enter") then saveEdit s else s).
  assert (labelsOk (graph s1) = true) as H1.
  { unfold s1. case_bool_decide; [by apply labelsOk_saveEdit|done]. }
  clearbody s1. by case_bool_decide.
Qed.

Lemma selectionCurrent_runLayout place s :
  selectionCurrent s = true → selectionCurrent (runLayout place s) = true.
Proof.
  unfold runLayout. destruct (cy s) as [g|] eqn:Hcy; [|done].
  rewrite !selectionCurrent_true. intros H d Hd.
  change (d ∈ Cy.nodes (Cy.layoutDagre place g)). rewrite nodes_layoutDagre.
  rewrite <-(graph_Some _ _ Hcy). by apply H.
Qed.

Lemma labelsOk_runLayout place s :
  labelsOk (graph s) = true → labelsOk (graph (runLayout place s)) = true.
Proof.
  unfold runLayout. destruct (cy s) as [g|] eqn:Hcy; [|done].
  rewrite (graph_Some _ _ Hcy). unfold labelsOk.
  change (graph (setCy (Some (Cy.layoutDagre place g)) s))
    with (Cy.layoutDagre place g).
  by rewrite nodes_layoutDagre.
Qed.

End DataInvariant.

Lemma resolve_in_nodes p g d : resolve p g = Some (OnNode d) → d ∈ Cy.nodes g.
Proof.
  destruct p as [|i]; [done|]. simpl.
  destruct (head _) as [e|] eqn:Hhead; [|done].
  apply head_Some_elem_of, list_elem_of_filter in Hhead as [_ Hin].
  destruct e as [d' p|d']; [|done]. intros [= <-].
  apply elem_of_nodes. by exists p.
Qed.

(** ** The state invariant *)

Section StateInvariant.
Context {M : Type}.
Variable connecting : M → bool.
Implicit Types (s : Canvas M) (g : Cy.Core).

Lemma stateOk_true s :
  stateOk s = true ↔
  ∃ g, cy s = Some g ∧ wellFormed g = true
       ∧ ∀ d, selectedNode s = Some d → Cy.hasNode g (Node.id d) = true.
Proof.
  unfold stateOk. destruct (cy s) as [g|]; [|split; [done|by intros (? & ? & _)]].
  rewrite andb_true_iff. split.
  - intros [Hwf Hsel]. exists g. repeat split; [done|].
    intros d Hd. by rewrite Hd in Hsel.
  - intros (g' & [= <-] & Hwf & Hsel). split; [done|].
    destruct (selectedNode s) as [d|]; [by apply Hsel|done].
Qed.

Lemma stateOk_graph s : stateOk s = true → cy s = Some (graph s).
Proof. intros (g & Hcy & _)%stateOk_true. by rewrite (graph_Some _ _ Hcy). Qed.

Lemma stateOk_wellFormed s : stateOk s = true → wellFormed (graph s) = true.
Proof. intros (g & Hcy & Hwf & _)%stateOk_true. by rewrite (graph_Some _ _ Hcy). Qed.

Lemma stateOk_selected s d :
  stateOk s = true → selectedNode s = Some d →
  Cy.hasNode (graph s) (Node.id d) = true.
Proof.
  intros (g & Hcy & _ & Hsel)%stateOk_true Hd.
  rewrite (graph_Some _ _ Hcy). by apply Hsel.
Qed.

(** A step keeps the invariant when the instance is still there and well
    formed and the selection, if any, names one of its nodes. *)
Lemma stateOk_step s :
  cy s = Some (graph s) →
  wellFormed (graph s) = true →
  (∀ d, selectedNode s = Some d → Cy.hasNode (graph s) (Node.id d) = true) →
  stateOk s = true.
Proof. intros Hcy Hwf Hsel. apply stateOk_true. by exists (graph s). Qed.

(** The setters that write neither the instance nor the selection. *)
Lemma stateOk_frame s s' :
  cy s' = cy s → selectedNode s' = selectedNode s →
  stateOk s = true → stateOk s' = true.
Proof. unfold stateOk. by intros -> ->. Qed.

Lemma hasNode_createEdge a b s i :
  Cy.hasNode (graph (createEdge a b s)) i = Cy.hasNode (graph s) i.
Proof. unfold Cy.hasNode. by rewrite createEdge_nodes. Qed.

Lemma stateOk_createEdge a b s :
  stateOk s = true → stateOk (createEdge a b s) = true.
Proof.
  intros Hok. destruct (createEdge_frame a b s) as (Hsel & _).
  apply stateOk_step.
  - rewrite (createEdge_mounted a b s _ (stateOk_graph _ Hok)). done.
  - by apply createEdge_wellFormed, stateOk_wellFormed.
  - intros d Hd. rewrite hasNode_createEdge. apply stateOk_selected; [done|].
    by rewrite <-Hsel.
Qed.

Lemma hasNode_add e g i : Cy.hasNode g i = true → Cy.hasNode (Cy.add e g) i = true.
Proof.
  destruct (add_cases e g) as [->| ->]; [done|apply hasNode_mono].
Qed.

Lemma hasNode_addNode type now random1 random2 s i :
  Cy.hasNode (graph s) i = true →
  Cy.hasNode (graph (addNode connecting type now random1 random2 s)) i = true.
Proof.
  destruct (cy s) as [g|] eqn:Hcy; [|by rewrite addNode_unmounted].
  rewrite (graph_Some _ _ Hcy). intros Hi.
  destruct (addNode_steps connecting type now random1 random2 s g Hcy)
    as [position ->]. cbv zeta.
  destruct (selectedNode s) as [selected|]; [|by apply hasNode_add].
  destruct (negb _); [|by apply hasNode_add].
  rewrite hasNode_createEdge. by apply hasNode_add.
Qed.

Lemma stateOk_addNode type now random1 random2 s :
  stateOk s = true →
  stateOk (addNode connecting type now random1 random2 s) = true.
Proof.
  intros Hok.
  destruct (addNode_frame connecting type now random1 random2 s) as (Hsel & _).
  apply stateOk_step.
  - by apply (addNode_mounted _ _ _ _ _ _ _ (stateOk_graph _ Hok)).
  - by apply addNode_wellFormed, stateOk_wellFormed.
  - intros d Hd. apply hasNode_addNode, stateOk_selected; [done|].
    by rewrite <-Hsel.
Qed.

Lemma stateOk_deleteSelected s :
  stateOk s = true → stateOk (deleteSelected s) = true.
Proof.
  intros Hok. pose proof (stateOk_graph _ Hok) as Hcy.
  pose proof (stateOk_wellFormed _ Hok) as Hwf.
  unfold deleteSelected. rewrite Hcy.
  destruct (selectedNode s) as [selected|]; [|done].
  apply stateOk_step; [done| |done].
  by apply wellFormed_remove.
Qed.

Lemma stateOk_startEditing s :
  stateOk s = true → stateOk (startEditing s) = true.
Proof. unfold startEditing. by destruct (selectedNode s). Qed.

Lemma stateOk_saveEdit s : stateOk s = true → stateOk (saveEdit s) = true.
Proof.
  intros Hok. pose proof (stateOk_graph _ Hok) as Hcy.
  pose proof (stateOk_wellFormed _ Hok) as Hwf.
  unfold saveEdit. rewrite Hcy.
  destruct (selectedNode s) as [selected|] eqn:Hsel; [|done].
  destruct (Js.truthy _); [|done].
  apply stateOk_step; [done|by apply wellFormed_setLabel|].
  intros d Hd. simpl in Hd. injection Hd as <-.
  change (Cy.hasNode (Cy.setLabel (Node.id selected) (Js.trim (editText s))
                                  (graph s)) (Node.id selected) = true).
  rewrite hasNode_setLabel. by apply stateOk_selected.
Qed.

Lemma stateOk_editKeyDown key s :
  stateOk s = true → stateOk (editKeyDown key s) = true.
Proof.
  intros Hok. unfold editKeyDown. cbv zeta.
  set (s1 := if bool_decide (key = "Enter") then saveEdit s else s).
  assert (stateOk s1 = true) as Hok1.
  { unfold s1. case_bool_decide; [by apply stateOk_saveEdit|done]. }
  clearbody s1. case_bool_decide; [|done]. revert Hok1. by apply stateOk_frame.
Qed.

Lemma stateOk_runLayout place s :
  stateOk s = true → stateOk (runLayout place s) = true.
Proof.
  intros Hok. pose proof (stateOk_graph _ Hok) as Hcy.
  pose proof (stateOk_wellFormed _ Hok) as Hwf.
  unfold runLayout. rewrite Hcy.
  apply stateOk_step; [done|by apply wellFormed_layoutDagre|].
  intros d Hd.
  change (Cy.hasNode (Cy.layoutDagre place (graph s)) (Node.id d) = true).
  rewrite hasNode_layoutDagre. by apply stateOk_selected.
Qed.

End StateInvariant.

(** The node an event resolves to is a node of the instance. *)
Lemma resolve_node p g d : resolve p g = Some (OnNode d) → Cy.hasNode g (Node.id d) = true.
Proof.
  destruct p as [|i]; [done|]. simpl.
  destruct (head _) as [e|] eqn:Hhead; [|done].
  apply head_Some_elem_of, list_elem_of_filter in Hhead as [_ Hin].
  destruct e as [d' p|d']; [|done]. intros [= <-].
  apply hasNode_true, list_elem_of_fmap. exists d'. split; [done|].
  apply elem_of_nodes. by exists p.
Qed.

Lemma stateOk_unique_ids {M : Type} (s : Canvas M) :
  stateOk s = true →
  NoDup (Cy.elementId <$> graph s) ∧ NoDup (Node.id <$> Cy.nodes (graph s)).
Proof.
  intros (Hnd & _ & _)%stateOk_wellFormed%wellFormed_true. split; [done|].
  revert Hnd. generalize (graph s). intros g.
  induction g as [|[d p|d] g IH]; [done| |].
  - change (Cy.elementId <$> NodeEl d p :: g) with (Node.id d :: (Cy.elementId <$> g)).
    change (Node.id <$> Cy.nodes (NodeEl d p :: g))
      with (Node.id d :: (Node.id <$> Cy.nodes g)).
    rewrite !NoDup_cons. intros [Hd Hg]. split; [|by apply IH].
    intros Hin. by apply Hd, node_id_elementId.
  - change (Cy.elementId <$> EdgeEl d :: g) with (Edge.id d :: (Cy.elementId <$> g)).
    change (Cy.nodes (EdgeEl d :: g)) with (Cy.nodes g).
    rewrite NoDup_cons. intros [_ Hg]. by apply IH.
Qed.

(** ** The connection state is left alone by the shared handlers *)

Section ModeFrame.
Context {M : Type}.
Implicit Types (s : Canvas M).

Lemma deleteSelected_mode s : mode (deleteSelected s) = mode s.
Proof. unfold deleteSelected. by destruct (cy s), (selectedNode s). Qed.

Lemma startEditing_mode s : mode (startEditing s) = mode s.
Proof. unfold startEditing. by destruct (selectedNode s). Qed.

Lemma saveEdit_mode s : mode (saveEdit s) = mode s.
Proof.
  unfold saveEdit. destruct (cy s), (selectedNode s); try done.
  by destruct (Js.truthy _).
Qed.

Lemma editKeyDown_mode key s : mode (editKeyDown key s) = mode s.
Proof.
  unfold editKeyDown. cbv zeta.
  case_bool_decide; case_bool_decide; simpl; by rewrite ?saveEdit_mode.
Qed.

Lemma runLayout_mode place s : mode (runLayout place s) = mode s.
Proof. unfold runLayout. by destruct (cy s). Qed.

Lemma labelsOk_createEdge a b s :
  labelsOk (graph s) = true → labelsOk (graph (createEdge a b s)) = true.
Proof. unfold labelsOk. by rewrite createEdge_nodes. Qed.

End ModeFrame.

(** ** Editing *)

Lemma trimStart_blank s :
  Js.trimStart s = "" ↔ ∀ c, c ∈ list_ascii_of_string s → Js.isWhiteSpace c.
Proof.
  induction s as [|c s IH]; simpl.
  - split; [intros _ c' Hc'; by apply elem_of_nil in Hc'|done].
  - destruct (Js.isWhiteSpace c) eqn:Hc.
    + rewrite IH. split.
      * intros H c' [->|Hc']%elem_of_cons; [by rewrite Hc|by apply H].
      * intros H c' Hc'. apply H. by right.
    + split; [done|]. intros H. specialize (H c (list_elem_of_here _ _)).
      by rewrite Hc in H.
Qed.

Lemma trimEnd_blank s :
  Js.trimEnd s = "" ↔ ∀ c, c ∈ list_ascii_of_string s → Js.isWhiteSpace c.
Proof.
  induction s as [|c s IH]; simpl.
  - split; [intros _ c' Hc'; by apply elem_of_nil in Hc'|done].
  - destruct (Js.trimEnd s) eqn:Hs.
    + destruct (Js.isWhiteSpace c) eqn:Hc.
      * split; [|done]. intros _ c' [->|Hc']%elem_of_cons; [by rewrite Hc|].
        by apply IH.
      * split; [done|]. intros H. specialize (H c (list_elem_of_here _ _)).
        by rewrite Hc in H.
    + split; [done|]. intros H.
      assert (String a s0 = "") as Habs; [|done].
      apply IH. intros c' Hc'. apply H. by right.
Qed.

Lemma trimStart_suffix s c :
  c ∈ list_ascii_of_string (Js.trimStart s) → c ∈ list_ascii_of_string s.
Proof.
  induction s as [|c' s IH]; simpl; [done|].
  destruct (Js.isWhiteSpace c'); [|done]. intros H. right. by apply IH.
Qed.

(** A text trims to the empty string exactly when it is empty or made of
    white space only. *)
Lemma trim_blank s :
  Js.trim s = "" ↔ ∀ c, c ∈ list_ascii_of_string s → Js.isWhiteSpace c.
Proof.
  unfold Js.trim. rewrite trimEnd_blank. split.
  - intros H. apply trimStart_blank.
    destruct (Js.trimStart s) as [|c t] eqn:Hs; [done|].
    specialize (H c (list_elem_of_here _ _)).
    destruct s as [|c' s']; [done|]. simpl in Hs.
    destruct (Js.isWhiteSpace c') eqn:Hc'.
    + exfalso. clear Hc'. revert Hs. induction s' as [|c'' s'' IH]; simpl; [done|].
      destruct (Js.isWhiteSpace c'') eqn:Hc''; [done|].
      intros [= -> ->]. by rewrite Hc'' in H.
    + injection Hs as -> ->. by rewrite Hc' in H.
  - intros H c Hc. apply H. by apply trimStart_suffix.
Qed.

(** C5. Confirming an edit whose text is empty, or white space only, so
    that it trims to the empty string, commits nothing, through the Save
    button ([saveEdit]) as through the Enter key: the state is the one
    before, hence the label of the node in the graph and in the selection
    is the prior one and [isEditing] keeps its value, which leaves the
    editor open. *)
Theorem saveEdit_blank_rejected {M : Type} (s : Canvas M) :
  Js.trim (editText s) = "" →
  saveEdit s = s
  ∧ editKeyDown "Enter" s = s
  ∧ Node.label <$> Cy.nodes (graph (saveEdit s)) = Node.label <$> Cy.nodes (graph s)
  ∧ isEditing (saveEdit s) = isEditing s.
Proof.
  intros Hblank.
  assert (saveEdit s = s) as Hsave.
  { unfold saveEdit. destruct (cy s), (selectedNode s); try done.
    by rewrite Hblank. }
  repeat split; try by rewrite Hsave.
  unfold editKeyDown. simpl. by rewrite Hsave.
Qed.

Lemma saveEdit_blank_rejected_witness :
  let s := latest (TwoClick.run [TwoClick.Tap (AtElement "root"); TwoClick.ClickEdit;
                                 TwoClick.EditChange "   "]
                    (TwoClick.initial Host.NoCallback)) in
  isEditing s = true
  ∧ Js.trim (editText s) = ""
  ∧ saveEdit s = s.
Proof.
  intros s. split; [reflexivity|]. split; [reflexivity|].
  apply (saveEdit_blank_rejected s). reflexivity.
Defined.

(** ** What deleting removes, counted *)

Lemma filter_ext_in {A : Type} (P Q : A → Prop) `{!∀ x, Decision (P x)}
    `{!∀ x, Decision (Q x)} (l : list A) :
  (∀ x, x ∈ l → P x ↔ Q x) → filter P l = filter Q l.
Proof.
  induction l as [|a l IH]; intros Hext; [done|].
  rewrite !filter_cons.
  rewrite IH by (intros x Hx; apply Hext; by right).
  destruct (decide (P a)) as [Hp|Hp], (decide (Q a)) as [Hq|Hq]; try done.
  - exfalso. apply Hq, Hext; [left|done].
  - exfalso. apply Hp, Hext; [left|done].
Qed.

Lemma length_filter_unique {A B : Type} `{EqDecision B} (f : A → B) (l : list A) (x : B) :
  NoDup (f <$> l) → x ∈ f <$> l →
  length (filter (λ y, negb (bool_decide (f y = x))) l) + 1 = length l.
Proof.
  induction l as [|a l IH]; [by intros _ ?%elem_of_nil|].
  rewrite fmap_cons, NoDup_cons. intros [Ha Hl] Hx.
  destruct (decide (f a = x)) as [Heq|Hne].
  - rewrite filter_cons_False by (rewrite bool_decide_true by done; simpl; tauto).
    assert (filter (λ y, negb (bool_decide (f y = x))) l = l) as ->; [|simpl; lia].
    rewrite (filter_ext_in _ (λ _, True)).
    + clear. induction l as [|b l IH]; [done|].
      by rewrite filter_cons_True, IH.
    + intros y Hy. split; [done|]. intros _.
      rewrite bool_decide_false; [done|]. intros Hfy. apply Ha.
      rewrite Heq, <-Hfy. by apply list_elem_of_fmap_2.
  - rewrite filter_cons_True by (rewrite bool_decide_false by done; simpl; tauto).
    simpl. rewrite IH; [done|done|].
    apply elem_of_cons in Hx as [Hx|Hx]; [congruence|done].
Qed.

Lemma edges_remove i g :
  Cy.edges (Cy.remove i g)
  = filter (λ d, Cy.survives (Cy.hasNode g i) i (EdgeEl d)) (Cy.edges g).
Proof.
  unfold Cy.remove, Cy.Core. generalize (Cy.hasNode g i). intros cascade.
  induction g as [|[d p|d] g IH]; [done| |].
  - change (Cy.edges (NodeEl d p :: g)) with (Cy.edges g).
    rewrite filter_cons. case_decide; exact IH.
  - change (Cy.edges (EdgeEl d :: g)) with (d :: Cy.edges g).
    rewrite !filter_cons. destruct (decide _) as [Hk|Hk].
    + change (Cy.edges (EdgeEl d :: ?l)) with (d :: Cy.edges l). by rewrite IH.
    + exact IH.
Qed.

(** X8. Deleting the selected node, in a state that satisfies the
    invariant, removes exactly one node and exactly the edges that have it
    as source or target: the node count drops by one, the edge count by the
    number of those edges, and every other node stays, with its data. *)
Theorem deleteSelected_counts {M : Type} (s : Canvas M) (N : Node.data) :
  stateOk s = true → selectedNode s = Some N →
  let s' := deleteSelected s in
  nodeCount s' + 1 = nodeCount s
  ∧ edgeCount s'
    + length (filter (λ d, Edge.source d = Node.id N ∨ Edge.target d = Node.id N)
                (Cy.edges (graph s)))
    = edgeCount s
  ∧ ∀ d, d ∈ Cy.nodes (graph s) → Node.id d ≠ Node.id N → d ∈ Cy.nodes (graph s').
Proof.
  intros Hok Hsel s'.
  pose proof (stateOk_graph _ Hok) as Hcy.
  pose proof (stateOk_wellFormed _ Hok) as Hwf.
  pose proof (stateOk_selected _ _ Hok Hsel) as HN.
  destruct (stateOk_unique_ids _ Hok) as [Hnd Hnodes].
  assert (graph s' = Cy.remove (Node.id N) (graph s)) as Hg.
  { unfold s', deleteSelected. by rewrite Hcy, Hsel. }
  unfold nodeCount, edgeCount. rewrite Hg, nodes_remove, edges_remove, HN.
  split; [|split].
  - apply (length_filter_unique Node.id); [done|by apply hasNode_true].
  - rewrite (filter_ext_in _
               (λ d, ¬ (Edge.source d = Node.id N ∨ Edge.target d = Node.id N))).
    + rewrite Nat.add_comm, <-length_app.
      apply Permutation_length, filter_app_complement.
    + intros d Hd. simpl.
      assert (Edge.id d ≠ Node.id N) as Hid.
      { intros Heq. apply hasNode_true in HN.
        apply list_elem_of_fmap in HN as (n & Hn & [p Hin]%elem_of_nodes).
        apply elem_of_edges in Hd.
        assert (EdgeEl d = NodeEl n p) as Habs; [|done].
        apply (NoDup_fmap_eq Cy.elementId (graph s)); [done..|].
        simpl. congruence. }
      rewrite bool_decide_false by done. simpl.
      destruct (decide (Edge.source d = Node.id N)) as [Hs|Hs],
        (decide (Edge.target d = Node.id N)) as [Ht|Ht];
        rewrite ?(bool_decide_true _ Hs), ?(bool_decide_false _ Hs),
          ?(bool_decide_true _ Ht), ?(bool_decide_false _ Ht); simpl; tauto.
  - intros d Hd Hne. apply list_elem_of_filter. split; [|done].
    by rewrite bool_decide_false.
Qed.

Lemma deleteSelected_counts_witness :
  let c := TwoClick.run
             [TwoClick.ClickAddNode primary 1700000000000 0.5 0.5;
              TwoClick.Tap (AtElement "root");
              TwoClick.ClickAddNode primary 1700000000001 0.5 0.5;
              TwoClick.Tap (AtElement "node-1700000000001")]
             (TwoClick.initial Host.NoCallback) in
  let s := latest c in
  (nodeCount s = 3 ∧ edgeCount s = 1)
  ∧ nodeCount (deleteSelected s) + 1 = nodeCount s
  ∧ nodeCount (latest (TwoClick.dispatch c TwoClick.ClickDelete)) = 2
  ∧ edgeCount (latest (TwoClick.dispatch c TwoClick.ClickDelete)) = 0.
Proof.
  intros c s. split; [by split|]. split; [|by split].
  eapply (deleteSelected_counts s (Node.mk "node-1700000000001" "New Idea" primary));
    reflexivity.
Defined.

(** ** What adding appends *)

Section AddNodeAppends.
Context {M : Type}.
Variable connecting : M → bool.
Implicit Types (s : Canvas M) (g : Cy.Core).

Lemma createEdge_graph_cases a b s g :
  cy s = Some g →
  graph (createEdge a b s) = g
  ∨ graph (createEdge a b s) = g ++ [EdgeEl (Edge.mk (edgeId a b) a b)].
Proof.
  intros Hcy. destruct (decide (Cy.edgesJoining a b g = [])) as [Hnone|Hex].
  - rewrite (createEdge_new _ _ _ _ Hcy Hnone), graph_setCy.
    destruct (add_cases (EdgeEl (Edge.mk (edgeId a b) a b)) g) as [->| ->];
      [by left|by right].
  - left. by rewrite (createEdge_existing _ _ _ _ Hcy Hex), (graph_Some _ _ Hcy).
Qed.

Lemma addNode_added type now random1 random2 s g :
  cy s = Some g →
  ∃ added,
    graph (addNode connecting type now random1 random2 s) = g ++ added
    ∧ length added ≤ 2
    ∧ ∀ e, e ∈ added →
        match e with
        | NodeEl d _ => d = Node.mk (nodeIdAt now) "New Idea" type
        | EdgeEl d =>
            ∃ selected,
              selectedNode s = Some selected ∧ connecting (mode s) = false
              ∧ d = Edge.mk (edgeId (Node.id selected) (nodeIdAt now))
                            (Node.id selected) (nodeIdAt now)
        end.
Proof.
  intros Hcy.
  destruct (addNode_steps connecting type now random1 random2 s g Hcy)
    as [position ->]. cbv zeta.
  set (n := NodeEl (Node.mk (nodeIdAt now) "New Idea" type) position).
  assert (∃ added1, Cy.add n g = g ++ added1 ∧ length added1 ≤ 1
                    ∧ ∀ e, e ∈ added1 → e = n) as (added1 & Hadd & Hlen1 & Hin1).
  { destruct (add_cases n g) as [->| ->].
    - exists []. rewrite app_nil_r. repeat split; [simpl; lia|].
      by intros e ?%elem_of_nil.
    - exists [n]. repeat split; [simpl; lia|].
      by intros e ->%list_elem_of_singleton. }
  assert (∀ t : Canvas M,
            graph (setCy (Some (Cy.add n g)) t) = g ++ added1
            ∧ length added1 ≤ 2
            ∧ ∀ e, e ∈ added1 →
                match e with
                | NodeEl d _ => d = Node.mk (nodeIdAt now) "New Idea" type
                | EdgeEl d =>
                    ∃ selected,
                      selectedNode s = Some selected ∧ connecting (mode s) = false
                      ∧ d = Edge.mk (edgeId (Node.id selected) (nodeIdAt now))
                                    (Node.id selected) (nodeIdAt now)
                end) as Hnode.
  { intros t. rewrite graph_setCy. split; [done|]. split; [lia|].
    by intros e ->%Hin1. }
  destruct (selectedNode s) as [selected|] eqn:Hsel; [|by exists added1].
  destruct (connecting (mode s)) eqn:Hconn; simpl negb; cbv iota;
    [by exists added1|].
  destruct (Hnode s) as (_ & _ & Hin1').
  destruct (createEdge_graph_cases (Node.id selected) (nodeIdAt now)
              (setCy (Some (Cy.add n g)) s) (Cy.add n g) eq_refl) as [->| ->].
  - exists added1. split; [done|]. split; [lia|done].
  - exists (added1 ++ [EdgeEl (Edge.mk (edgeId (Node.id selected) (nodeIdAt now))
                                      (Node.id selected) (nodeIdAt now))]).
    rewrite Hadd, <-app_assoc, length_app. split; [done|]. split; [simpl; lia|].
    intros e [He| ->%list_elem_of_singleton]%elem_of_app; [by apply Hin1'|].
    by exists selected.
Qed.

Lemma addNode_fresh_nodes type now random1 random2 s g :
  cy s = Some g → nodeIdAt now ∉ Cy.elementId <$> g →
  Cy.nodes (graph (addNode connecting type now random1 random2 s))
  = Cy.nodes g ++ [Node.mk (nodeIdAt now) "New Idea" type].
Proof.
  intros Hcy Hfresh.
  destruct (addNode_steps connecting type now random1 random2 s g Hcy)
    as [position ->]. cbv zeta.
  rewrite (add_node_fresh (Node.mk (nodeIdAt now) "New Idea" type)) by done.
  destruct (selectedNode s) as [selected|];
    [destruct (negb (connecting (mode s)))|];
    rewrite ?createEdge_nodes, graph_setCy; apply nodes_snoc_node.
Qed.

End AddNodeAppends.

(** X9. [addNode] only appends: every element of the instance stays where
    it was, with its data and its position; at most two elements come
    after them, a node with the generated id, the label "New Idea" and the
    type asked for, and an edge from the selected node to that id, which
    appears only when a node is selected and no connection is in
    progress. *)
Theorem addNode_appends_only {M : Type} (connecting : M → bool) (s : Canvas M)
    (g : Cy.Core) (type : NodeType) (now : Z) (random1 random2 : float) :
  cy s = Some g →
  ∃ added,
    graph (addNode connecting type now random1 random2 s) = g ++ added
    ∧ length added ≤ 2
    ∧ ∀ e, e ∈ added →
        match e with
        | NodeEl d _ => d = Node.mk (nodeIdAt now) "New Idea" type
        | EdgeEl d =>
            ∃ selected,
              selectedNode s = Some selected ∧ connecting (mode s) = false
              ∧ d = Edge.mk (edgeId (Node.id selected) (nodeIdAt now))
                            (Node.id selected) (nodeIdAt now)
        end.
Proof. apply addNode_added. Qed.

Lemma addNode_appends_only_witness :
  let s := latest (TwoClick.run [TwoClick.Tap (AtElement "root")]
                    (TwoClick.initial Host.NoCallback)) in
  ∃ added,
    graph (addNode TwoClick.isConnecting accent 1700000000000 0.5 0.5 s)
    = initialElements ++ added
    ∧ length added ≤ 2.
Proof.
  intros s.
  destruct (addNode_appends_only TwoClick.isConnecting s initialElements
              accent 1700000000000 0.5 0.5 eq_refl) as (added & Hg & Hlen & _).
  by exists added.
Defined.

(** ** An edit session *)

(** X10. Opening the editor on the selected node, typing a text that is not
    blank and saving (with the button or with Enter) relabels, with the
    trimmed text, the node that has the selected id and no other; edges are
    untouched; the selection carries the new label, the editor is closed
    and its text cleared; opening the editor again shows the label that was
    saved. *)
Theorem edit_commits {M : Type} (s : Canvas M) (g : Cy.Core) (selected : Node.data)
    (text : string) :
  cy s = Some g → selectedNode s = Some selected → Js.trim text ≠ "" →
  let s' := s |> startEditing |> setEditText text |> saveEdit in
  Cy.nodes (graph s')
  = (λ d, if bool_decide (Node.id d = Node.id selected)
          then Node.mk (Node.id d) (Js.trim text) (Node.type d) else d)
      <$> Cy.nodes g
  ∧ Cy.edges (graph s') = Cy.edges g
  ∧ Cy.elementId <$> graph s' = Cy.elementId <$> g
  ∧ selectedNode s'
    = Some (Node.mk (Node.id selected) (Js.trim text) (Node.type selected))
  ∧ isEditing s' = false ∧ editText s' = ""
  ∧ editKeyDown "Enter" (s |> startEditing |> setEditText text) = s'
  ∧ editText (startEditing s') = Js.trim text.
Proof.
  intros Hcy Hsel Hne s'.
  assert (Js.truthy (Js.trim text) = true) as Htruthy.
  { unfold Js.truthy. by rewrite bool_decide_false. }
  assert (s' = s |> setCy (Some (Cy.setLabel (Node.id selected) (Js.trim text) g))
                 |> setIsEditing false |> setEditText ""
                 |> setSelectedNode
                      (Some (Node.mk (Node.id selected) (Js.trim text)
                                     (Node.type selected)))) as Hs'.
  { unfold s', startEditing. rewrite Hsel. unfold saveEdit. simpl.
    by rewrite Hcy, Hsel, Htruthy. }
  split; [rewrite Hs'; apply nodes_setLabel|].
  split; [rewrite Hs'; apply edges_setLabel|].
  split; [rewrite Hs'; apply elementId_setLabel|].
  split; [by rewrite Hs'|]. split; [by rewrite Hs'|]. split; [by rewrite Hs'|].
  split; [|by rewrite Hs'].
  unfold editKeyDown. cbv zeta.
  change (bool_decide ("Enter" = "Enter")) with true.
  change (bool_decide ("Enter" = "Escape")) with false. done.
Qed.

Lemma edit_commits_witness :
  let c := TwoClick.run [TwoClick.Tap (AtElement "root")]
             (TwoClick.initial Host.NoCallback) in
  let s := latest c in
  let s' := latest (TwoClick.run [TwoClick.ClickEdit; TwoClick.EditChange " Goals ";
                                  TwoClick.EditKeyDown "Enter"] c) in
  Js.trim " Goals " = "Goals"
  ∧ Cy.nodes (graph s') = [Node.mk "root" "Goals" root]
  ∧ selectedNode (s |> startEditing |> setEditText " Goals " |> saveEdit)
    = Some (Node.mk "root" "Goals" root).
Proof.
  intros c s s'. split; [reflexivity|]. split; [reflexivity|].
  destruct (edit_commits s initialElements (Node.mk "root" "Main Idea" root) " Goals ")
    as (_ & _ & _ & Hsel & _); [reflexivity|reflexivity|done|exact Hsel].
Defined.

(** X11. Opening the editor on the selected node, typing any number of
    texts and leaving with Escape, or with the Cancel button, discards what
    was typed: the instance, the selection, the calls made to the host and
    the connection state are those before the editor was opened, the
    editor is closed, and opening it again shows the label of the selected
    node, not the discarded text. *)
Theorem edit_cancel_discards {M : Type} (s : Canvas M) (selected : Node.data)
    (texts : list string) :
  selectedNode s = Some selected →
  let typed := foldl (λ t text, setEditText text t) (startEditing s) texts in
  let s' := editKeyDown "Escape" typed in
  s' = setIsEditing false typed
  ∧ cy s' = cy s ∧ selectedNode s' = selectedNode s
  ∧ onNodeSelect s' = onNodeSelect s ∧ mode s' = mode s
  ∧ isEditing s' = false
  ∧ editText (startEditing s') = Node.label selected.
Proof.
  intros Hsel typed s'.
  assert (∀ t : Canvas M,
            let t' := foldl (λ t text, setEditText text t) t texts in
            cy t' = cy t ∧ selectedNode t' = selectedNode t
            ∧ onNodeSelect t' = onNodeSelect t ∧ mode t' = mode t) as Htyped.
  { induction texts as [|text texts IH]; intros t; [done|].
    cbv zeta. rewrite foldl_cons. destruct (IH (setEditText text t)) as (-> & -> & -> & ->).
    done. }
  destruct (Htyped (startEditing s)) as (Hcy & Hselected & Hcalls & Hmode).
  fold typed in Hcy, Hselected, Hcalls, Hmode.
  assert (s' = setIsEditing false typed) as Hs'.
  { unfold s', editKeyDown. cbv zeta.
    change (bool_decide ("Escape" = "Enter")) with false.
    change (bool_decide ("Escape" = "Escape")) with true. done. }
  assert (selectedNode (startEditing s) = selectedNode s
          ∧ cy (startEditing s) = cy s ∧ onNodeSelect (startEditing s) = onNodeSelect s
          ∧ mode (startEditing s) = mode s) as (E1 & E2 & E3 & E4).
  { unfold startEditing. by rewrite Hsel. }
  rewrite Hs'. split; [done|]. simpl.
  rewrite Hcy, Hselected, Hcalls, Hmode, E1, E2, E3, E4.
  repeat split. unfold startEditing. simpl. by rewrite Hselected, E1, Hsel.
Qed.

Lemma edit_cancel_discards_witness :
  let c := DragConnect.run [DragConnect.Tap (AtElement "root")]
             (DragConnect.initial Host.NoCallback) in
  let s := latest c in
  let s' := latest (DragConnect.run
                      [DragConnect.ClickEdit; DragConnect.EditChange "x";
                       DragConnect.EditChange "xy"; DragConnect.EditKeyDown "Escape"] c) in
  cy s' = cy s ∧ editText s' = "xy"
  ∧ editText (startEditing
                (editKeyDown "Escape"
                   (foldl (λ t text, setEditText text t) (startEditing s) ["x"; "xy"])))
    = "Main Idea".
Proof.
  intros c s s'. split; [reflexivity|]. split; [reflexivity|].
  destruct (edit_cancel_discards s (Node.mk "root" "Main Idea" root) ["x"; "xy"])
    as (_ & _ & _ & _ & _ & _ & Htext); [reflexivity|exact Htext].
Defined.

(** ** Clicks at different clock readings *)

Lemma addNode_elementId_cases {M : Type} (connecting : M → bool) (s : Canvas M)
    (g : Cy.Core) type now random1 random2 i :
  cy s = Some g →
  i ∈ Cy.elementId <$> graph (addNode connecting type now random1 random2 s) →
  i ∈ Cy.elementId <$> g ∨ i = nodeIdAt now
  ∨ ∃ a, i = edgeId a (nodeIdAt now).
Proof.
  intros Hcy.
  destruct (addNode_added connecting type now random1 random2 s g Hcy)
    as (added & -> & _ & Hadded).
  rewrite fmap_app, elem_of_app. intros [Hi|(e & -> & He)%list_elem_of_fmap];
    [by left|right].
  specialize (Hadded e He). destruct e as [d p|d].
  - left. by rewrite Hadded.
  - right. destruct Hadded as (selected & _ & _ & ->). by eexists.
Qed.

(** X12. Any number of [addNode] calls whose clock readings are pairwise
    different, and generate ids that are not in use, add one node each, in
    the order of the calls, whatever is selected: the node count grows by
    the number of calls. *)
Theorem addNode_distinct_readings {M : Type} (connecting : M → bool)
    (clicks : list (NodeType * Z * float * float)) (s : Canvas M) (g : Cy.Core) :
  cy s = Some g →
  NoDup ((λ c, c.1.1.2) <$> clicks) →
  (∀ c, c ∈ clicks → Cy.hasElementWithId g (nodeIdAt c.1.1.2) = false) →
  let s' := foldl (λ t c, addNode connecting c.1.1.1 c.1.1.2 c.1.2 c.2 t) s clicks in
  Cy.nodes (graph s')
  = Cy.nodes g ++ ((λ c, Node.mk (nodeIdAt c.1.1.2) "New Idea" c.1.1.1) <$> clicks)
  ∧ nodeCount s' = nodeCount s + length clicks.
Proof.
  intros Hcy Hnd Hfresh s'.
  assert (Cy.nodes (graph s')
          = Cy.nodes g
            ++ ((λ c, Node.mk (nodeIdAt c.1.1.2) "New Idea" c.1.1.1) <$> clicks))
    as Hnodes.
  { unfold s'. clear s'. revert s g Hcy Hfresh.
    induction clicks as [|[[[type now] random1] random2] clicks IH];
      intros s g Hcy Hfresh.
    { simpl. by rewrite (graph_Some _ _ Hcy), app_nil_r. }
    rewrite fmap_cons, NoDup_cons in Hnd. destruct Hnd as [Hnow Hnd].
    rewrite foldl_cons. simpl fst. simpl snd.
    pose proof (addNode_mounted connecting type now random1 random2 s g Hcy) as Hcy1.
    assert (nodeIdAt now ∉ Cy.elementId <$> g) as Hnew.
    { apply hasElementWithId_false, (Hfresh (type, now, random1, random2)). left. }
    rewrite (IH Hnd _ _ Hcy1).
    - rewrite (addNode_fresh_nodes connecting type now random1 random2 s g Hcy Hnew).
      by rewrite fmap_cons, <-app_assoc.
    - intros c Hc. apply hasElementWithId_false.
      intros [Hin|[Heq|[a Heq]]]%(addNode_elementId_cases connecting s g _ _ _ _ _ Hcy).
      + specialize (Hfresh c). rewrite hasElementWithId_false in Hfresh.
        apply Hfresh; [by right|done].
      + apply nodeIdAt_inj in Heq. apply Hnow.
        apply list_elem_of_fmap. by exists c.
      + pose proof (isNodeId_nodeIdAt c.1.1.2) as Hid.
        by rewrite Heq, isNodeId_edgeId in Hid. }
  split; [done|]. unfold nodeCount.
  by rewrite Hnodes, length_app, length_fmap, (graph_Some _ _ Hcy).
Qed.

Lemma addNode_distinct_readings_witness :
  let clicks := [(primary, 1700000000000%Z, 0.5%float, 0.5%float);
                 (secondary, 1700000000001%Z, 0.25%float, 0.75%float);
                 (accent, 1699999999999%Z, 0.5%float, 0.5%float)] in
  let s := latest (DragConnect.run [DragConnect.Tap (AtElement "root")]
                    (DragConnect.initial Host.NoCallback)) in
  nodeCount (foldl (λ t c, addNode DragConnect.isDragging c.1.1.1 c.1.1.2 c.1.2 c.2 t)
               s clicks)
  = nodeCount s + 3.
Proof.
  intros clicks s.
  destruct (addNode_distinct_readings DragConnect.isDragging clicks s initialElements)
    as [_ Hcount]; [reflexivity| | |exact Hcount].
  - compute_done.
  - intros c Hc. apply list_elem_of_In in Hc. simpl in Hc.
    destruct Hc as [<-|[<-|[<-|[]]]]; reflexivity.
Defined.

(** ** The live instance under the functions of the component *)

Lemma isGeneratedId_nodeIdAt now : isGeneratedId (nodeIdAt now) = true.
Proof.
  unfold isGeneratedId, nodeIdAt. push_app. simpl.
  by rewrite toString_isNumeral.
Qed.

Lemma edgesToGenerated_true g :
  edgesToGenerated g = true ↔
  ∀ d, d ∈ Cy.edges g → isGeneratedId (Edge.target d) = true.
Proof.
  unfold edgesToGenerated. rewrite forallb_forall.
  split; intros H d Hd; apply H; by apply list_elem_of_In.
Qed.

Section LiveInstance.
Context {M : Type}.
Variable connecting : M → bool.
Implicit Types (s : Canvas M).

Lemma liveOk_true s :
  liveOk s = true ↔
  ∃ g, cy s = Some g ∧ wellFormed g = true ∧ labelsOk g = true
       ∧ edgesToGenerated g = true.
Proof.
  unfold liveOk. destruct (cy s) as [g|].
  - rewrite !andb_true_iff. split.
    + intros [[? ?] ?]. by exists g.
    + by intros (g' & [= <-] & ? & ? & ?).
  - split; [done|]. by intros (g & ? & _).
Qed.

Lemma liveOk_graph s :
  liveOk s = true →
  cy s = Some (graph s) ∧ wellFormed (graph s) = true
  ∧ labelsOk (graph s) = true ∧ edgesToGenerated (graph s) = true.
Proof.
  intros (g & Hcy & Hwf & Hlab & Hgen)%liveOk_true.
  by rewrite (graph_Some _ _ Hcy).
Qed.

Lemma liveOk_intro s :
  cy s = Some (graph s) → wellFormed (graph s) = true →
  labelsOk (graph s) = true → edgesToGenerated (graph s) = true →
  liveOk s = true.
Proof. intros Hcy Hwf Hlab Hgen. apply liveOk_true. by exists (graph s). Qed.

Lemma liveOk_frame s s' : cy s' = cy s → liveOk s = true → liveOk s' = true.
Proof. unfold liveOk. by intros ->. Qed.

Lemma liveOk_created s : liveOk (setCy (Some initialElements) s) = true.
Proof. reflexivity. Qed.

Lemma edges_addNode type now random1 random2 s d :
  d ∈ Cy.edges (graph (addNode connecting type now random1 random2 s)) →
  d ∈ Cy.edges (graph s)
  ∨ (connecting (mode s) = false ∧ Edge.target d = nodeIdAt now).
Proof.
  destruct (cy s) as [g|] eqn:Hcy; [|rewrite addNode_unmounted by done; by left].
  destruct (addNode_added connecting type now random1 random2 s g Hcy)
    as (added & Hg & _ & Hadded).
  rewrite Hg, (graph_Some _ _ Hcy).
  intros [Hd|Hd]%elem_of_edges%elem_of_app; [left; by apply elem_of_edges|].
  right. destruct (Hadded _ Hd) as (selected & _ & Hconn & ->). done.
Qed.

Lemma edges_addNode_connecting type now random1 random2 s :
  connecting (mode s) = true →
  Cy.edges (graph (addNode connecting type now random1 random2 s))
  = Cy.edges (graph s).
Proof.
  intros Hconn.
  destruct (cy s) as [g|] eqn:Hcy; [|by rewrite addNode_unmounted].
  destruct (addNode_steps connecting type now random1 random2 s g Hcy)
    as [position ->]. cbv zeta. rewrite Hconn. simpl.
  rewrite (graph_Some _ _ Hcy).
  destruct (selectedNode s);
    (destruct (add_cases (NodeEl (Node.mk (nodeIdAt now) "New Idea" type) position) g)
      as [->| ->]; [done|apply edges_snoc_node]).
Qed.

Lemma liveOk_addNode type now random1 random2 s :
  liveOk s = true → liveOk (addNode connecting type now random1 random2 s) = true.
Proof.
  intros (Hcy & Hwf & Hlab & Hgen)%liveOk_graph. apply liveOk_intro.
  - by apply (addNode_mounted connecting _ _ _ _ _ _ Hcy).
  - by apply addNode_wellFormed.
  - by apply labelsOk_addNode.
  - apply edgesToGenerated_true. intros d [Hd|[_ ->]]%edges_addNode.
    + by apply (proj1 (edgesToGenerated_true _) Hgen).
    + apply isGeneratedId_nodeIdAt.
Qed.

Lemma liveOk_deleteSelected s :
  liveOk s = true → liveOk (deleteSelected s) = true.
Proof.
  intros Hok. pose proof (liveOk_graph _ Hok) as (Hcy & Hwf & Hlab & Hgen).
  pose proof (labelsOk_deleteSelected s Hlab) as Hlab'.
  revert Hlab'. unfold deleteSelected. rewrite Hcy.
  destruct (selectedNode s) as [selected|]; [|done]. intros Hlab'.
  apply liveOk_intro; [done|by apply wellFormed_remove|exact Hlab'|].
  apply edgesToGenerated_true. intros d Hd.
  change (d ∈ Cy.edges (Cy.remove (Node.id selected) (graph s))) in Hd.
  rewrite edges_remove in Hd. apply list_elem_of_filter in Hd as [_ Hd].
  by apply (proj1 (edgesToGenerated_true _) Hgen).
Qed.

Lemma liveOk_startEditing s : liveOk s = true → liveOk (startEditing s) = true.
Proof. unfold startEditing. by destruct (selectedNode s). Qed.

Lemma liveOk_saveEdit s : liveOk s = true → liveOk (saveEdit s) = true.
Proof.
  intros Hok. pose proof (liveOk_graph _ Hok) as (Hcy & Hwf & Hlab & Hgen).
  pose proof (labelsOk_saveEdit s Hlab) as Hlab'.
  revert Hlab'. unfold saveEdit. rewrite Hcy.
  destruct (selectedNode s) as [selected|]; [|done].
  destruct (Js.truthy _); [|done]. intros Hlab'.
  apply liveOk_intro; [done|by apply wellFormed_setLabel|exact Hlab'|].
  change (edgesToGenerated (Cy.setLabel (Node.id selected) (Js.trim (editText s))
                                        (graph s)) = true).
  unfold edgesToGenerated. by rewrite edges_setLabel.
Qed.

Lemma liveOk_editKeyDown key s : liveOk s = true → liveOk (editKeyDown key s) = true.
Proof.
  intros Hok. unfold editKeyDown. cbv zeta.
  case_bool_decide; case_bool_decide.
  - apply (liveOk_frame (saveEdit s)); [done|by apply liveOk_saveEdit].
  - by apply (liveOk_frame s).
  - by apply liveOk_saveEdit.
  - done.
Qed.

Lemma liveOk_runLayout place s : liveOk s = true → liveOk (runLayout place s) = true.
Proof.
  intros Hok. pose proof (liveOk_graph _ Hok) as (Hcy & Hwf & Hlab & Hgen).
  pose proof (labelsOk_runLayout place s Hlab) as Hlab'.
  revert Hlab'. unfold runLayout. rewrite Hcy. intros Hlab'.
  apply liveOk_intro; [done|by apply wellFormed_layoutDagre|exact Hlab'|].
  change (edgesToGenerated (Cy.layoutDagre place (graph s)) = true).
  unfold edgesToGenerated. by rewrite edges_layoutDagre.
Qed.

(** The edges under the functions that make no edge. *)
Lemma edges_saveEdit s : Cy.edges (graph (saveEdit s)) = Cy.edges (graph s).
Proof.
  unfold saveEdit. destruct (cy s) as [g|] eqn:Hcy; [|done].
  destruct (selectedNode s) as [selected|]; [|done].
  destruct (Js.truthy _); [|done].
  rewrite (graph_Some _ _ Hcy). apply edges_setLabel.
Qed.

Lemma edges_editKeyDown key s :
  Cy.edges (graph (editKeyDown key s)) = Cy.edges (graph s).
Proof.
  unfold editKeyDown. cbv zeta.
  case_bool_decide; case_bool_decide; try done; apply edges_saveEdit.
Qed.

Lemma edges_runLayout place s :
  Cy.edges (graph (runLayout place s)) = Cy.edges (graph s).
Proof.
  unfold runLayout. destruct (cy s) as [g|] eqn:Hcy; [|done].
  rewrite (graph_Some _ _ Hcy). apply edges_layoutDagre.
Qed.

(** Saving an edit makes no call and keeps the node of the selection. *)
Lemma saveEdit_quiet s :
  onNodeSelect (saveEdit s) = onNodeSelect s
  ∧ Node.id <$> selectedNode (saveEdit s) = Node.id <$> selectedNode s.
Proof.
  unfold saveEdit. destruct (cy s); [|done].
  destruct (selectedNode s) as [selected|] eqn:Hsel; [|by rewrite Hsel].
  destruct (Js.truthy _); [|by rewrite Hsel]. done.
Qed.

Lemma editKeyDown_quiet key s :
  onNodeSelect (editKeyDown key s) = onNodeSelect s
  ∧ Node.id <$> selectedNode (editKeyDown key s) = Node.id <$> selectedNode s.
Proof.
  unfold editKeyDown. cbv zeta.
  case_bool_decide; case_bool_decide; try done; apply saveEdit_quiet.
Qed.

End LiveInstance.

(** ** After an event *)

Section CommitFacts.
Context {M : Type}.
Implicit Types (c : Mounted M) (r s : Canvas M) (h : Host.t).

Lemma calls_same s s' : onNodeSelect s' = onNodeSelect s → calls s s' = [].
Proof.
  unfold calls. intros ->. destruct (onNodeSelect s); [by rewrite drop_all|done].
Qed.

Lemma calls_one s s' v :
  is_Some (onNodeSelect s) →
  onNodeSelect s' = (λ made, made ++ [v]) <$> onNodeSelect s →
  calls s s' = [v].
Proof.
  intros [made Hs] Hs'. unfold calls. rewrite Hs', Hs. simpl.
  by rewrite drop_app_length.
Qed.

Lemma tell_inert n h w vs : Host.newCallback h = false → tell n h w vs = (w, false).
Proof.
  intros Hh. unfold tell. induction vs as [|v vs IH] using rev_ind; [done|].
  rewrite foldl_app, IH. simpl. by destruct h.
Qed.

Lemma tell_one n h w v : tell n h w [v] = Host.handleNodeSelect n v h w.
Proof. unfold tell. simpl. by destruct (Host.handleNodeSelect n v h w). Qed.

(** A parent that passes no function, or always the same one. *)
Lemma commit_inert parentRenders dependencyChanged c r s :
  Host.newCallback (parent c) = false →
  commit parentRenders dependencyChanged c r s
  = if dependencyChanged
    then effect (mkMounted s r (parent c) (page c) (built c))
    else mkMounted s r (parent c) (page c) (built c).
Proof.
  intros Hh. unfold commit. rewrite tell_inert by done.
  by rewrite Hh, andb_false_r.
Qed.

(** No call was made during the event. *)
Lemma commit_quiet parentRenders dependencyChanged c r s :
  onNodeSelect s = onNodeSelect (latest c) →
  commit parentRenders dependencyChanged c r s
  = if (parentRenders && Host.newCallback (parent c)) || dependencyChanged
    then effect (mkMounted s r (parent c) (page c) (built c))
    else mkMounted s r (parent c) (page c) (built c).
Proof. intros Hs. unfold commit. by rewrite calls_same. Qed.

(** [Index.tsx] was told [v] during the event. *)
Lemma commit_told parentRenders dependencyChanged c r s v :
  parent c = Host.IndexPage →
  is_Some (onNodeSelect (latest c)) →
  onNodeSelect s = (λ made, made ++ [v]) <$> onNodeSelect (latest c) →
  commit parentRenders dependencyChanged c r s
  = if negb (Host.sameValue (page c) ((λ d, (built c, d)) <$> v))
       || parentRenders || dependencyChanged
    then effect (mkMounted s r Host.IndexPage ((λ d, (built c, d)) <$> v) (built c))
    else mkMounted s r Host.IndexPage ((λ d, (built c, d)) <$> v) (built c).
Proof.
  intros Hh Hlog Hs. unfold commit.
  rewrite (calls_one _ _ v) by done. rewrite tell_one, Hh. simpl.
  by rewrite andb_true_r.
Qed.

(** A data object of the live instance is not one the page holds. *)
Lemma sameValue_new n w d :
  (∀ i e, w = Some (i, e) → i < n) → Host.sameValue w (Some (n, d)) = false.
Proof.
  intros Hold. destruct w as [[i e]|]; [|done]. simpl.
  rewrite bool_decide_false; [done|]. specialize (Hold i e eq_refl). lia.
Qed.

Lemma reported_not_quiet s s' v :
  is_Some (onNodeSelect s) →
  onNodeSelect s' = (λ made, made ++ [v]) <$> onNodeSelect s →
  onNodeSelect s' ≠ onNodeSelect s.
Proof.
  intros [made Hs] Hs' Heq. rewrite Hs', Hs in Heq. simpl in Heq.
  injection Heq as Heq. apply (f_equal length) in Heq.
  rewrite length_app in Heq. simpl in Heq. lia.
Qed.

Lemma reported_value s s' v w :
  is_Some (onNodeSelect s) →
  onNodeSelect s' = (λ made, made ++ [v]) <$> onNodeSelect s →
  onNodeSelect s' = (λ made, made ++ [w]) <$> onNodeSelect s →
  v = w.
Proof.
  intros [made Hs] Hv Hw. rewrite Hv, Hs in Hw. simpl in Hw.
  injection Hw as Hw. by apply app_inj_1 in Hw as [_ [= ->]].
Qed.

(** The latest render after an event is the state the handler left, with a
    new instance when the effect has run again. *)
Lemma commit_latest parentRenders dependencyChanged c r s :
  latest (commit parentRenders dependencyChanged c r s) = s
  ∨ latest (commit parentRenders dependencyChanged c r s)
    = setCy (Some initialElements) s.
Proof.
  unfold commit. destruct (tell _ _ _ _) as [selected told].
  destruct (_ || dependencyChanged); [by right|by left].
Qed.

Lemma commit_rebuilds parentRenders c r s :
  latest (commit parentRenders true c r s) = setCy (Some initialElements) s.
Proof.
  unfold commit. destruct (tell _ _ _ _) as [selected told].
  by rewrite orb_true_r.
Qed.

Lemma commit_parent parentRenders dependencyChanged c r s :
  parent (commit parentRenders dependencyChanged c r s) = parent c.
Proof.
  unfold commit. destruct (tell _ _ _ _) as [selected told].
  by destruct (_ || dependencyChanged).
Qed.

Lemma mounted_eta c :
  mkMounted (latest c) (subscribed c) (parent c) (page c) (built c) = c.
Proof. by destruct c. Qed.

(** A dependency of the effect has changed. *)
Lemma commit_changed parentRenders c r s :
  ∃ w, commit parentRenders true c r s
       = effect (mkMounted s r (parent c) w (built c)).
Proof.
  unfold commit. destruct (tell _ _ _ _) as [selected told].
  exists selected. by rewrite orb_true_r.
Qed.

End CommitFacts.

(** ** The two-click variant in every state it reaches *)

Section TwoClickSteps.
Import TwoClick.
Implicit Types (r s : State) (c : Mounted Mode).

Lemma twoClickStep_same r s : liveOk s = true → twoClickStep r s r s.
Proof.
  intros Hok. split; [done|]. split; [done|]. split; [done|].
  split; [by left|]. left. by split.
Qed.

(** A function of the latest render that makes no call and sets no
    connection state. *)
Lemma twoClickStep_closure r s s' :
  liveOk s' = true →
  (selectionCurrent s = true → selectionCurrent s' = true) →
  mode s' = mode s →
  onNodeSelect s' = onNodeSelect s →
  Node.id <$> selectedNode s' = Node.id <$> selectedNode s →
  (isConnecting (mode s) = true → Cy.edges (graph s') = Cy.edges (graph s)) →
  twoClickStep r s r s'.
Proof.
  intros Hok Hsel Hmode Hlog Hid Hedges.
  split; [done|]. split; [done|]. split; [done|]. split; [by left|].
  left. split; [by split|]. rewrite Hmode. intros Hconn. by split; [|apply Hedges].
Qed.

(** A handler that selects the node it was given, or clears the selection,
    and reports it. *)
Lemma twoClickStep_select r r' s s' v :
  mode r' = mode r →
  liveOk s = true → cy s' = cy s →
  (∀ d, v = Some d → d ∈ Cy.nodes (graph s)) →
  reported v s s' →
  (mode s' = mode s ∨ firstNode (mode s') = None
   ∨ (isConnecting (mode r) = true ∧ firstNode (mode r) = None ∧ ∃ d, v = Some d)) →
  twoClickStep r s r' s'.
Proof.
  intros Hr Hok Hcy Hv Hrep Hmode.
  split; [done|]. split; [by apply (liveOk_frame s)|]. split.
  - intros _. apply selectionCurrent_true. intros d Hd.
    destruct Hrep as [_ Hsel]. rewrite Hsel in Hd.
    unfold graph. rewrite Hcy. by apply Hv.
  - split; [|right; by exists v].
    destruct Hmode as [?|[?|(? & ? & d & ->)]]; [by left|by right; left|].
    right; right. split; [done|]. split; [done|]. by exists d.
Qed.

Lemma TwoClick_handle_step ev r s :
  liveOk s = true →
  twoClickStep r s (handle ev r s).1 (handle ev r s).2.
Proof.
  intros Hok. destruct ev; simpl.
  - destruct (resolve p (graph s)) as [[|d|d]|] eqn:Hres; simpl;
      [| |by apply twoClickStep_same..].
    + apply (twoClickStep_select _ _ _ _ None); [done|done| |done| |].
      * by destruct (isConnecting (mode r)).
      * split; by destruct (isConnecting (mode r)).
      * destruct (isConnecting (mode r)); [right; by left|by left].
    + apply resolve_in_nodes in Hres.
      unfold tapNode. destruct (isConnecting (mode r)) eqn:Hconn.
      * destruct (firstNode (mode r)) as [first|] eqn:Hfirst.
        -- case_bool_decide; simpl; [|by apply twoClickStep_same].
           apply (twoClickStep_select _ _ _ _ (Some d)); [|done|done| |done|].
           ++ by destruct (createEdge_frame (Node.id first) (Node.id d) r)
                as (_ & _ & _ & _ & ->).
           ++ by intros d' [= <-].
           ++ right. by left.
        -- simpl. apply (twoClickStep_select _ _ _ _ (Some d)); [done..| |done|].
           ++ by intros d' [= <-].
           ++ right; right. split; [done|]. split; [done|]. by exists d.
      * simpl. apply (twoClickStep_select _ _ _ _ (Some d)); [done..| |done|].
        -- by intros d' [= <-].
        -- by left.
  - destruct (addNode_frame isConnecting type now random1 random2 s)
      as (Hsel & _ & _ & Hlog & Hmode).
    apply twoClickStep_closure; [| |done|done|by rewrite Hsel|].
    + by apply liveOk_addNode.
    + by apply selectionCurrent_addNode.
    + intros Hconn. by apply edges_addNode_connecting.
  - destruct (isConnecting (mode s)) eqn:Hconn; [by apply twoClickStep_same|].
    apply (twoClickStep_select _ _ _ _ None); [done..| |right; by left]. done.
  - destruct (isConnecting (mode s)) eqn:Hconn; [|by apply twoClickStep_same].
    split; [done|]. split; [done|]. split; [done|]. split; [right; by left|].
    left. by split.
  - apply twoClickStep_closure.
    + by apply liveOk_runLayout.
    + by apply selectionCurrent_runLayout.
    + apply runLayout_mode.
    + unfold runLayout. by destruct (cy s).
    + unfold runLayout. by destruct (cy s).
    + intros _. apply edges_runLayout.
  - destruct (selectedNode s) as [selected|] eqn:Hsel; [|by apply twoClickStep_same].
    apply twoClickStep_closure.
    + by apply liveOk_startEditing.
    + unfold startEditing. rewrite Hsel. by apply dataOk_frame.
    + apply startEditing_mode.
    + unfold startEditing. by rewrite Hsel.
    + unfold startEditing. rewrite Hsel. simpl. by rewrite Hsel.
    + unfold startEditing. by rewrite Hsel.
  - destruct (selectedNode s) as [selected|] eqn:Hsel; [|by apply twoClickStep_same].
    pose proof (liveOk_graph _ Hok) as (Hcy & _).
    split; [done|]. split; [by apply liveOk_deleteSelected|].
    split; [by apply selectionCurrent_deleteSelected|].
    split; [left; apply deleteSelected_mode|].
    right. exists None. unfold deleteSelected. rewrite Hcy, Hsel. by split.
  - destruct (isEditing s); [|by apply twoClickStep_same].
    by apply twoClickStep_closure.
  - destruct (isEditing s); [|by apply twoClickStep_same].
    apply twoClickStep_closure.
    + by apply liveOk_editKeyDown.
    + by apply selectionCurrent_editKeyDown.
    + apply editKeyDown_mode.
    + apply editKeyDown_quiet.
    + apply editKeyDown_quiet.
    + intros _. apply edges_editKeyDown.
  - destruct (isEditing s); [|by apply twoClickStep_same].
    by apply twoClickStep_closure.
  - destruct (isEditing s); [|by apply twoClickStep_same].
    apply twoClickStep_closure.
    + by apply liveOk_saveEdit.
    + by apply selectionCurrent_saveEdit.
    + apply saveEdit_mode.
    + apply saveEdit_quiet.
    + apply saveEdit_quiet.
    + intros _. apply edges_saveEdit.
  - by apply twoClickStep_same.
Qed.

Lemma twoClickOk_initial h : twoClickOk (initial h).
Proof.
  split; [reflexivity|]. split; [|split; [done|]].
  - intros Hh. simpl in Hh. subst h. split; [by eexists|]. by split.
  - by destruct h.
Qed.

(** After the effect has run again under [Index.tsx]. *)
Lemma twoClickOk_rebuilt s r w n :
  is_Some (onNodeSelect s) →
  (∀ i d, w = Some (i, d) → i ≤ n) →
  Node.id <$> (snd <$> w) = Node.id <$> selectedNode s →
  twoClickOk (effect (mkMounted s r Host.IndexPage w n)).
Proof.
  intros Hlog Hold Hid. split; [reflexivity|]. split; [|split; [done|done]].
  intros _. split; [done|]. split; [|done].
  intros i d Hw. specialize (Hold i d Hw). simpl. lia.
Qed.

Lemma twoClickOk_dispatch c ev : twoClickOk c → twoClickOk (dispatch c ev).
Proof.
  intros (Hok & Hpage & Hheld & Hhost). unfold dispatch.
  pose proof (TwoClick_handle_step ev (subscribed c) (latest c) Hok) as Hstep.
  destruct (handle ev (subscribed c) (latest c)) as [r s] eqn:Hhandle.
  destruct Hstep as (Hr & Hok' & Hsel & Hmode & Hcalls). simpl in *.
  destruct (parent c) eqn:Hparent.
  - (* no function is passed *)
    rewrite commit_inert by by rewrite Hparent.
    destruct Hhost as (Hsub & Hnone & Hbuilt & Hcur).
    assert (firstNode (mode s) = None) as Hnone'.
    { destruct Hmode as [->|[?|(Hconn & _)]]; [done..|].
      by rewrite Hsub in Hconn. }
    split; [done|]. split; [by intros Hh; simpl in Hh; congruence|]. simpl.
    split; [by rewrite Hnone'|]. rewrite Hparent.
    split; [by rewrite Hr|]. split; [done|]. split; [done|by apply Hsel].
  - (* always the same function *)
    rewrite commit_inert by by rewrite Hparent.
    destruct Hhost as (Hsub & Hnone & Hbuilt & Hcur).
    assert (firstNode (mode s) = None) as Hnone'.
    { destruct Hmode as [->|[?|(Hconn & _)]]; [done..|].
      by rewrite Hsub in Hconn. }
    split; [done|]. split; [by intros Hh; simpl in Hh; congruence|]. simpl.
    split; [by rewrite Hnone'|]. rewrite Hparent.
    split; [by rewrite Hr|]. split; [done|]. split; [done|by apply Hsel].
  - (* Index.tsx *)
    destruct (Hpage Hparent) as (Hlog & Hold & Hid).
    destruct Hcalls as [[[Hlog' Hid'] Hedges]|[v [Hlog' Hsel']]].
    + rewrite commit_quiet by done. rewrite Hparent. simpl.
      rewrite andb_true_r, orb_false_r.
      destruct (isParentRenders ev).
      * apply twoClickOk_rebuilt; [by rewrite Hlog'| |by rewrite Hid'].
        intros i d Hw. specialize (Hold i d Hw). lia.
      * split; [done|]. split; [|split].
        -- intros _. simpl. split; [by rewrite Hlog'|]. split; [done|by rewrite Hid'].
        -- simpl. intros Hfirst. rewrite Hr.
           destruct Hmode as [Hm|[?|(_ & _ & d & Hrep & _)]]; [|done|].
           ++ rewrite Hm in Hfirst |- *. by apply Hheld.
           ++ by destruct (reported_not_quiet (latest c) s (Some d) Hlog Hrep).
        -- simpl. intros Hconn Hw. destruct (Hedges Hconn) as [Hconn' ->].
           by apply Hhost.
    + rewrite (commit_told _ _ _ _ _ v) by done.
      rewrite !orb_false_r.
      destruct (Host.sameValue (page c) ((λ d, (built c, d)) <$> v)) eqn:Hsame;
        simpl.
      * (* the page held that value already: both are null *)
        assert (v = None ∧ page c = None) as [-> Hw].
        { destruct v as [d|]; simpl in Hsame.
          - by rewrite (sameValue_new _ _ _ Hold) in Hsame.
          - by destruct (page c) as [[]|]. }
        destruct (isParentRenders ev).
        -- apply twoClickOk_rebuilt; [by rewrite Hlog'; destruct Hlog as [? ->]|done|].
           by rewrite Hsel'.
        -- split; [done|]. split; [|split].
           ++ intros _. simpl. split; [by rewrite Hlog'; destruct Hlog as [? ->]|].
              split; [done|by rewrite Hsel'].
           ++ simpl. intros Hfirst. rewrite Hr.
              destruct Hmode as [Hm|[?|(_ & _ & d & [Hrep _])]]; [|done|].
              ** rewrite Hm in Hfirst |- *. by apply Hheld.
              ** by pose proof (reported_value _ _ _ _ Hlog Hlog' Hrep).
           ++ simpl. done.
      * apply twoClickOk_rebuilt; [by rewrite Hlog'; destruct Hlog as [? ->]| |].
        -- intros i d Hw. destruct v as [e|]; [|done]. injection Hw as <- _. done.
        -- rewrite Hsel'. by destruct v.
Qed.

Lemma twoClickOk_run evs c : twoClickOk c → twoClickOk (run evs c).
Proof.
  revert c. induction evs as [|ev evs IH]; intros c Hok; [done|].
  unfold run. rewrite foldl_cons. by apply IH, twoClickOk_dispatch.
Qed.

(** Every state that the two-click variant reaches. *)
Lemma TwoClick_reachable h evs : twoClickOk (run evs (initial h)).
Proof. apply twoClickOk_run, twoClickOk_initial. Qed.

End TwoClickSteps.

(** ** The drag variant in every state it reaches *)

Section DragSteps.
Import DragConnect.
Implicit Types (r s : State) (c : Mounted Mode).

Lemma dependencyChanged_same ev s s' :
  mode s' = mode s → pressed ev s = false → dependencyChanged ev s s' = false.
Proof.
  intros Hm Hp. unfold dependencyChanged. rewrite Hm, Hp.
  rewrite bool_decide_true by done. by destruct (dragStart (mode s)).
Qed.

Lemma dragStep_same ev r s :
  liveOk s = true → dragStep ev r s r s.
Proof.
  intros Hok. split; [done|]. split; [done|]. split; [|split; [done|]].
  - intros Hshape _ _. split; [done|]. by intros _.
  - left. by split.
Qed.

(** A function of the latest render that makes no call and sets no drag
    state. *)
Lemma dragStep_closure ev r s s' :
  liveOk s' = true →
  mode s' = mode s →
  onNodeSelect s' = onNodeSelect s →
  Node.id <$> selectedNode s' = Node.id <$> selectedNode s →
  (isDragging (mode s) = true → Cy.edges (graph s') = Cy.edges (graph s)) →
  dragStep ev r s r s'.
Proof.
  intros Hok Hmode Hlog Hid Hedges.
  split; [done|]. split; [done|]. split; [|split].
  - rewrite Hmode. intros Hshape _ _. split; [done|]. by intros _.
  - intros Hdrag _. by apply Hedges.
  - left. by split.
Qed.

(** A handler that selects or clears, and reports. *)
Lemma dragStep_select ev r s s' v :
  liveOk s = true → cy s' = cy s → mode s' = mode s →
  reported v s s' →
  dragStep ev r s r s'.
Proof.
  intros Hok Hcy Hmode Hrep.
  split; [done|]. split; [by apply (liveOk_frame s)|]. split; [|split].
  - rewrite Hmode. intros Hshape _ _. split; [done|]. by intros _.
  - intros _ _. unfold graph. by rewrite Hcy.
  - right. by exists v.
Qed.

(** A handler that clears the drag state. *)
Lemma dragStep_reset ev r r' s :
  isDragging (mode r') = isDragging (mode r) →
  dragStart (mode r') = dragStart (mode r) →
  liveOk s = true →
  dragStep ev r s r' (resetDragState s).
Proof.
  intros Hr1 Hr2 Hok.
  split; [done|]. split; [done|]. split; [|split; [done|]].
  - intros Hshape _ _. split; [by left|].
    unfold dependencyChanged. simpl.
    by destruct Hshape as [->|(start & position & ->)].
  - left. by split.
Qed.

Lemma DragConnect_handle_step ev r s :
  liveOk s = true →
  dragStep ev r s (handle ev r s).1 (handle ev r s).2.
Proof.
  intros Hok. destruct ev; simpl.
  - destruct (resolve p (graph s)) as [[|d|d]|] eqn:Hres; simpl;
      [| |by apply dragStep_same..].
    + destruct (isDragging (mode r)); simpl; [by apply dragStep_same|].
      by apply (dragStep_select _ _ _ _ None).
    + unfold tapNode. destruct (isDragging (mode r)); simpl; [by apply dragStep_same|].
      by apply (dragStep_select _ _ _ _ (Some d)).
  - destruct (resolve p (graph s)) as [[|d|d]|] eqn:Hres; simpl;
      [by apply dragStep_same| |by apply dragStep_same..].
    split; [done|]. split; [done|]. split; [|split].
    + intros _ _ _. split; [right; by eexists _, _|].
      unfold dependencyChanged. simpl. rewrite Hres.
      destruct (isDragging (mode s)), (dragStart (mode s)); simpl; try done.
    + intros _ _. done.
    + left. by split.
  - unfold mousemove.
    destruct (isDragging (mode r)) eqn:Hdrag; [|by apply dragStep_same].
    destruct (dragStart (mode r)) as [start|] eqn:Hstart; [|by apply dragStep_same].
    destruct containerRect as [[rectLeft rectTop]|]; [|by apply dragStep_same].
    simpl. split; [done|]. split; [done|]. split; [|split; [done|]].
    + intros Hshape Hd Hs.
      destruct Hshape as [Hm|(start' & position & Hm)].
      { rewrite Hm in Hd. simpl in Hd. congruence. }
      split; [right; simpl; rewrite Hm; by eexists _, _|].
      intros _. done.
    + left. by split.
  - destruct (resolve p (graph s)) as [[|d|d]|] eqn:Hres; simpl;
      [| |by apply dragStep_same..].
    + destruct (isDragging (mode r)); [|by apply dragStep_same].
      by apply dragStep_reset.
    + unfold mouseupNode. destruct (isDragging (mode r)) eqn:Hdrag;
        [|by apply dragStep_same].
      destruct (dragStart (mode r)) as [start|] eqn:Hstart; [|by apply dragStep_same].
      simpl. apply dragStep_reset; [| |done].
      * case_bool_decide; [|done].
        by destruct (createEdge_frame (DragStart.nodeId start) (Node.id d) r)
          as (_ & _ & _ & _ & ->).
      * case_bool_decide; [|done].
        by destruct (createEdge_frame (DragStart.nodeId start) (Node.id d) r)
          as (_ & _ & _ & _ & ->).
  - destruct (addNode_frame isDragging type now random1 random2 s)
      as (Hsel & _ & _ & Hlog & Hmode).
    apply dragStep_closure; [|done|done|by rewrite Hsel|].
    + by apply liveOk_addNode.
    + intros Hdrag. by apply edges_addNode_connecting.
  - apply dragStep_closure.
    + by apply liveOk_runLayout.
    + apply runLayout_mode.
    + unfold runLayout. by destruct (cy s).
    + unfold runLayout. by destruct (cy s).
    + intros _. apply edges_runLayout.
  - destruct (selectedNode s) as [selected|] eqn:Hsel; [|by apply dragStep_same].
    destruct (isDragging (mode s)); [by apply dragStep_same|].
    apply dragStep_closure.
    + by apply liveOk_startEditing.
    + apply startEditing_mode.
    + unfold startEditing. by rewrite Hsel.
    + unfold startEditing. rewrite Hsel. simpl. by rewrite Hsel.
    + unfold startEditing. by rewrite Hsel.
  - destruct (selectedNode s) as [selected|] eqn:Hsel; [|by apply dragStep_same].
    destruct (isDragging (mode s)) eqn:Hdrag; [by apply dragStep_same|].
    pose proof (liveOk_graph _ Hok) as (Hcy & _).
    split; [done|]. split; [by apply liveOk_deleteSelected|]. split; [|split].
    * rewrite deleteSelected_mode. intros Hshape _ _. split; [done|].
      intros _. done.
    * by rewrite Hdrag.
    * right. exists None. unfold deleteSelected. rewrite Hcy, Hsel. by split.
  - destruct (isEditing s); [|by apply dragStep_same].
    by apply dragStep_closure.
  - destruct (isEditing s); [|by apply dragStep_same].
    apply dragStep_closure.
    + by apply liveOk_editKeyDown.
    + apply editKeyDown_mode.
    + apply editKeyDown_quiet.
    + apply editKeyDown_quiet.
    + intros _. apply edges_editKeyDown.
  - destruct (isEditing s); [|by apply dragStep_same].
    by apply dragStep_closure.
  - destruct (isEditing s); [|by apply dragStep_same].
    apply dragStep_closure.
    + by apply liveOk_saveEdit.
    + apply saveEdit_mode.
    + apply saveEdit_quiet.
    + apply saveEdit_quiet.
    + intros _. apply edges_saveEdit.
  - by apply dragStep_same.
Qed.

Lemma dragOk_initial h : dragOk (initial h).
Proof.
  split; [reflexivity|]. split; [|repeat split; by left].
  intros Hh. simpl in Hh. subst h. split; [by eexists|]. by split.
Qed.

(** After the effect has run again. *)
Lemma dragOk_rebuilt s r h w n :
  dragShape (mode s) →
  (h = Host.IndexPage →
   is_Some (onNodeSelect s)
   ∧ (∀ i d, w = Some (i, d) → i ≤ n)
   ∧ Node.id <$> (snd <$> w) = Node.id <$> selectedNode s) →
  dragOk (effect (mkMounted s r h w n)).
Proof.
  intros Hshape Hpage. split; [reflexivity|]. split; [|repeat split; done].
  intros Hh. simpl in Hh. destruct (Hpage Hh) as (Hlog & Hold & Hid).
  split; [done|]. split; [|done].
  intros i d Hw. specialize (Hold i d Hw). simpl. lia.
Qed.

(** After an event that has changed no dependency of the effect. *)
Lemma dragOk_kept ev c r s w :
  dragOk c →
  dragStep ev (subscribed c) (latest c) r s →
  dependencyChanged ev (latest c) s = false →
  (parent c = Host.IndexPage →
   is_Some (onNodeSelect s)
   ∧ (∀ i d, w = Some (i, d) → i < built c)
   ∧ Node.id <$> (snd <$> w) = Node.id <$> selectedNode s) →
  dragOk (mkMounted s r (parent c) w (built c)).
Proof.
  intros (Hok & _ & Hd & Hs & Hshape & Hedges)
         ((Hr1 & Hr2) & Hok' & Hstep & Hedges' & _) Hdep Hpage.
  destruct (Hstep Hshape Hd Hs) as (Hshape' & Hsame).
  destruct (Hsame Hdep) as [Hd' Hs'].
  split; [done|]. split; [done|]. simpl.
  split; [congruence|]. split; [congruence|]. split; [done|].
  intros Hdrag. rewrite Hedges'; [|congruence|done]. apply Hedges. congruence.
Qed.

Lemma dragOk_dispatch c ev : dragOk c → dragOk (dispatch c ev).
Proof.
  intros Hc. pose proof Hc as (Hok & Hpage & Hd & Hs & Hshape & Hedges).
  unfold dispatch.
  pose proof (DragConnect_handle_step ev (subscribed c) (latest c) Hok) as Hstep.
  destruct (handle ev (subscribed c) (latest c)) as [r s] eqn:Hhandle.
  simpl in Hstep.
  pose proof Hstep as (_ & _ & Hmode & _ & Hcalls).
  destruct (Hmode Hshape Hd Hs) as (Hshape' & _).
  destruct (decide (parent c = Host.IndexPage)) as [Hparent|Hparent].
  - destruct (Hpage Hparent) as (Hlog & Hold & Hid).
    destruct Hcalls as [[Hlog' Hid']|[v [Hlog' Hsel']]].
    + rewrite commit_quiet by done.
      destruct (_ || _) eqn:Hrun.
      * apply dragOk_rebuilt; [done|]. intros _.
        split; [by rewrite Hlog'|]. split; [|by rewrite Hid'].
        intros i d Hw. specialize (Hold i d Hw). lia.
      * apply orb_false_iff in Hrun as [_ Hdep].
        apply (dragOk_kept ev); [done..|]. intros _.
        split; [by rewrite Hlog'|]. split; [done|by rewrite Hid'].
    + rewrite (commit_told _ _ _ _ _ v) by done. rewrite <-Hparent.
      assert (is_Some (onNodeSelect s)) as Hlogs
        by (rewrite Hlog'; by destruct Hlog as [? ->]).
      destruct (_ || _) eqn:Hrun.
      * apply dragOk_rebuilt; [done|]. intros _. split; [done|]. split.
        -- intros i d Hw. destruct v as [e|]; [|done]. by injection Hw as <- _.
        -- rewrite Hsel'. by destruct v.
      * apply orb_false_iff in Hrun as [[Hsame _]%orb_false_iff Hdep].
        apply negb_false_iff in Hsame.
        assert (v = None) as ->.
        { destruct v as [d|]; [|done]. simpl in Hsame.
          by rewrite (sameValue_new _ _ _ Hold) in Hsame. }
        apply (dragOk_kept ev); [done..|]. intros _.
        split; [done|]. split; [done|by rewrite Hsel'].
  - rewrite commit_inert by by destruct (parent c).
    destruct (dependencyChanged ev (latest c) s) eqn:Hdep.
    + by apply dragOk_rebuilt.
    + by apply (dragOk_kept ev).
Qed.

Lemma dragOk_run evs c : dragOk c → dragOk (run evs c).
Proof.
  revert c. induction evs as [|ev evs IH]; intros c Hok; [done|].
  unfold run. rewrite foldl_cons. by apply IH, dragOk_dispatch.
Qed.

(** Every state that the drag variant reaches. *)
Lemma DragConnect_reachable h evs : dragOk (run evs (initial h)).
Proof. apply dragOk_run, dragOk_initial. Qed.

End DragSteps.

(** ** The parent stays the same *)

Lemma TwoClick_parent h evs : parent (TwoClick.run evs (TwoClick.initial h)) = h.
Proof.
  unfold TwoClick.run. induction evs as [|ev evs IH] using rev_ind; [done|].
  rewrite foldl_app. simpl. unfold TwoClick.dispatch at 1.
  destruct (TwoClick.handle _ _ _) as [r s]. by rewrite commit_parent.
Qed.

Lemma DragConnect_parent h evs :
  parent (DragConnect.run evs (DragConnect.initial h)) = h.
Proof.
  unfold DragConnect.run. induction evs as [|ev evs IH] using rev_ind; [done|].
  rewrite foldl_app. simpl. unfold DragConnect.dispatch at 1.
  destruct (DragConnect.handle _ _ _) as [r s]. by rewrite commit_parent.
Qed.

(** ** Self-loops *)

(** A call of [createEdge] with the source equal to the target that the
    code makes, and the loop it adds.  With no function passed by the
    parent: Add Node, then a tap on the new node.  The new node is
    selected and the instance has no edge; [createEdge] on that node and
    itself adds the loop, the edge count goes from 0 to 1.  A second click
    on Add Node while the clock shows the same reading makes this call:
    the store refuses the node, whose id is in use, and [addNode] goes on
    to connect the selected node to the id it has generated. *)
Lemma createEdge_self_loop_added :
  let c := TwoClick.run
             [TwoClick.ClickAddNode primary 1700000000000 0.5 0.5;
              TwoClick.Tap (AtElement "node-1700000000000")]
             (TwoClick.initial Host.NoCallback) in
  let s := latest c in
  let X := "node-1700000000000" in
  Cy.hasNode (graph s) X = true
  ∧ edgeCount s = 0
  ∧ edgeCount (createEdge X X s) = 1
  ∧ Cy.edges (graph (createEdge X X s))
    = [Edge.mk "edge-node-1700000000000-node-1700000000000" X X]
  ∧ graph (latest (TwoClick.dispatch c
                     (TwoClick.ClickAddNode primary 1700000000000 0.25 0.75)))
    = graph (createEdge X X s).
Proof. by vm_compute. Qed.

(** C2, as amended. [createEdge] does not compare its two arguments: for a
    node X of a well-formed instance, [createEdge] on X and X appends the
    loop on X when no loop on X is there, and leaves the state as it is
    when one is.  Two handlers compare the ids before they call it.  The
    tap handler of the two-click variant, when its render is connecting
    with a first node that has the id of the tapped node, makes no call and
    changes nothing.  The mouseup handler of the drag variant, when its
    render is dragging from the node with the id of the node released on,
    makes no call and resets the drag state. *)
Theorem self_loop_kept_out_by_handlers {M : Type} (s : Canvas M) (g : Cy.Core)
    (X : Node.data)
    (ra sa : TwoClick.State) (first : Node.data)
    (rb sb : DragConnect.State) (start : DragStart.t) :
  cy s = Some g → wellFormed g = true → Cy.hasNode g (Node.id X) = true →
  TwoClick.isConnecting (mode ra) = true →
  TwoClick.firstNode (mode ra) = Some first →
  Node.id first = Node.id X →
  DragConnect.isDragging (mode rb) = true →
  DragConnect.dragStart (mode rb) = Some start →
  DragStart.nodeId start = Node.id X →
  (Cy.edgesJoining (Node.id X) (Node.id X) g = [] →
   graph (createEdge (Node.id X) (Node.id X) s)
   = g ++ [EdgeEl (Edge.mk (edgeId (Node.id X) (Node.id X)) (Node.id X) (Node.id X))]
   ∧ edgeCount (createEdge (Node.id X) (Node.id X) s) = S (edgeCount s))
  ∧ (Cy.edgesJoining (Node.id X) (Node.id X) g ≠ [] →
     createEdge (Node.id X) (Node.id X) s = s)
  ∧ TwoClick.tapNode X ra sa = (ra, sa)
  ∧ DragConnect.mouseupNode X rb sb = (rb, DragConnect.resetDragState sb).
Proof.
  intros Hcy Hwf HX Hconn Hfirst Hida Hdrag Hstart Hidb.
  split; [|split; [|split]].
  - intros Hnone.
    pose proof (createEdge_appends _ _ s g Hcy Hwf HX HX Hnone) as Hg.
    split; [done|]. unfold edgeCount. rewrite Hg, edges_snoc_edge, length_app.
    rewrite (graph_Some s g Hcy). simpl. lia.
  - intros Hloop. apply createEdge_joined_noop. by rewrite (graph_Some s g Hcy).
  - unfold TwoClick.tapNode. rewrite Hconn, Hfirst, Hida.
    by rewrite bool_decide_false by (intros ?; done).
  - unfold DragConnect.mouseupNode. rewrite Hdrag, Hstart, Hidb.
    by rewrite bool_decide_false by (intros ?; done).
Qed.

Lemma self_loop_kept_out_by_handlers_witness :
  let c := TwoClick.run
             [TwoClick.ClickAddNode primary 1700000000000 0.5 0.5;
              TwoClick.Tap (AtElement "root")]
             (TwoClick.initial Host.NoCallback) in
  let a := TwoClick.run
             [TwoClick.ClickConnect; TwoClick.Tap (AtElement "root");
              TwoClick.Tap (AtElement "root")]
             (TwoClick.initial Host.IndexPage) in
  let b := DragConnect.run
             [DragConnect.MouseDown (AtElement "root") (Position.mk 400 300)]
             (DragConnect.initial Host.NoCallback) in
  let X := Node.mk "root" "Main Idea" root in
  TwoClick.firstNode (mode (subscribed a)) = Some X
  ∧ DragConnect.dragStart (mode (subscribed b)) = Some (DragStart.mk 400 300 "root")
  ∧ edgeCount (createEdge "root" "root" (latest c)) = 1
  ∧ TwoClick.tapNode X (subscribed a) (latest a) = (subscribed a, latest a)
  ∧ DragConnect.mouseupNode X (subscribed b) (latest b)
    = (subscribed b, DragConnect.resetDragState (latest b)).
Proof.
  intros c a b X. split; [reflexivity|]. split; [reflexivity|].
  destruct (self_loop_kept_out_by_handlers (latest c) (graph (latest c)) X
              (subscribed a) (latest a) X
              (subscribed b) (latest b) (DragStart.mk 400 300 "root"))
    as (Hadds & _ & Ha & Hb); [reflexivity..|].
  destruct (Hadds eq_refl) as [_ Hcount].
  split; [exact Hcount|by split].
Defined.

(** ** Deleting the selected node *)

(** C3. [deleteSelected] on a state whose selected node N is a node of the
    graph removes N and every edge whose source or target is N: afterwards
    no node has the id of N and no edge refers to it.  Exactly those
    elements go (with any element that has the id itself); the selection
    is cleared. *)
Theorem deleteSelected_cascades {M : Type} (s : Canvas M) (g : Cy.Core)
    (N : Node.data) :
  cy s = Some g → selectedNode s = Some N → Cy.hasNode g (Node.id N) = true →
  let s' := deleteSelected s in
  Cy.hasNode (graph s') (Node.id N) = false
  ∧ (∀ d, d ∈ Cy.edges (graph s') →
          Edge.source d ≠ Node.id N ∧ Edge.target d ≠ Node.id N)
  ∧ (∀ e, e ∈ graph s' ↔
          e ∈ g ∧ Cy.elementId e ≠ Node.id N
          ∧ match e with
            | NodeEl _ _ => True
            | EdgeEl d => Edge.source d ≠ Node.id N ∧ Edge.target d ≠ Node.id N
            end)
  ∧ selectedNode s' = None.
Proof.
  intros Hcy Hsel HN s'.
  assert (graph s' = Cy.remove (Node.id N) g) as Hg.
  { unfold s', deleteSelected. by rewrite Hcy, Hsel. }
  assert (∀ e, e ∈ graph s' ↔
          e ∈ g ∧ Cy.elementId e ≠ Node.id N
          ∧ match e with
            | NodeEl _ _ => True
            | EdgeEl d => Edge.source d ≠ Node.id N ∧ Edge.target d ≠ Node.id N
            end) as Hchar.
  { intros e. rewrite Hg, elem_of_remove, HN. destruct e as [d p|d]; simpl.
    - rewrite negb_true_iff, bool_decide_eq_false. tauto.
    - rewrite andb_true_iff, !negb_true_iff, orb_false_iff, !bool_decide_eq_false.
      tauto. }
  split; [|split; [|split]]; [| |done|].
  - apply hasNode_false.
    intros (d & Hid & [p Hin]%elem_of_nodes)%list_elem_of_fmap.
    apply Hchar in Hin as (_ & Hne & _). simpl in Hne. congruence.
  - intros d Hin%elem_of_edges%Hchar. tauto.
  - unfold s', deleteSelected. by rewrite Hcy, Hsel.
Qed.

Lemma deleteSelected_cascades_witness :
  let s := latest (TwoClick.run
             [TwoClick.Tap (AtElement "root");
              TwoClick.ClickAddNode primary 1700000000000 0.5 0.5;
              TwoClick.Tap (AtElement "node-1700000000000")]
             (TwoClick.initial Host.NoCallback)) in
  nodeCount s = 2 ∧ edgeCount s = 1
  ∧ Cy.hasNode (graph (deleteSelected s)) "node-1700000000000" = false
  ∧ nodeCount (deleteSelected s) = 1 ∧ edgeCount (deleteSelected s) = 0.
Proof.
  intros s. split; [reflexivity|]. split; [reflexivity|]. split.
  - eapply (deleteSelected_cascades s _ (Node.mk "node-1700000000000" "New Idea" primary));
      reflexivity.
  - split; reflexivity.
Defined.

(** ** Generated node ids *)

(** C4, the behaviour of the code on two [addNode] calls that read the same
    clock value: the second call generates the id of the first, the store
    refuses it, and the second call changes nothing; no node is added for
    it, whatever the type and the position asked for.  From the initial
    graph two such calls leave two nodes, not three, whoever the parent
    is. *)
Theorem addNode_same_reading_adds_nothing {M : Type} (connecting : M → bool)
    (s : Canvas M) (type1 type2 : NodeType) (now : Z)
    (random1 random2 random3 random4 : float) (h : Host.t) :
  let s1 := addNode connecting type1 now random1 random2 s in
  addNode connecting type2 now random3 random4 s1 = s1
  ∧ nodeCount
      (latest
         (TwoClick.run [TwoClick.ClickAddNode primary 1700000000000 0.25 0.75;
                        TwoClick.ClickAddNode accent 1700000000000 0.5 0.5]
            (TwoClick.initial h))) = 2.
Proof.
  intros s1. split; [|by destruct h].
  destruct (cy s) as [g|] eqn:Hcy.
  2:{ unfold s1. by rewrite !(addNode_unmounted connecting _ _ _ _ s Hcy). }
  pose proof (addNode_mounted connecting type1 now random1 random2 s g Hcy) as Hcy1.
  pose proof (addNode_elementId connecting type1 now random1 random2 s g Hcy) as Hid.
  destruct (addNode_frame connecting type1 now random1 random2 s)
    as (Hsel & _ & _ & _ & Hmode).
  fold s1 in Hcy1, Hid, Hsel, Hmode.
  destruct (addNode_steps connecting type2 now random3 random4 s1 _ Hcy1)
    as [position2 ->]. cbv zeta.
  rewrite (add_used (NodeEl _ _)) by exact Hid.
  rewrite <-Hcy1, setCy_same, Hsel, Hmode.
  destruct (selectedNode s) as [selected|] eqn:Hselected; [|done].
  destruct (negb (connecting (mode s))) eqn:Hguard; [|done].
  unfold s1.
  destruct (addNode_steps connecting type1 now random1 random2 s g Hcy)
    as [position1 ->]. cbv zeta.
  rewrite Hselected, Hguard. apply createEdge_idem.
Qed.

(** What the refused node leaves behind when a node is selected: the edge
    [addNode] creates next goes to the node of the earlier call, and is a
    loop when that node is the selected one. *)
Lemma addNode_same_reading_edges :
  let first := TwoClick.ClickAddNode primary 1700000000000 0.5 0.5 in
  let again := TwoClick.ClickAddNode primary 1700000000000 0.25 0.75 in
  Cy.edges (graph (latest (TwoClick.run
                             [first; TwoClick.Tap (AtElement "root"); again]
                             (TwoClick.initial Host.NoCallback))))
  = [Edge.mk "edge-root-node-1700000000000" "root" "node-1700000000000"]
  ∧ Cy.edges (graph (latest (TwoClick.run
                       [first; TwoClick.Tap (AtElement "node-1700000000000"); again]
                       (TwoClick.initial Host.NoCallback))))
    = [Edge.mk "edge-node-1700000000000-node-1700000000000"
               "node-1700000000000" "node-1700000000000"].
Proof. by vm_compute. Qed.

(** Two different clock readings give two different ids. *)
Lemma nodeIdAt_distinct now1 now2 : now1 ≠ now2 → nodeIdAt now1 ≠ nodeIdAt now2.
Proof. intros Hne Heq. by apply Hne, nodeIdAt_inj. Qed.

(** ** Aborting a connection *)

(** The tap handlers leave the instance of the state alone. *)
Lemma TwoClick_tap_cy p r s :
  cy (TwoClick.handle (TwoClick.Tap p) r s).2 = cy s.
Proof.
  simpl. destruct (resolve p (graph s)) as [[|d|d]|]; simpl; [|  |done|done].
  - by destruct (TwoClick.isConnecting (mode r)).
  - unfold TwoClick.tapNode. destruct (TwoClick.isConnecting (mode r)); [|done].
    destruct (TwoClick.firstNode (mode r)); [|done]. by case_bool_decide.
Qed.

(** With no function passed by the parent the tap on the empty canvas does
    not leave connecting mode: the handler sees [isConnecting] as it was
    when the component mounted. *)
Lemma tap_background_stays_connecting :
  let c := TwoClick.run [TwoClick.ClickConnect; TwoClick.Tap AtBackground]
             (TwoClick.initial Host.NoCallback) in
  TwoClick.isConnecting (mode (latest c)) = true
  ∧ TwoClick.firstNode (mode (latest c)) = None.
Proof. by vm_compute. Qed.

(** C6. In every state that the components reach, whoever the parent is,
    while a connection is in progress aborting it leaves the edges of the
    instance as they were and leaves no node held for the connection: in
    the two-click variant, with [isConnecting] set, after a tap on the
    empty canvas [firstNode] is [null], and after Cancel the instance is
    the same, [firstNode] is [null] and [isConnecting] is off; in the drag
    variant, with a drag started from a node, after a release on the empty
    canvas or on a node with the id of the start node the drag state is
    clear. *)
Theorem abort_leaves_edges (h : Host.t) (evsA : list TwoClick.Event)
    (evsB : list DragConnect.Event) (start : DragStart.t) (p : Pointer) :
  let a := TwoClick.run evsA (TwoClick.initial h) in
  let b := DragConnect.run evsB (DragConnect.initial h) in
  TwoClick.isConnecting (mode (latest a)) = true →
  DragConnect.dragStart (mode (latest b)) = Some start →
  (p = AtBackground
   ∨ ∃ d, resolve p (graph (latest b)) = Some (OnNode d)
          ∧ Node.id d = DragStart.nodeId start) →
  (let a' := TwoClick.dispatch a (TwoClick.Tap AtBackground) in
   Cy.edges (graph (latest a')) = Cy.edges (graph (latest a))
   ∧ edgeCount (latest a') = edgeCount (latest a)
   ∧ TwoClick.firstNode (mode (latest a')) = None)
  ∧ (let a' := TwoClick.dispatch a TwoClick.ClickCancelConnect in
     cy (latest a') = cy (latest a)
     ∧ edgeCount (latest a') = edgeCount (latest a)
     ∧ mode (latest a') = TwoClick.mkMode false None)
  ∧ (let b' := DragConnect.dispatch b (DragConnect.MouseUp p) in
     Cy.edges (graph (latest b')) = Cy.edges (graph (latest b))
     ∧ edgeCount (latest b') = edgeCount (latest b)
     ∧ mode (latest b') = DragConnect.mkMode false None None).
Proof.
  intros a b Hconn Hstart Hp.
  destruct (TwoClick_reachable h evsA) as (Hoka & Hpagea & Hheld & Hhost).
  destruct (DragConnect_reachable h evsB)
    as (Hokb & Hpageb & Hdrag & Hsub & Hshape & Hnone).
  pose proof (TwoClick_parent h evsA) as Hparent.
  fold a in Hoka, Hpagea, Hheld, Hhost, Hparent.
  fold b in Hokb, Hpageb, Hdrag, Hsub, Hshape, Hnone.
  split; [|split].
  - (* a tap on the empty canvas *)
    set (s1 := ((if TwoClick.isConnecting (mode (subscribed a))
                 then latest a |> TwoClick.setIsConnecting false
                               |> TwoClick.setFirstNode None
                 else latest a)
                  |> setSelectedNode None |> notify None)).
    assert (TwoClick.dispatch a (TwoClick.Tap AtBackground)
            = commit false false a (subscribed a) s1) as -> by done.
    assert (graph s1 = graph (latest a)) as Hg
      by (unfold s1; by destruct (TwoClick.isConnecting (mode (subscribed a)))).
    assert (TwoClick.firstNode (mode s1) = None) as Hfirst.
    { unfold s1. destruct (TwoClick.isConnecting (mode (subscribed a))) eqn:Hr;
        [done|]. simpl.
      destruct (TwoClick.firstNode (mode (latest a))) as [first|] eqn:Hf; [|done].
      rewrite Hheld in Hr by done. congruence. }
    assert (Cy.edges (graph (latest (commit false false a (subscribed a) s1)))
            = Cy.edges (graph (latest a))) as Hedges.
    { destruct (decide (parent a = Host.IndexPage)) as [Hindex|Hother].
      - destruct (Hpagea Hindex) as (Hlog & _).
        rewrite (commit_told _ _ _ _ _ None) by
          (try done; unfold s1; by destruct (TwoClick.isConnecting (mode (subscribed a)))).
        rewrite !orb_false_r. rewrite Hindex in Hhost.
        destruct (page a) as [[i d]|] eqn:Hw; simpl; [|by rewrite Hg].
        symmetry. by apply Hhost.
      - rewrite commit_inert by by destruct (parent a).
        simpl. by rewrite Hg. }
    split; [done|]. split; [unfold edgeCount; by rewrite Hedges|].
    by destruct (commit_latest false false a (subscribed a) s1) as [->| ->].
  - (* Cancel *)
    assert (TwoClick.dispatch a TwoClick.ClickCancelConnect
            = commit false false a (subscribed a)
                (TwoClick.cancelConnecting (latest a))) as ->.
    { unfold TwoClick.dispatch. simpl. by rewrite Hconn. }
    by rewrite commit_quiet.
  - (* a release *)
    assert (DragConnect.isDragging (mode (latest b)) = true) as Hon.
    { destruct Hshape as [Hm|(start' & position & Hm)]; rewrite Hm in Hstart |- *;
        done. }
    assert (DragConnect.handle (DragConnect.MouseUp p) (subscribed b) (latest b)
            = (subscribed b, DragConnect.resetDragState (latest b))) as Hhandle.
    { simpl. destruct Hp as [->|(d & -> & Hid)]; simpl.
      - by rewrite Hdrag, Hon.
      - unfold DragConnect.mouseupNode. rewrite Hdrag, Hon, Hsub, Hstart, Hid.
        by rewrite bool_decide_false by (intros ?; done). }
    unfold DragConnect.dispatch. rewrite Hhandle.
    assert (DragConnect.dependencyChanged (DragConnect.MouseUp p) (latest b)
              (DragConnect.resetDragState (latest b)) = true) as ->.
    { unfold DragConnect.dependencyChanged. by rewrite Hon. }
    rewrite commit_rebuilds. unfold edgeCount. simpl. by rewrite Hnone.
Qed.

Lemma abort_leaves_edges_witness :
  let a := TwoClick.run
             [TwoClick.ClickConnect; TwoClick.Tap (AtElement "root");
              TwoClick.Tap (AtElement "root")]
             (TwoClick.initial Host.IndexPage) in
  let b := DragConnect.run
             [DragConnect.MouseDown (AtElement "root") (Position.mk 400 300)]
             (DragConnect.initial Host.IndexPage) in
  TwoClick.firstNode (mode (latest a)) = Some (Node.mk "root" "Main Idea" root)
  ∧ TwoClick.firstNode
      (mode (latest (TwoClick.dispatch a (TwoClick.Tap AtBackground)))) = None
  ∧ mode (latest (TwoClick.dispatch a TwoClick.ClickCancelConnect))
    = TwoClick.mkMode false None
  ∧ mode (latest (DragConnect.dispatch b (DragConnect.MouseUp (AtElement "root"))))
    = DragConnect.mkMode false None None.
Proof.
  intros a b. split; [reflexivity|].
  destruct (abort_leaves_edges Host.IndexPage
              [TwoClick.ClickConnect; TwoClick.Tap (AtElement "root");
               TwoClick.Tap (AtElement "root")]
              [DragConnect.MouseDown (AtElement "root") (Position.mk 400 300)]
              (DragStart.mk 400 300 "root") (AtElement "root"))
    as ((_ & _ & Htap) & (_ & _ & Hcancel) & (_ & _ & Hrelease));
    [reflexivity|reflexivity| |].
  - right. exists (Node.mk "root" "Main Idea" root). by split.
  - split; [exact Htap|]. split; [exact Hcancel|exact Hrelease].
Defined.

(** ** The second tap of the two-click protocol *)

(** C7, the behaviour of the code on the second tap.  A tap never adds an
    edge to the live instance: after it the instance has the elements it
    had, or is a new one with the root alone.  With no function passed by
    the parent, after Add Node, Connect, a tap on the root and a tap on
    the new node, no edge joins the two, connecting mode is still on and
    no first node is held: the handlers see [isConnecting] as it was when
    the component mounted.  Under [Index.tsx], where a first node does get
    held, the tap on a second node leaves the live instance without an
    edge as well: the [createEdge] of the handler acts on the instance that
    has been destroyed. *)
Theorem tapNode_second_adds_no_edge (c : Mounted TwoClick.Mode) (p : Pointer) :
  (graph (latest (TwoClick.dispatch c (TwoClick.Tap p))) = graph (latest c)
   ∨ graph (latest (TwoClick.dispatch c (TwoClick.Tap p))) = initialElements)
  ∧ (let B := Node.mk "node-1700000000000" "New Idea" primary in
     let c3 := TwoClick.run
                 [TwoClick.ClickAddNode primary 1700000000000 0.5 0.5;
                  TwoClick.ClickConnect;
                  TwoClick.Tap (AtElement "root")]
                 (TwoClick.initial Host.NoCallback) in
     let c4 := TwoClick.dispatch c3 (TwoClick.Tap (AtElement "node-1700000000000")) in
     Cy.nodes (graph (latest c3)) = [Node.mk "root" "Main Idea" root; B]
     ∧ mode (latest c3) = TwoClick.mkMode true None
     ∧ mode (subscribed c3) = TwoClick.mkMode false None
     ∧ Cy.nodes (graph (latest c4)) = [Node.mk "root" "Main Idea" root; B]
     ∧ Cy.edges (graph (latest c4)) = []
     ∧ mode (latest c4) = TwoClick.mkMode true None
     ∧ selectedNode (latest c4) = Some B)
  ∧ (let A := Node.mk "root" "Main Idea" root in
     let c4 := TwoClick.run
                 [TwoClick.ClickConnect;
                  TwoClick.Tap (AtElement "root");
                  TwoClick.Tap (AtElement "root");
                  TwoClick.ClickAddNode primary 1700000000000 0.5 0.5]
                 (TwoClick.initial Host.IndexPage) in
     let c5 := TwoClick.dispatch c4 (TwoClick.Tap (AtElement "node-1700000000000")) in
     mode (latest c4) = TwoClick.mkMode true (Some A)
     ∧ mode (subscribed c4) = TwoClick.mkMode true (Some A)
     ∧ Cy.hasNode (graph (latest c4)) "node-1700000000000" = true
     ∧ Cy.edges (graph (latest c4)) = []
     ∧ Cy.edges (graph (latest c5)) = []).
Proof.
  split; [|split; by vm_compute].
  unfold TwoClick.dispatch.
  pose proof (TwoClick_tap_cy p (subscribed c) (latest c)) as Hcy.
  destruct (TwoClick.handle _ _ _) as [r s]. simpl in Hcy. simpl.
  destruct (commit_latest false false c r s) as [->| ->]; [left|by right].
  unfold graph. by rewrite Hcy.
Qed.

(** C10. In every state that the two-click variant reaches, whoever the
    parent is: in connecting mode with the first node A held, a tap on a
    node of the instance that has the id of A changes nothing.  The tap
    handler makes no call and sets no state, and the component after the
    tap is the component before it: no edge is added, connecting mode
    stays on with A held, and neither the selection nor the calls made to
    the parent change. *)
Theorem tapNode_first_again_noop (h : Host.t) (evs : list TwoClick.Event)
    (A X : Node.data) (p : Pointer) :
  let c := TwoClick.run evs (TwoClick.initial h) in
  TwoClick.isConnecting (mode (latest c)) = true →
  TwoClick.firstNode (mode (latest c)) = Some A →
  resolve p (graph (latest c)) = Some (OnNode X) →
  Node.id X = Node.id A →
  let c' := TwoClick.dispatch c (TwoClick.Tap p) in
  TwoClick.tapNode X (subscribed c) (latest c) = (subscribed c, latest c)
  ∧ c' = c
  ∧ edgeCount (latest c') = edgeCount (latest c)
  ∧ TwoClick.isConnecting (mode (latest c')) = true
  ∧ TwoClick.firstNode (mode (latest c')) = Some A
  ∧ selectedNode (latest c') = selectedNode (latest c)
  ∧ onNodeSelect (latest c') = onNodeSelect (latest c)
  ∧ page c' = page c.
Proof.
  intros c Hconn Hfirst Hres Hid c'.
  destruct (TwoClick_reachable h evs) as (_ & _ & Hheld & _). fold c in Hheld.
  assert (TwoClick.tapNode X (subscribed c) (latest c) = (subscribed c, latest c))
    as Htap.
  { unfold TwoClick.tapNode. rewrite Hheld by by rewrite Hfirst.
    rewrite Hconn, Hfirst, Hid. by rewrite bool_decide_false by (intros ?; done). }
  assert (c' = c) as ->.
  { unfold c', TwoClick.dispatch. simpl. rewrite Hres, Htap. simpl.
    rewrite commit_quiet by done. simpl. apply mounted_eta. }
  done.
Qed.

Lemma tapNode_first_again_noop_witness :
  let c := TwoClick.run
             [TwoClick.ClickConnect; TwoClick.Tap (AtElement "root");
              TwoClick.Tap (AtElement "root")]
             (TwoClick.initial Host.IndexPage) in
  TwoClick.firstNode (mode (latest c)) = Some (Node.mk "root" "Main Idea" root)
  ∧ TwoClick.dispatch c (TwoClick.Tap (AtElement "root")) = c.
Proof.
  intros c. split; [reflexivity|].
  apply (tapNode_first_again_noop Host.IndexPage
           [TwoClick.ClickConnect; TwoClick.Tap (AtElement "root");
            TwoClick.Tap (AtElement "root")]
           (Node.mk "root" "Main Idea" root) (Node.mk "root" "Main Idea" root)
           (AtElement "root")); reflexivity.
Defined.

(** ** Reporting the selection *)

(** The handlers that select or clear call [onNodeSelect] with the value
    they store. *)
Lemma selection_handlers_notify {M : Type} (s : Canvas M)
    (ra a : TwoClick.State) (rb b : DragConnect.State) (d : Node.data) :
  (TwoClick.isConnecting (mode ra) = false →
   selectedNode (TwoClick.tapNode d ra a).2 = Some d
   ∧ onNodeSelect (TwoClick.tapNode d ra a).2
     = (λ calls, calls ++ [Some d]) <$> onNodeSelect a)
  ∧ (selectedNode (TwoClick.tap OnCore ra a).2 = None
     ∧ onNodeSelect (TwoClick.tap OnCore ra a).2
       = (λ calls, calls ++ [None]) <$> onNodeSelect a)
  ∧ (selectedNode (TwoClick.startConnecting a) = None
     ∧ onNodeSelect (TwoClick.startConnecting a)
       = (λ calls, calls ++ [None]) <$> onNodeSelect a)
  ∧ (DragConnect.isDragging (mode rb) = false →
     selectedNode (DragConnect.tapNode d rb b).2 = Some d
     ∧ onNodeSelect (DragConnect.tapNode d rb b).2
       = (λ calls, calls ++ [Some d]) <$> onNodeSelect b)
  ∧ (DragConnect.isDragging (mode rb) = false →
     selectedNode (DragConnect.tap OnCore rb b).2 = None
     ∧ onNodeSelect (DragConnect.tap OnCore rb b).2
       = (λ calls, calls ++ [None]) <$> onNodeSelect b)
  ∧ (cy s ≠ None → selectedNode s ≠ None →
     selectedNode (deleteSelected s) = None
     ∧ onNodeSelect (deleteSelected s)
       = (λ calls, calls ++ [None]) <$> onNodeSelect s).
Proof.
  unfold TwoClick.tapNode, TwoClick.tap, DragConnect.tapNode, DragConnect.tap,
    deleteSelected.
  split; [by intros ->|].
  split; [by destruct (TwoClick.isConnecting _)|].
  split; [done|].
  split; [by intros ->|].
  split; [by intros ->|].
  intros Hcy Hsel. by destruct (cy s), (selectedNode s).
Qed.

(** C9, the behaviour of the code when the data of the selected node is
    updated: [saveEdit] stores a new value in [selectedNode] and makes no
    call to [onNodeSelect].  After selecting the root, editing its label to
    a new text and saving, the selection carries the new label and a
    parent that passes a function has been called once only, for the tap,
    with the old one. *)
Theorem saveEdit_never_notifies {M : Type} (s : Canvas M) (h : Host.t) :
  onNodeSelect (saveEdit s) = onNodeSelect s
  ∧ let t := TwoClick.run [TwoClick.Tap (AtElement "root"); TwoClick.ClickEdit;
                           TwoClick.EditChange "Renamed"]
               (TwoClick.initial h) in
    selectedNode (latest t) = Some (Node.mk "root" "Main Idea" root)
    ∧ selectedNode (latest (TwoClick.dispatch t TwoClick.ClickSave))
      = Some (Node.mk "root" "Renamed" root)
    ∧ Cy.nodes (graph (latest (TwoClick.dispatch t TwoClick.ClickSave)))
      = [Node.mk "root" "Renamed" root]
    ∧ onNodeSelect (latest (TwoClick.dispatch t TwoClick.ClickSave))
      = if Host.hasCallback h
        then Some [Some (Node.mk "root" "Main Idea" root)] else None.
Proof.
  split; [|by destruct h; vm_compute].
  unfold saveEdit. destruct (cy s), (selectedNode s); try done.
  by destruct (Js.truthy _).
Qed.

(** ** Adding a node *)

Lemma edgesJoining_fresh a i g :
  wellFormed g = true → i ∉ Cy.elementId <$> g → Cy.edgesJoining a i g = [].
Proof.
  intros Hwf Hfresh. destruct (Cy.edgesJoining a i g) as [|d l] eqn:Hd; [done|].
  exfalso. assert (d ∈ Cy.edgesJoining a i g) as Hin by (rewrite Hd; left).
  apply list_elem_of_filter in Hin as [Hj Hin].
  destruct (wellFormed_edge _ _ Hwf Hin) as (_ & _ & _ & Hs & Ht).
  apply Hfresh, node_id_elementId, hasNode_true.
  apply Is_true_true, joins_true in Hj as [[_ <-]|[<- _]]; done.
Qed.

(** With the root selected while connecting mode is on, Add Node adds the
    node and no edge; so it is with no function passed by the parent and
    under [Index.tsx]. *)
Lemma addNode_while_connecting_no_edge :
  let scenario h :=
    let c := TwoClick.run [TwoClick.ClickConnect; TwoClick.Tap (AtElement "root")]
               (TwoClick.initial h) in
    let c' := TwoClick.dispatch c
                (TwoClick.ClickAddNode primary 1700000000000 0.5 0.5) in
    selectedNode (latest c) = Some (Node.mk "root" "Main Idea" root)
    ∧ TwoClick.isConnecting (mode (latest c)) = true
    ∧ nodeCount (latest c) = 1 ∧ edgeCount (latest c) = 0
    ∧ nodeCount (latest c') = 2 ∧ edgeCount (latest c') = 0 in
  scenario Host.NoCallback ∧ scenario Host.IndexPage.
Proof. by vm_compute. Qed.

(** C8, as amended. The graph starts with the one node [root], labelled
    "Main Idea", of type root, and no edge.  On a well-formed instance,
    which every instance that the components reach is, when the id
    generated from the clock reading is not in use, [addNode] appends
    exactly one node, with that id and the label "New Idea"; it appends no
    edge when nothing is selected, and none when a node is selected while a
    connection is in progress ([isConnecting] in the two-click variant,
    [isDragging] in the drag variant); when a node is selected, is a node
    of the instance, and no connection is in progress, it appends exactly
    one edge, from the selected node to the new one.  In the scenario, on
    a canvas whose parent passes no function or always the same one: two
    nodes and no edge after the first Add Node, three nodes and one edge
    after the root is selected and Add Node is clicked again. *)
Theorem addNode_autoconnects {M : Type} (connecting : M → bool) (s : Canvas M)
    (g : Cy.Core) (type : NodeType) (now : Z) (random1 random2 : float) :
  cy s = Some g →
  wellFormed g = true →
  Cy.hasElementWithId g (nodeIdAt now) = false →
  (∀ selected, selectedNode s = Some selected → connecting (mode s) = false →
               Cy.hasNode g (Node.id selected) = true) →
  let s' := addNode connecting type now random1 random2 s in
  let scenario h :=
    let c1 := TwoClick.dispatch (TwoClick.initial h)
                (TwoClick.ClickAddNode primary 1700000000000 0.5 0.5) in
    let c3 := TwoClick.run
                [TwoClick.Tap (AtElement "root");
                 TwoClick.ClickAddNode primary 1700000000001 0.25 0.75] c1 in
    nodeCount (latest c1) = 2 ∧ edgeCount (latest c1) = 0
    ∧ nodeCount (latest c3) = 3 ∧ edgeCount (latest c3) = 1
    ∧ Cy.edges (graph (latest c3))
      = [Edge.mk "edge-root-node-1700000000001" "root" "node-1700000000001"] in
  Cy.nodes initialElements = [Node.mk "root" "Main Idea" root]
  ∧ Cy.edges initialElements = []
  ∧ Cy.nodes (graph s') = Cy.nodes g ++ [Node.mk (nodeIdAt now) "New Idea" type]
  ∧ Cy.edges (graph s')
    = Cy.edges g
      ++ match selectedNode s with
         | Some selected =>
             if connecting (mode s) then []
             else [Edge.mk (edgeId (Node.id selected) (nodeIdAt now))
                           (Node.id selected) (nodeIdAt now)]
         | None => []
         end
  ∧ nodeCount s' = S (nodeCount s)
  ∧ edgeCount s'
    = edgeCount s
      + match selectedNode s with
        | Some _ => if connecting (mode s) then 0 else 1
        | None => 0
        end
  ∧ scenario Host.NoCallback ∧ scenario Host.SameCallback
  ∧ (∀ h evs, wellFormed (graph (latest (TwoClick.run evs (TwoClick.initial h))))
              = true)
  ∧ (∀ h evs, wellFormed (graph (latest (DragConnect.run evs (DragConnect.initial h))))
              = true).
Proof.
  intros Hcy Hwf Hfresh%hasElementWithId_false Hselected s' scenario.
  pose proof (graph_Some s g Hcy) as Hgraph.
  set (new := Node.mk (nodeIdAt now) "New Idea" type).
  assert (∃ position,
    graph s' = match selectedNode s with
               | Some selected =>
                   if connecting (mode s) then g ++ [NodeEl new position]
                   else (g ++ [NodeEl new position])
                          ++ [EdgeEl (Edge.mk (edgeId (Node.id selected) (nodeIdAt now))
                                              (Node.id selected) (nodeIdAt now))]
               | None => g ++ [NodeEl new position]
               end) as [position Hg].
  { unfold s'.
    destruct (addNode_steps connecting type now random1 random2 s g Hcy)
      as [position ->]. exists position. cbv zeta.
    rewrite (add_node_fresh new) by done.
    destruct (selectedNode s) as [selected|] eqn:Hsel; [|done].
    destruct (connecting (mode s)) eqn:Hconn; [done|]. simpl negb. cbv iota.
    apply createEdge_appends.
    - done.
    - apply wellFormed_snoc_node; [done|apply isNodeId_nodeIdAt|done].
    - by apply hasNode_mono, Hselected.
    - apply hasNode_true. rewrite nodes_snoc_node, fmap_app, elem_of_app.
      right. by left.
    - rewrite edgesJoining_snoc_node. by apply edgesJoining_fresh. }
  assert (Cy.nodes (graph s') = Cy.nodes g ++ [new]) as Hnodes.
  { rewrite Hg. destruct (selectedNode s) as [selected|];
      [destruct (connecting (mode s))|];
      by rewrite ?nodes_snoc_edge, nodes_snoc_node. }
  assert (Cy.edges (graph s')
          = Cy.edges g
            ++ match selectedNode s with
               | Some selected =>
                   if connecting (mode s) then []
                   else [Edge.mk (edgeId (Node.id selected) (nodeIdAt now))
                                 (Node.id selected) (nodeIdAt now)]
               | None => []
               end) as Hedges.
  { rewrite Hg. destruct (selectedNode s) as [selected|];
      [destruct (connecting (mode s))|];
      by rewrite ?edges_snoc_edge, edges_snoc_node, ?app_nil_r. }
  split; [done|]. split; [done|]. split; [done|]. split; [done|].
  split; [|split; [|split; [|split; [|split]]]].
  - unfold nodeCount. rewrite Hnodes, length_app, Hgraph. simpl. lia.
  - unfold edgeCount. rewrite Hedges, length_app, Hgraph. f_equal.
    destruct (selectedNode s); [by destruct (connecting (mode s))|done].
  - by vm_compute.
  - by vm_compute.
  - intros h evs. destruct (TwoClick_reachable h evs) as (Hok & _).
    by apply liveOk_graph in Hok as (_ & ? & _).
  - intros h evs. destruct (DragConnect_reachable h evs) as (Hok & _).
    by apply liveOk_graph in Hok as (_ & ? & _).
Qed.

Lemma addNode_autoconnects_witness :
  let c1 := TwoClick.dispatch (TwoClick.initial Host.NoCallback)
              (TwoClick.ClickAddNode primary 1700000000000 0.5 0.5) in
  let c2 := TwoClick.dispatch c1 (TwoClick.Tap (AtElement "root")) in
  let c3 := TwoClick.dispatch c2
              (TwoClick.ClickAddNode primary 1700000000001 0.25 0.75) in
  (nodeCount (latest c1) = 2 ∧ edgeCount (latest c1) = 0)
  ∧ (nodeCount (latest c3) = 3 ∧ edgeCount (latest c3) = 1)
  ∧ Cy.edges (graph (latest c3))
    = [Edge.mk "edge-root-node-1700000000001" "root" "node-1700000000001"].
Proof.
  intros c1 c2 c3.
  destruct (addNode_autoconnects TwoClick.isConnecting
              (latest (TwoClick.initial Host.NoCallback)) initialElements
              primary 1700000000000 0.5 0.5)
    as (_ & _ & _ & _ & Hn1 & He1 & _); [reflexivity|reflexivity|reflexivity|done|].
  destruct (addNode_autoconnects TwoClick.isConnecting (latest c2)
              (graph (latest c2)) primary 1700000000001 0.25 0.75)
    as (_ & _ & _ & He & Hn3 & He3 & _); [reflexivity|reflexivity|reflexivity| |].
  { by intros selected [= <-] _. }
  split; [split; [exact Hn1|exact He1]|].
  split; [split; [exact Hn3|exact He3]|].
  exact He.
Defined.

(** * The protocols as the mounted components run them *)

(** X1. Under a parent that passes no function, or always the same one,
    the effect of the two-click variant runs once, when the component
    mounts, and the tap handlers keep what they saw then: [isConnecting]
    off and no first node.  Whatever the user does, one instance serves,
    no first node is ever held, and a tap changes neither the instance nor
    [isConnecting]; a tap on a node selects it. *)
Theorem twoClick_handlers_keep_first_render (h : Host.t)
    (evs : list TwoClick.Event) (p : Pointer) :
  Host.newCallback h = false →
  let c := TwoClick.run evs (TwoClick.initial h) in
  let c' := TwoClick.dispatch c (TwoClick.Tap p) in
  built c = 1
  ∧ mode (subscribed c) = TwoClick.mkMode false None
  ∧ TwoClick.firstNode (mode (latest c)) = None
  ∧ cy (latest c') = cy (latest c)
  ∧ mode (latest c') = mode (latest c)
  ∧ match resolve p (graph (latest c)) with
    | Some (OnNode d) => selectedNode (latest c') = Some d
    | Some OnCore => selectedNode (latest c') = None
    | _ => selectedNode (latest c') = selectedNode (latest c)
    end.
Proof.
  intros Hh c c'.
  destruct (TwoClick_reachable h evs) as (_ & _ & _ & Hhost).
  pose proof (TwoClick_parent h evs) as Hparent. fold c in Hhost, Hparent.
  assert (mode (subscribed c) = TwoClick.mkMode false None
          ∧ TwoClick.firstNode (mode (latest c)) = None ∧ built c = 1)
    as (Hsub & Hnone & Hbuilt).
  { rewrite Hparent in Hhost. destruct h; [| |done]; by destruct Hhost as (? & ? & ? & _). }
  split; [done|]. split; [done|]. split; [done|].
  unfold c', TwoClick.dispatch. simpl.
  destruct (resolve p (graph (latest c))) as [[|d|d]|]; simpl.
  - rewrite Hsub. simpl. by rewrite commit_inert by by rewrite Hparent.
  - unfold TwoClick.tapNode. rewrite Hsub. simpl.
    by rewrite commit_inert by by rewrite Hparent.
  - by rewrite commit_inert by by rewrite Hparent.
  - by rewrite commit_inert by by rewrite Hparent.
Qed.

Lemma twoClick_handlers_keep_first_render_witness :
  let c := TwoClick.run
             [TwoClick.ClickAddNode primary 1700000000000 0.5 0.5;
              TwoClick.ClickConnect; TwoClick.Tap (AtElement "root")]
             (TwoClick.initial Host.SameCallback) in
  TwoClick.isConnecting (mode (latest c)) = true
  ∧ selectedNode (latest c) = Some (Node.mk "root" "Main Idea" root)
  ∧ TwoClick.firstNode (mode (latest c)) = None
  ∧ mode (subscribed c) = TwoClick.mkMode false None.
Proof.
  intros c. split; [reflexivity|]. split; [reflexivity|].
  destruct (twoClick_handlers_keep_first_render Host.SameCallback
              [TwoClick.ClickAddNode primary 1700000000000 0.5 0.5;
               TwoClick.ClickConnect; TwoClick.Tap (AtElement "root")]
              AtBackground)
    as (_ & Hsub & Hnone & _); [reflexivity|].
  by split.
Defined.

(** X2. In the drag variant [isDragging] and [dragStart] are dependencies
    of the effect.  A press on a node starts the drag from it, and the
    effect runs again: the live instance is a new one, with the root
    alone, and its handlers see the drag.  While a drag is in progress
    the live instance has no edge, and after the next event, whatever it
    is, the release included, it has none either: a drag adds no edge to
    the instance on the screen. *)
Theorem drag_never_connects (h : Host.t) (evs : list DragConnect.Event)
    (ev : DragConnect.Event) (p : Pointer) (position : Position.t) :
  let b := DragConnect.run evs (DragConnect.initial h) in
  let b1 := DragConnect.dispatch b (DragConnect.MouseDown p position) in
  match resolve p (graph (latest b)) with
  | Some (OnNode d) =>
      graph (latest b1) = initialElements
      ∧ mode (latest b1)
        = DragConnect.mkMode true
            (Some (DragStart.mk (Position.x position) (Position.y position)
                                (Node.id d)))
            (Some (Position.mk (Position.x position) (Position.y position)))
      ∧ mode (subscribed b1) = mode (latest b1)
      ∧ built b1 = S (built b)
  | _ => b1 = b
  end
  ∧ (DragConnect.isDragging (mode (latest b)) = true →
     Cy.edges (graph (latest b)) = []
     ∧ Cy.edges (graph (latest (DragConnect.dispatch b ev))) = []).
Proof.
  intros b b1. split.
  - assert (∀ t, resolve p (graph (latest b)) = t →
              (∀ d, t ≠ Some (OnNode d)) → b1 = b) as Hnone.
    { intros t Hres Ht. unfold b1, DragConnect.dispatch. simpl.
      assert (DragConnect.pressed (DragConnect.MouseDown p position) (latest b)
              = false) as Hpressed.
      { simpl. rewrite Hres. destruct t as [[|d|d]|]; try done.
        by destruct (Ht d). }
      rewrite Hres. destruct t as [[|d|d]|]; try by destruct (Ht d).
      all: rewrite commit_quiet by done; simpl.
      all: rewrite dependencyChanged_same by done; apply mounted_eta. }
    destruct (resolve p (graph (latest b))) as [[|d|d]|] eqn:Hres;
      [by apply (Hnone _ eq_refl)| |by apply (Hnone _ eq_refl)..].
    set (s1 := (DragConnect.mousedownNode d position (subscribed b) (latest b)).2).
    assert (DragConnect.handle (DragConnect.MouseDown p position)
              (subscribed b) (latest b) = (subscribed b, s1)) as Hhandle.
    { simpl. by rewrite Hres. }
    assert (DragConnect.dependencyChanged (DragConnect.MouseDown p position)
              (latest b) s1 = true) as Hchanged.
    { unfold DragConnect.dependencyChanged. simpl. rewrite Hres.
      destruct (DragConnect.isDragging (mode (latest b))); [|done].
      by destruct (DragConnect.dragStart (mode (latest b))). }
    unfold b1, DragConnect.dispatch. rewrite Hhandle, Hchanged.
    by destruct (commit_changed
                   (DragConnect.isParentRenders (DragConnect.MouseDown p position))
                   b (subscribed b) s1) as [w ->].
  - intros Hon.
    destruct (DragConnect_reachable h evs) as (_ & _ & _ & _ & _ & Hnone).
    fold b in Hnone. split; [by apply Hnone|].
    pose proof (dragOk_dispatch b ev (DragConnect_reachable h evs))
      as (_ & _ & _ & _ & _ & Hnone').
    revert Hnone'. unfold DragConnect.dispatch.
    destruct (DragConnect.handle ev (subscribed b) (latest b)) as [r s].
    destruct (DragConnect.dependencyChanged ev (latest b) s) eqn:Hchanged.
    + intros _. by rewrite commit_rebuilds.
    + intros Hnone'. apply Hnone'.
      unfold DragConnect.dependencyChanged in Hchanged.
      apply orb_false_iff in Hchanged as [Hsame%negb_false_iff%bool_decide_eq_true _].
      destruct (commit_latest (DragConnect.isParentRenders ev) false b r s)
        as [->| ->]; simpl; congruence.
Qed.

Lemma drag_never_connects_witness :
  let press := DragConnect.MouseDown (AtElement "root") (Position.mk 400 300) in
  let b := DragConnect.run
             [DragConnect.Tap (AtElement "root");
              DragConnect.ClickAddNode primary 1700000000000 0.5 0.5;
              press]
             (DragConnect.initial Host.NoCallback) in
  Cy.nodes (graph (latest b)) = [Node.mk "root" "Main Idea" root]
  ∧ Cy.edges (graph (latest (DragConnect.dispatch b
                               (DragConnect.MouseUp (AtElement "root"))))) = [].
Proof.
  intros press b. split; [reflexivity|].
  destruct (drag_never_connects Host.NoCallback
              [DragConnect.Tap (AtElement "root");
               DragConnect.ClickAddNode primary 1700000000000 0.5 0.5;
               press]
              (DragConnect.MouseUp (AtElement "root")) AtBackground
              (Position.mk 0 0)) as [_ Hdrag].
  by destruct Hdrag as [_ Hafter].
Defined.

(** X3. Under [Index.tsx] every render of the page passes a new function,
    so a selection that the page is told of makes the effect run again.
    When the handlers on the live instance hold no first node, a tap on a
    node selects it, the page holds its data, and the live instance is a
    new one with the root alone: what was added to the old one is gone,
    and the selected node itself is on the canvas no more unless it is the
    root.  The handlers subscribed on the new instance see the state of
    the render that followed the tap. *)
Theorem index_selection_rebuilds (evs : list TwoClick.Event) (p : Pointer)
    (d : Node.data) :
  let c := TwoClick.run evs (TwoClick.initial Host.IndexPage) in
  let c' := TwoClick.dispatch c (TwoClick.Tap p) in
  resolve p (graph (latest c)) = Some (OnNode d) →
  TwoClick.firstNode (mode (subscribed c)) = None →
  graph (latest c') = initialElements
  ∧ built c' = S (built c)
  ∧ selectedNode (latest c') = Some d
  ∧ page c' = Some (built c, d)
  ∧ mode (subscribed c') = mode (latest c')
  ∧ Cy.hasNode (graph (latest c')) (Node.id d) = bool_decide (Node.id d = "root").
Proof.
  intros c c' Hres Hfirst.
  destruct (TwoClick_reachable Host.IndexPage evs) as (_ & Hpage & _).
  pose proof (TwoClick_parent Host.IndexPage evs) as Hparent.
  fold c in Hpage, Hparent.
  destruct (Hpage Hparent) as (Hlog & Hold & _).
  set (s1 := (TwoClick.tapNode d (subscribed c) (latest c)).2).
  assert (TwoClick.handle (TwoClick.Tap p) (subscribed c) (latest c)
          = (subscribed c, s1)
          ∧ onNodeSelect s1 = (λ made, made ++ [Some d]) <$> onNodeSelect (latest c)
          ∧ selectedNode s1 = Some d) as (Hhandle & Hlog' & Hsel).
  { unfold s1. simpl. rewrite Hres. unfold TwoClick.tapNode. rewrite Hfirst.
    by destruct (TwoClick.isConnecting (mode (subscribed c))). }
  unfold c', TwoClick.dispatch. rewrite Hhandle.
  rewrite (commit_told _ _ _ _ _ (Some d)) by done.
  simpl. rewrite (sameValue_new _ _ _ Hold). simpl.
  split; [done|]. split; [done|]. split; [done|]. split; [done|]. split; [done|].
  unfold Cy.hasNode. simpl. apply bool_decide_ext.
  by rewrite list_elem_of_singleton.
Qed.

Lemma index_selection_rebuilds_witness :
  let c := TwoClick.run
             [TwoClick.Tap (AtElement "root");
              TwoClick.ClickAddNode primary 1700000000000 0.5 0.5]
             (TwoClick.initial Host.IndexPage) in
  let c' := TwoClick.dispatch c (TwoClick.Tap (AtElement "node-1700000000000")) in
  (nodeCount (latest c) = 2 ∧ edgeCount (latest c) = 1)
  ∧ graph (latest c') = initialElements
  ∧ selectedNode (latest c') = Some (Node.mk "node-1700000000000" "New Idea" primary)
  ∧ Cy.hasNode (graph (latest c')) "node-1700000000000" = false.
Proof.
  intros c c'. split; [by split|].
  destruct (index_selection_rebuilds
              [TwoClick.Tap (AtElement "root");
               TwoClick.ClickAddNode primary 1700000000000 0.5 0.5]
              (AtElement "node-1700000000000")
              (Node.mk "node-1700000000000" "New Idea" primary))
    as (Hg & _ & Hsel & _ & _ & Hgone); [reflexivity|reflexivity|].
  split; [exact Hg|]. split; [exact Hsel|exact Hgone].
Defined.

(** * Invariants, over every sequence of events *)

(** X4. In every state that either variant reaches, whoever the parent is
    and whatever happens, the live instance exists, no two of its elements
    share an id, and every edge has the id derived from its ends, ends in
    nodes of the instance, and goes to a node that [addNode] generated:
    the edges on the screen are those that [addNode] made. *)
Theorem reachable_edges_sound :
  (∀ h evs,
     let s := latest (TwoClick.run evs (TwoClick.initial h)) in
     cy s = Some (graph s)
     ∧ NoDup (Cy.elementId <$> graph s)
     ∧ ∀ d, d ∈ Cy.edges (graph s) →
            Edge.id d = edgeId (Edge.source d) (Edge.target d)
            ∧ Cy.hasNode (graph s) (Edge.source d) = true
            ∧ Cy.hasNode (graph s) (Edge.target d) = true
            ∧ isGeneratedId (Edge.target d) = true)
  ∧ (∀ h evs,
       let s := latest (DragConnect.run evs (DragConnect.initial h)) in
       cy s = Some (graph s)
       ∧ NoDup (Cy.elementId <$> graph s)
       ∧ ∀ d, d ∈ Cy.edges (graph s) →
              Edge.id d = edgeId (Edge.source d) (Edge.target d)
              ∧ Cy.hasNode (graph s) (Edge.source d) = true
              ∧ Cy.hasNode (graph s) (Edge.target d) = true
              ∧ isGeneratedId (Edge.target d) = true).
Proof.
  assert (∀ M (s : Canvas M), liveOk s = true →
            cy s = Some (graph s)
            ∧ NoDup (Cy.elementId <$> graph s)
            ∧ ∀ d, d ∈ Cy.edges (graph s) →
                   Edge.id d = edgeId (Edge.source d) (Edge.target d)
                   ∧ Cy.hasNode (graph s) (Edge.source d) = true
                   ∧ Cy.hasNode (graph s) (Edge.target d) = true
                   ∧ isGeneratedId (Edge.target d) = true) as Hlive.
  { intros M s (Hcy & Hwf & _ & Hgen)%liveOk_graph. split; [done|].
    split; [by apply wellFormed_true in Hwf as (? & _)|].
    intros d Hd. destruct (wellFormed_edge _ _ Hwf Hd) as (? & _ & _ & ? & ?).
    repeat split; try done. by apply (proj1 (edgesToGenerated_true _) Hgen). }
  split; intros h evs; apply Hlive.
  - by destruct (TwoClick_reachable h evs) as (? & _).
  - by destruct (DragConnect_reachable h evs) as (? & _).
Qed.

Lemma reachable_edges_sound_witness :
  let evs := [DragConnect.Tap (AtElement "root");
              DragConnect.ClickAddNode secondary 1700000000000 0.5 0.5] in
  let t := latest (DragConnect.run evs (DragConnect.initial Host.IndexPage)) in
  Cy.edges (graph t)
  = [Edge.mk "edge-root-node-1700000000000" "root" "node-1700000000000"]
  ∧ Cy.hasNode (graph t) "node-1700000000000" = true.
Proof.
  intros evs t. split; [reflexivity|].
  destruct reachable_edges_sound as [_ Hdrag].
  destruct (Hdrag Host.IndexPage evs) as (_ & _ & Hedges).
  destruct (Hedges (Edge.mk "edge-root-node-1700000000000" "root" "node-1700000000000"))
    as (_ & _ & Htarget & _); [|exact Htarget].
  apply list_elem_of_In. simpl. by left.
Defined.

(** X5. In the two-click variant under a parent that passes no function,
    or always the same one, the selection, when there is one, is the data
    that a node of the live instance has at that moment: its id, its
    current label and its type.  The panel that shows the selection shows
    no node that is gone and no label that is out of date. *)
Theorem reachable_selection_current (h : Host.t) (evs : list TwoClick.Event)
    (d : Node.data) :
  Host.newCallback h = false →
  selectedNode (latest (TwoClick.run evs (TwoClick.initial h))) = Some d →
  d ∈ Cy.nodes (graph (latest (TwoClick.run evs (TwoClick.initial h)))).
Proof.
  intros Hh. destruct (TwoClick_reachable h evs) as (_ & _ & _ & Hhost).
  rewrite (TwoClick_parent h evs) in Hhost.
  apply selectionCurrent_true. destruct h; [| |done]; by destruct Hhost as (_ & _ & _ & ?).
Qed.

Lemma reachable_selection_current_witness :
  let s := latest (TwoClick.run
             [TwoClick.Tap (AtElement "root"); TwoClick.ClickEdit;
              TwoClick.EditChange "  Plan  "; TwoClick.ClickSave]
             (TwoClick.initial Host.SameCallback)) in
  selectedNode s = Some (Node.mk "root" "Plan" root)
  ∧ Node.mk "root" "Plan" root ∈ Cy.nodes (graph s).
Proof.
  intros s. split; [reflexivity|].
  apply (reachable_selection_current Host.SameCallback
           [TwoClick.Tap (AtElement "root"); TwoClick.ClickEdit;
            TwoClick.EditChange "  Plan  "; TwoClick.ClickSave]);
    reflexivity.
Defined.

(** X6. In every state that either variant reaches, whoever the parent
    is, every node of the live instance has a label that is not empty and
    has no white space at either end: the two labels the components write
    themselves are such, and [saveEdit] writes a trimmed, non-empty text
    only. *)
Theorem reachable_labels_trimmed :
  (∀ h evs d,
     d ∈ Cy.nodes (graph (latest (TwoClick.run evs (TwoClick.initial h)))) →
     Node.label d ≠ "" ∧ Js.trim (Node.label d) = Node.label d)
  ∧ (∀ h evs d,
       d ∈ Cy.nodes (graph (latest (DragConnect.run evs (DragConnect.initial h)))) →
       Node.label d ≠ "" ∧ Js.trim (Node.label d) = Node.label d).
Proof.
  assert (∀ l, labelOk l = true → l ≠ "" ∧ Js.trim l = l) as Hlabel.
  { intros l [Ht Htrim]%andb_true_iff. split.
    - intros ->. done.
    - by apply bool_decide_eq_true in Htrim. }
  split; intros h evs d Hd; apply Hlabel.
  - destruct (TwoClick_reachable h evs) as ((_ & _ & Hlab & _)%liveOk_graph & _).
    by apply (proj1 (labelsOk_true _) Hlab).
  - destruct (DragConnect_reachable h evs) as ((_ & _ & Hlab & _)%liveOk_graph & _).
    by apply (proj1 (labelsOk_true _) Hlab).
Qed.

Lemma reachable_labels_trimmed_witness :
  let evs := [DragConnect.Tap (AtElement "root"); DragConnect.ClickEdit;
              DragConnect.EditChange "  Plan  "; DragConnect.EditKeyDown "Enter"] in
  let s := latest (DragConnect.run evs (DragConnect.initial Host.IndexPage)) in
  Cy.nodes (graph s) = [Node.mk "root" "Plan" root]
  ∧ Js.trim "Plan" = "Plan".
Proof.
  intros evs s. split; [reflexivity|].
  destruct reachable_labels_trimmed as [_ Hdrag].
  destruct (Hdrag Host.IndexPage evs (Node.mk "root" "Plan" root))
    as [_ Htrim]; [|exact Htrim].
  apply list_elem_of_In. simpl. by left.
Defined.

(** X7. What the subscribed handlers see of the connection state, in every
    reachable state and whoever the parent is.  In the two-click variant,
    when a first node is held the handlers see the connection state of
    the latest render, first node included.  In the drag variant the
    handlers always see the latest [isDragging] and [dragStart], and
    either no drag is in progress and neither the start nor the end of the
    rubber band is set, or a drag is in progress and both are. *)
Theorem reachable_connection_state :
  (∀ h evs first,
     let c := TwoClick.run evs (TwoClick.initial h) in
     TwoClick.firstNode (mode (latest c)) = Some first →
     mode (subscribed c) = mode (latest c))
  ∧ (∀ h evs,
       let b := DragConnect.run evs (DragConnect.initial h) in
       DragConnect.isDragging (mode (subscribed b))
       = DragConnect.isDragging (mode (latest b))
       ∧ DragConnect.dragStart (mode (subscribed b))
         = DragConnect.dragStart (mode (latest b))
       ∧ (mode (latest b) = DragConnect.mkMode false None None
          ∨ ∃ start position,
              mode (latest b)
              = DragConnect.mkMode true (Some start) (Some position))).
Proof.
  split; intros h evs.
  - intros first c Hfirst.
    destruct (TwoClick_reachable h evs) as (_ & _ & Hheld & _).
    apply Hheld. fold c. by rewrite Hfirst.
  - by destruct (DragConnect_reachable h evs) as (_ & _ & ? & ? & ? & _).
Qed.

Lemma reachable_connection_state_witness :
  let evs := [TwoClick.ClickConnect; TwoClick.Tap (AtElement "root");
              TwoClick.Tap (AtElement "root");
              TwoClick.ClickAddNode accent 1700000000000 0.5 0.5] in
  let c := TwoClick.run evs (TwoClick.initial Host.IndexPage) in
  TwoClick.firstNode (mode (latest c)) = Some (Node.mk "root" "Main Idea" root)
  ∧ mode (subscribed c) = mode (latest c).
Proof.
  intros evs c. split; [reflexivity|].
  destruct reachable_connection_state as [Htwo _].
  apply (Htwo Host.IndexPage evs (Node.mk "root" "Main Idea" root)). reflexivity.
Defined.

(** * The chat panel *)

Lemma string_app_assoc a b c : (a +:+ b) +:+ c = a +:+ b +:+ c.
Proof. induction a as [|x a IH]; push_app; [done|by rewrite IH]. Qed.

Lemma alternates_snoc next l m t :
  Chat.alternates next l = true →
  Message.type <$> last l = Some t →
  Message.type m = Chat.other t →
  Chat.alternates next (l ++ [m]) = true.
Proof.
  revert next. induction l as [|x l IH]; intros next Halt Hlast Hm; [done|].
  destruct l as [|y l].
  - simpl in *. injection Hlast as <-.
    destruct (Message.type x), next, (Message.type m); done.
  - rewrite last_cons_cons in Hlast.
    change (Chat.alternates next (x :: (y :: l) ++ [m]) = true).
    simpl in Halt |- *.
    destruct (Message.type x), next; try done; by apply IH.
Qed.

Lemma turnsOk_inv s :
  Chat.turnsOk s = true →
  Chat.alternates Message.ai (Chat.messages s) = true ∧
  ((Chat.timers s = [] ∧ Chat.isLoading s = false ∧
    Message.type <$> last (Chat.messages s) = Some Message.ai) ∨
   (∃ t, Chat.timers s = [t] ∧ Chat.isLoading s = true ∧
      Message.type <$> last (Chat.messages s) = Some Message.user ∧
      Message.content <$> last (Chat.messages s) = Some (Chat.userInput t) ∧
      Chat.inputMessage s = "")).
Proof.
  unfold Chat.turnsOk. intros [Halt H]%andb_true_iff. split; [done|].
  destruct (Chat.timers s) as [|t [|]]; [| |done].
  - left. apply andb_true_iff in H as [Hl Hlast].
    apply negb_true_iff in Hl. by apply bool_decide_eq_true in Hlast.
  - right. exists t.
    apply andb_true_iff in H as [[[Hl Hu]%andb_true_iff Hc]%andb_true_iff Hi].
    apply bool_decide_eq_true in Hu, Hc, Hi. done.
Qed.

Lemma turnsOk_idle s :
  Chat.alternates Message.ai (Chat.messages s) = true →
  Chat.timers s = [] → Chat.isLoading s = false →
  Message.type <$> last (Chat.messages s) = Some Message.ai →
  Chat.turnsOk s = true.
Proof.
  intros Halt Ht Hl Hlast. unfold Chat.turnsOk.
  rewrite Halt, Ht, Hl, Hlast. done.
Qed.

Lemma turnsOk_waiting s t :
  Chat.alternates Message.ai (Chat.messages s) = true →
  Chat.timers s = [t] → Chat.isLoading s = true →
  Message.type <$> last (Chat.messages s) = Some Message.user →
  Message.content <$> last (Chat.messages s) = Some (Chat.userInput t) →
  Chat.inputMessage s = "" →
  Chat.turnsOk s = true.
Proof.
  intros Halt Ht Hl Hu Hc Hi. unfold Chat.turnsOk.
  rewrite Halt, Ht, Hl, Hu, Hc, Hi. by rewrite !bool_decide_true by done.
Qed.

(** A turn of the user, from a panel that awaits nothing. *)
Lemma turnsOk_handleSendMessage now stamp s :
  Chat.turnsOk s = true → Chat.isLoading s = false →
  Chat.turnsOk (Chat.handleSendMessage now stamp s) = true.
Proof.
  intros Hok Hl. unfold Chat.handleSendMessage.
  destruct (negb _); [done|].
  apply turnsOk_inv in Hok as [Halt [(Ht & _ & Hlast)|(t & _ & Hl' & _)]];
    [|congruence].
  eapply turnsOk_waiting; simpl.
  - by eapply alternates_snoc.
  - by rewrite Ht.
  - done.
  - by rewrite last_snoc.
  - by rewrite last_snoc.
  - done.
Qed.

Lemma turnsOk_timeout i pick now stamp s :
  Chat.turnsOk s = true →
  Chat.turnsOk (Chat.timeout i pick now stamp s) = true.
Proof.
  intros Hok. unfold Chat.timeout.
  destruct (Chat.timers s !! i) as [t|] eqn:Hi; [|done].
  apply turnsOk_inv in Hok as [Halt [(Ht & _)|(t' & Ht & _ & Hlast & _)]].
  { by rewrite Ht in Hi. }
  rewrite Ht in Hi. destruct i as [|i]; [|done]. injection Hi as ->.
  apply turnsOk_idle; simpl.
  - by eapply alternates_snoc.
  - by rewrite Ht.
  - done.
  - by rewrite last_snoc.
Qed.

(** The fields on which the turns depend. *)
Lemma turnsOk_frame s s' :
  Chat.messages s' = Chat.messages s → Chat.timers s' = Chat.timers s →
  Chat.isLoading s' = Chat.isLoading s →
  (Chat.isLoading s = true → Chat.inputMessage s' = Chat.inputMessage s) →
  Chat.turnsOk s = true → Chat.turnsOk s' = true.
Proof.
  intros Hm Ht Hl Hi Hok.
  apply turnsOk_inv in Hok as [Halt [(Ht0 & Hl0 & Hlast)|(t & Ht0 & Hl0 & Hu & Hc & Hi0)]].
  - apply turnsOk_idle; congruence.
  - apply (turnsOk_waiting _ t); try congruence. rewrite Hi; done.
Qed.

Lemma turnsOk_dispatch s e :
  Chat.turnsOk s = true → Chat.turnsOk (Chat.dispatch s e) = true.
Proof.
  intros Hok.
  destruct e as [v|now stamp|now stamp|i pick now stamp|v|v| | | | | |d|d|i|n];
    simpl.
  - destruct (Chat.isLoading s) eqn:Hl; [done|].
    apply (turnsOk_frame s); try done. simpl. congruence.
  - destruct (Chat.isLoading s) eqn:Hl; [done|].
    by apply turnsOk_handleSendMessage.
  - destruct (Chat.isLoading s) eqn:Hl; [by rewrite orb_true_r|].
    destruct (negb _); [done|]. by apply turnsOk_handleSendMessage.
  - by apply turnsOk_timeout.
  - by apply (turnsOk_frame s).
  - by apply (turnsOk_frame s).
  - by apply (turnsOk_frame s).
  - by apply (turnsOk_frame s).
  - destruct (Chat.showDocumentUpload s); [|done]. by apply (turnsOk_frame s).
  - destruct (Chat.showDocumentViewer s); [|done]. by apply (turnsOk_frame s).
  - destruct (Chat.showDocumentViewer s); [|done]. by apply (turnsOk_frame s).
  - by apply (turnsOk_frame s).
  - destruct (Chat.showDocumentViewer s); [|done].
    unfold Chat.handleDocumentSelect. destruct (List.find _ _); [done|].
    by apply (turnsOk_frame s).
  - destruct (Chat.selectedDocuments s !! i); [|done]. by apply (turnsOk_frame s).
  - by apply (turnsOk_frame s).
Qed.

Lemma Chat_run_snoc es e s :
  Chat.run (es ++ [e]) s = Chat.dispatch (Chat.run es s) e.
Proof. unfold Chat.run. by rewrite foldl_app. Qed.

Lemma turnsOk_run es s : Chat.turnsOk s = true → Chat.turnsOk (Chat.run es s) = true.
Proof.
  intros Hok. induction es as [|e es IH] using rev_ind; [done|].
  rewrite Chat_run_snoc. by apply turnsOk_dispatch.
Qed.

(** X13.  In every state that the panel reaches from its first render the
    conversation proceeds by turns.  It opens with the assistant and the
    two parties alternate.  While [isLoading] is off no timeout is pending
    and the last message is the assistant's; while it is on exactly one
    timeout is pending, the last message is the user's, the pending
    callback holds its text, and the text box is empty. *)
Theorem chat_reachable_turns (stamp : Z) (es : list Chat.Event) :
  let s := Chat.run es (Chat.initial stamp) in
  Chat.alternates Message.ai (Chat.messages s) = true ∧
  if Chat.isLoading s
  then ∃ t m, Chat.timers s = [t] ∧ last (Chat.messages s) = Some m ∧
         Message.type m = Message.user ∧
         Message.content m = Chat.userInput t ∧ Chat.inputMessage s = ""
  else Chat.timers s = [] ∧
       ∃ m, last (Chat.messages s) = Some m ∧ Message.type m = Message.ai.
Proof.
  intros s.
  assert (Hok : Chat.turnsOk s = true) by (by apply turnsOk_run).
  apply turnsOk_inv in Hok as [Halt [(Ht & Hl & Hlast)|(t & Ht & Hl & Hu & Hc & Hi)]];
    split; try done; rewrite Hl.
  - split; [done|]. destruct (last (Chat.messages s)) as [m|]; [|done].
    exists m. by injection Hlast as ->.
  - exists t. destruct (last (Chat.messages s)) as [m|]; [|done].
    exists m. injection Hu as Hu. injection Hc as Hc. done.
Qed.

Lemma userMessagesOk_snoc l m :
  Chat.userMessagesOk l = true →
  match Message.type m with
  | Message.user => Js.truthy (Js.trim (Message.content m)) = true
  | Message.ai => True
  end →
  Chat.userMessagesOk (l ++ [m]) = true.
Proof.
  unfold Chat.userMessagesOk. intros Hl Hm. rewrite forallb_app, Hl. simpl.
  destruct (Message.type m); [by rewrite Hm|done].
Qed.

Lemma userMessagesOk_dispatch s e :
  Chat.userMessagesOk (Chat.messages s) = true →
  Chat.userMessagesOk (Chat.messages (Chat.dispatch s e)) = true.
Proof.
  intros Hok.
  assert (Hsend : ∀ now stamp,
    Chat.userMessagesOk (Chat.messages (Chat.handleSendMessage now stamp s)) = true).
  { intros now stamp. unfold Chat.handleSendMessage.
    destruct (Js.truthy _) eqn:Hblank; simpl; [|done].
    by apply userMessagesOk_snoc. }
  destruct e as [v|now stamp|now stamp|i pick now stamp|v|v| | | | | |d|d|i|n];
    simpl; try done.
  - by destruct (Chat.isLoading s).
  - by destruct (Chat.isLoading s).
  - by destruct (_ || _).
  - unfold Chat.timeout. destruct (Chat.timers s !! i); [|done]. simpl.
    by apply userMessagesOk_snoc.
  - by destruct (Chat.showDocumentUpload s).
  - by destruct (Chat.showDocumentViewer s).
  - by destruct (Chat.showDocumentViewer s).
  - destruct (Chat.showDocumentViewer s); [|done].
    unfold Chat.handleDocumentSelect. by destruct (List.find _ _).
  - by destruct (Chat.selectedDocuments s !! i).
Qed.

(** X14.  No blank message enters the conversation, whichever way it is
    sent: in every reachable state each message of the user has a text
    that is not empty after trimming. *)
Theorem chat_reachable_no_blank_message (stamp : Z) (es : list Chat.Event)
    (m : Message.t) :
  m ∈ Chat.messages (Chat.run es (Chat.initial stamp)) →
  Message.type m = Message.user →
  Js.trim (Message.content m) ≠ "".
Proof.
  intros Hm Hu.
  assert (Hok : Chat.userMessagesOk (Chat.messages (Chat.run es (Chat.initial stamp))) = true).
  { clear Hm. induction es as [|e es IH] using rev_ind; [done|].
    rewrite Chat_run_snoc. by apply userMessagesOk_dispatch. }
  unfold Chat.userMessagesOk in Hok. rewrite forallb_forall in Hok.
  apply list_elem_of_In, Hok in Hm. rewrite Hu in Hm.
  unfold Js.truthy in Hm. apply negb_true_iff, bool_decide_eq_false in Hm. done.
Qed.

Lemma chat_reachable_no_blank_message_witness :
  let es := [Chat.Typing "  "; Chat.PressEnter 10 11; Chat.Typing " map ";
             Chat.PressEnter 20 21] in
  Js.trim " map " ≠ "".
Proof.
  intros es.
  apply (chat_reachable_no_blank_message 0 es
           (Message.mk "20" Message.user " map " 21)); [|reflexivity].
  vm_compute. apply list_elem_of_In. simpl. tauto.
Defined.

(** While a reply is awaited only the timeout changes the conversation. *)
Lemma waiting_frame s e :
  Chat.isLoading s = true → Chat.isTimeoutFires e = false →
  Chat.messages (Chat.dispatch s e) = Chat.messages s ∧
  Chat.timers (Chat.dispatch s e) = Chat.timers s ∧
  Chat.isLoading (Chat.dispatch s e) = true.
Proof.
  intros Hl He.
  destruct e as [v|now stamp|now stamp|i pick now stamp|v|v| | | | | |d|d|i|n];
    simpl; try done.
  - by rewrite Hl.
  - by rewrite Hl.
  - by rewrite Hl, orb_true_r.
  - by destruct (Chat.showDocumentUpload s).
  - by destruct (Chat.showDocumentViewer s).
  - by destruct (Chat.showDocumentViewer s).
  - destruct (Chat.showDocumentViewer s); [|done].
    unfold Chat.handleDocumentSelect. by destruct (List.find _ _).
  - by destruct (Chat.selectedDocuments s !! i).
Qed.

Lemma waiting_run es s :
  Chat.isLoading s = true → existsb Chat.isTimeoutFires es = false →
  Chat.messages (Chat.run es s) = Chat.messages s ∧
  Chat.timers (Chat.run es s) = Chat.timers s ∧
  Chat.isLoading (Chat.run es s) = true.
Proof.
  intros Hl. induction es as [|e es IH] using rev_ind; intros Hes; [done|].
  rewrite existsb_app in Hes. apply orb_false_iff in Hes as [Hes He].
  simpl in He. rewrite orb_false_r in He.
  destruct (IH Hes) as (Hm & Ht & Hl').
  rewrite Chat_run_snoc.
  destruct (waiting_frame (Chat.run es s) e Hl' He) as (Hm' & Ht' & Hl'').
  split; [congruence|]. split; [congruence|done].
Qed.

(** X15.  The reply answers the message as it was sent.  When a text that
    is not blank is sent from a panel with no timeout pending, whatever
    happens before the timeout fires (documents selected, removed or
    uploaded, the mode switched, another node selected on the canvas), the
    conversation grows by exactly the user's message and a reply computed
    from the text, the node, the documents and the mode of the moment of
    sending. *)
Theorem reply_uses_context_at_send (s : Chat.State) (now stamp : Z)
    (es : list Chat.Event) (pick : Chat.Pick) (now' stamp' : Z) :
  Chat.timers s = [] →
  Js.truthy (Js.trim (Chat.inputMessage s)) = true →
  existsb Chat.isTimeoutFires es = false →
  let waiting := Chat.run es (Chat.handleSendMessage now stamp s) in
  let s' := Chat.dispatch waiting (Chat.TimeoutFires 0 pick now' stamp') in
  Chat.messages s' =
    Chat.messages s ++
    [Message.mk (Js.toString now) Message.user (Chat.inputMessage s) stamp;
     Message.mk (Js.toString (now' + 1)) Message.ai
       (Chat.generateAIResponse pick (Chat.inputMessage s) (Chat.selectedNode s)
          (Some (Chat.selectedDocuments s)) (Chat.useDocumentsOnly s))
       stamp'] ∧
  Chat.isLoading s' = false ∧ Chat.timers s' = [].
Proof.
  intros Ht Hin Hes waiting s'.
  assert (Hsent : Chat.handleSendMessage now stamp s =
    s |> Chat.setMessages (λ prev, prev ++
           [Message.mk (Js.toString now) Message.user (Chat.inputMessage s) stamp])
      |> Chat.setInputMessage ""
      |> Chat.setIsLoading true
      |> Chat.setTimeout (Chat.mkTimer (Chat.inputMessage s) (Chat.selectedNode s)
           (Chat.selectedDocuments s) (Chat.useDocumentsOnly s))).
  { unfold Chat.handleSendMessage. by rewrite Hin. }
  destruct (waiting_run es (Chat.handleSendMessage now stamp s)) as (Hm & Htm & Hl);
    [by rewrite Hsent|done|].
  fold waiting in Hm, Htm, Hl.
  rewrite Hsent in Hm, Htm. simpl in Hm, Htm. rewrite Ht in Htm. simpl in Htm.
  subst s'. simpl. unfold Chat.timeout. rewrite Htm. simpl.
  rewrite Hm, Htm, <- app_assoc. done.
Qed.

Lemma reply_uses_context_at_send_witness :
  let d := Document.mk "doc_1" "notes.md" "text/markdown" 12 "# Notes" 5 "General" in
  let s := Chat.run [Chat.Typing "plan the launch"] (Chat.initial 0) in
  let es := [Chat.DocumentUploaded d; Chat.SwitchDocumentsOnly true;
             Chat.HostSelectsNode (Some (Node.mk "root" "Main Idea" root))] in
  Message.content <$>
    last (Chat.messages
            (Chat.run (Chat.PressEnter 10 11 :: es ++ [Chat.TimeoutFires 0 Chat.Pick2 20 21]) s))
  = Some (Chat.generateAIResponse Chat.Pick2 "plan the launch" None (Some []) false).
Proof.
  intros d s es.
  destruct (reply_uses_context_at_send s 10 11 es Chat.Pick2 20 21)
    as (Hm & _); [reflexivity|reflexivity|reflexivity|].
  change (Chat.run (Chat.PressEnter 10 11 :: es ++ [Chat.TimeoutFires 0 Chat.Pick2 20 21]) s)
    with (Chat.dispatch (Chat.run es (Chat.handleSendMessage 10 11 s))
            (Chat.TimeoutFires 0 Chat.Pick2 20 21)).
  rewrite Hm.
  change (Chat.messages s ++ [?a; ?b]) with ((Chat.messages s ++ [a]) ++ [b]).
  by rewrite last_snoc.
Defined.

Lemma withContext_quotes info pre post userInput :
  ∃ pre' post',
    Chat.withContext info (pre +:+ Chat.quote +:+ userInput +:+ Chat.quote +:+ post)
    = pre' +:+ Chat.quote +:+ userInput +:+ Chat.quote +:+ post'.
Proof.
  unfold Chat.withContext. destruct (bool_decide _).
  - exists (Chat.join ". " info +:+ ". " +:+ pre), post.
    by rewrite !string_app_assoc.
  - by exists pre, post.
Qed.

(** X16.  Every reply but the refusal of the documents-only mode echoes
    the text of the user, between double quotes: when the mode is off, or
    some document is in the context, the reply is a text around the quoted
    input, whichever template is drawn and whatever the context. *)
Theorem generateAIResponse_quotes_input (pick : Chat.Pick) (userInput : string)
    (node : option Node.data) (documents : option (list Document.t))
    (documentsOnly : bool) :
  (documentsOnly = true → ∃ d ds, documents = Some (d :: ds)) →
  ∃ pre post,
    Chat.generateAIResponse pick userInput node documents documentsOnly
    = pre +:+ Chat.quote +:+ userInput +:+ Chat.quote +:+ post.
Proof.
  intros Hdocs. unfold Chat.generateAIResponse.
  destruct documentsOnly.
  - destruct Hdocs as (d & ds & ->); [done|].
    rewrite bool_decide_false by done.
    destruct pick; apply withContext_quotes.
  - destruct pick; apply withContext_quotes.
Qed.

Lemma generateAIResponse_quotes_input_witness :
  let d := Document.mk "doc_1" "notes.md" "text/markdown" 12 "# Notes" 5 "General" in
  ∃ pre post,
    Chat.generateAIResponse Chat.Pick3 "risks" None (Some [d]) true
    = pre +:+ Chat.quote +:+ "risks" +:+ Chat.quote +:+ post.
Proof.
  intros d.
  apply (generateAIResponse_quotes_input Chat.Pick3 "risks" None (Some [d]) true).
  intros _. by exists d, [].
Defined.

Lemma find_id_None d l :
  List.find (λ d', bool_decide (Document.id d' = Document.id d)) l = None ↔
  Document.id d ∉ Document.id <$> l.
Proof.
  induction l as [|x l IH]; simpl.
  - split; [intros _; apply not_elem_of_nil|done].
  - rewrite not_elem_of_cons. case_bool_decide as Hx.
    + split; [done|]. intros [Hne _]. by rewrite Hx in Hne.
    + rewrite IH. split; [intros Hl; split; [congruence|done]|by intros [_ Hl]].
Qed.

Lemma filter_other_ids i (l : list Document.t) :
  i ∉ Document.id <$> l → filter (λ d, Document.id d ≠ i) l = l.
Proof.
  induction l as [|x l IH]; [done|].
  rewrite fmap_cons, not_elem_of_cons. intros [Hx Hl].
  rewrite filter_cons_True by congruence. by rewrite IH.
Qed.

(** X17.  Selecting a document in the viewer keeps the identifiers of the
    context distinct and is idempotent: from a context with distinct
    identifiers the result has distinct identifiers and lists the
    document's identifier, a second selection changes nothing, and, when
    the document was not in the context, removing it again gives back the
    state before the selection. *)
Theorem handleDocumentSelect_distinct (d : Document.t) (s : Chat.State) :
  NoDup (Document.id <$> Chat.selectedDocuments s) →
  let s' := Chat.handleDocumentSelect d s in
  NoDup (Document.id <$> Chat.selectedDocuments s') ∧
  Document.id d ∈ Document.id <$> Chat.selectedDocuments s' ∧
  Chat.handleDocumentSelect d s' = s' ∧
  (Document.id d ∉ Document.id <$> Chat.selectedDocuments s →
   Chat.removeDocument (Document.id d) s' = s).
Proof.
  intros Hnd s'. subst s'.
  destruct (List.find (λ d', bool_decide (Document.id d' = Document.id d))
              (Chat.selectedDocuments s)) as [x|] eqn:Hfind.
  - assert (Hsame : Chat.handleDocumentSelect d s = s).
    { unfold Chat.handleDocumentSelect. by rewrite Hfind. }
    assert (Hin : Document.id d ∈ Document.id <$> Chat.selectedDocuments s).
    { destruct (decide (Document.id d ∈ Document.id <$> Chat.selectedDocuments s))
        as [|Hnot]; [done|].
      apply find_id_None in Hnot. congruence. }
    rewrite !Hsame. split; [done|]. split; [done|]. split; [done|].
    intros Hnot. by destruct Hnot.
  - pose proof Hfind as Hnot. apply find_id_None in Hnot.
    assert (Hadd : Chat.handleDocumentSelect d s =
              Chat.setSelectedDocuments (λ prev, prev ++ [d]) s).
    { unfold Chat.handleDocumentSelect. by rewrite Hfind. }
    rewrite Hadd.
    assert (Hin : Document.id d ∈
              Document.id <$> Chat.selectedDocuments
                (Chat.setSelectedDocuments (λ prev, prev ++ [d]) s)).
    { simpl. rewrite fmap_app. apply elem_of_app. right.
      by apply list_elem_of_singleton. }
    split; [|split; [done|split]].
    + simpl. rewrite fmap_app. apply NoDup_app. split; [done|].
      split; [|apply NoDup_singleton].
      intros i Hi Hi'%list_elem_of_singleton. by subst i.
    + unfold Chat.handleDocumentSelect.
      destruct (List.find _ (Chat.selectedDocuments
                  (Chat.setSelectedDocuments (λ prev, prev ++ [d]) s)))
        as [y|] eqn:Hfind'; [done|].
      apply find_id_None in Hfind'. by destruct Hfind'.
    + intros _. unfold Chat.removeDocument, Chat.setSelectedDocuments. simpl.
      rewrite filter_app, filter_other_ids by done.
      rewrite filter_cons_False, filter_nil, app_nil_r by (by intros Hne).
      by destruct s.
Qed.

Lemma handleDocumentSelect_distinct_witness :
  let a := Document.mk "doc_1" "notes.md" "text/markdown" 12 "# Notes" 5 "General" in
  let b := Document.mk "doc_2" "plan.txt" "text/plain" 4 "plan" 6 "Work" in
  let s := Chat.run [Chat.DocumentUploaded a] (Chat.initial 0) in
  Chat.removeDocument "doc_2" (Chat.handleDocumentSelect b s) = s.
Proof.
  intros a b s.
  destruct (handleDocumentSelect_distinct b s) as (_ & _ & _ & Hback).
  - compute_done.
  - apply Hback. compute_done.
Defined.

(** * The page and the canvas *)

(** X18. The page never loses track of which node is selected.  In every
    state that either canvas reaches when [Index.tsx] has mounted it, the
    node that the page holds has the id of the node selected on the canvas,
    and the page holds none exactly when the canvas does.  The data that
    the page holds was read from an instance that has since been
    destroyed: telling the page made the effect run again. *)
Theorem host_selection_id_current :
  (∀ evs,
     let c := TwoClick.run evs (TwoClick.initial Host.IndexPage) in
     Node.id <$> pageSelectedNode c = Node.id <$> selectedNode (latest c)
     ∧ (pageSelectedNode c = None ↔ selectedNode (latest c) = None)
     ∧ ∀ i d, page c = Some (i, d) → i < built c)
  ∧ (∀ evs,
       let c := DragConnect.run evs (DragConnect.initial Host.IndexPage) in
       Node.id <$> pageSelectedNode c = Node.id <$> selectedNode (latest c)
       ∧ (pageSelectedNode c = None ↔ selectedNode (latest c) = None)
       ∧ ∀ i d, page c = Some (i, d) → i < built c).
Proof.
  assert (∀ M (c : Mounted M), parent c = Host.IndexPage → pageOk c →
            Node.id <$> pageSelectedNode c = Node.id <$> selectedNode (latest c)
            ∧ (pageSelectedNode c = None ↔ selectedNode (latest c) = None)
            ∧ ∀ i d, page c = Some (i, d) → i < built c) as Hpage.
  { intros M c Hparent Hok. destruct (Hok Hparent) as (_ & Hold & Hid).
    split; [done|]. split; [|done]. unfold pageSelectedNode in *.
    destruct (page c) as [[i d]|], (selectedNode (latest c)); by simpl in *. }
  split; intros evs; apply Hpage.
  - apply TwoClick_parent.
  - by destruct (TwoClick_reachable Host.IndexPage evs) as (_ & ? & _).
  - apply DragConnect_parent.
  - by destruct (DragConnect_reachable Host.IndexPage evs) as (_ & ? & _).
Qed.

Lemma host_selection_id_current_witness :
  let evs := [TwoClick.ClickAddNode primary 1700000000000 0.5 0.5;
              TwoClick.Tap (AtElement "node-1700000000000");
              TwoClick.ClickEdit; TwoClick.EditChange "Plan"; TwoClick.ClickSave] in
  let c := TwoClick.run evs (TwoClick.initial Host.IndexPage) in
  page c = Some (1, Node.mk "node-1700000000000" "New Idea" primary)
  ∧ selectedNode (latest c) = Some (Node.mk "node-1700000000000" "Plan" primary)
  ∧ built c = 2
  ∧ 1 < built c.
Proof.
  intros evs c. split; [reflexivity|]. split; [reflexivity|]. split; [reflexivity|].
  destruct host_selection_id_current as [Htwo _].
  destruct (Htwo evs) as (_ & _ & Hold).
  apply (Hold 1 (Node.mk "node-1700000000000" "New Idea" primary)). reflexivity.
Defined.

